(** * sync_and_report.py: a shallow embedding and its verified properties

    The script synchronises a creator's remote image catalog against a local
    manifest.  This development models the Python values the script
    manipulates (JSON-derived objects), the dictionaries and sets of the
    diff step, the paginated crawl, the per-image worker and the pool
    phase, the archive step, and the manifest store with the JSON text
    format written by [json.dump(..., indent=4)] and read by [json.load]. *)

From Stdlib Require Import ZArith NArith Lia Ascii String.
From stdpp Require Import base option list gmap sets strings.

#[local] Set Warnings "-clear-no-such-hyp".

Open Scope Z_scope.

(** ** Python values *)

(** A Python [str] is a sequence of Unicode code points. *)
Definition pystr := list N.

(** [u "abc"] is the Python string literal ['abc'] (ASCII only). *)
Definition u (s : string) : pystr :=
  (λ a, N_of_ascii a) <$> String.list_ascii_of_string s.

(** [utf8 "..."] is a Python string literal with non-ASCII characters,
    decoded from the UTF-8 bytes of the source text. *)
Fixpoint utf8_decode (bs : list N) : pystr :=
  match bs with
  | [] => []
  | b :: r =>
      if (b <? 128)%N then b :: utf8_decode r
      else if (b <? 224)%N then
        match r with
        | b2 :: r' => ((b - 192) * 64 + (b2 - 128))%N :: utf8_decode r'
        | _ => []
        end
      else if (b <? 240)%N then
        match r with
        | b2 :: b3 :: r' =>
            ((b - 224) * 4096 + (b2 - 128) * 64 + (b3 - 128))%N :: utf8_decode r'
        | _ => []
        end
      else
        match r with
        | b2 :: b3 :: b4 :: r' =>
            ((b - 240) * 262144 + (b2 - 128) * 4096 + (b3 - 128) * 64 + (b4 - 128))%N
            :: utf8_decode r'
        | _ => []
        end
  end.

Definition utf8 (s : string) : pystr := utf8_decode (u s).

(** The objects produced by [response.json()] and [json.load]: [None],
    [bool], [int], [float], [str], [list] and [dict] with [str] keys.  A
    [dict] keeps its insertion order, so it is an association list; a
    [float] is represented by its [repr] text (for instance ['7.5'],
    ['1e-05'], ['nan'], ['inf']), which determines it. *)
#[local] Unset Elimination Schemes.
Inductive value :=
| VNone
| VBool (b : bool)
| VInt (n : Z)
| VFloat (r : pystr)
| VStr (s : pystr)
| VList (l : list value)
| VDict (d : list (pystr * value)).

#[local] Set Elimination Schemes.

Abbreviation dict := (list (pystr * value)).

(** What the Python runtime supplies and this development leaves abstract:
    [float_canon lit] is [repr(float(lit))] for a decimal literal [lit], and
    [str_repr s] is [repr(s)] for a [str]. *)
Class PyRuntime := {
  float_canon : pystr → pystr;
  str_repr : pystr → pystr
}.

(** Exceptions the script can let escape or catch. *)
Inductive exn :=
| KeyError (k : pystr)
| TypeError
| AttributeError
| ValueError
| JSONDecodeError
| UnicodeDecodeError
| OSError.

(** The result of running a piece of the script: a value, an exception that
    propagates, or no result because the loop budget ran out. *)
Inductive outcome (A : Type) :=
| Ret (a : A)
| Raise (e : exn)
| Diverge.
Arguments Ret {A} a.
Arguments Raise {A} e.
Arguments Diverge {A}.

Definition obind {A B} (m : outcome A) (k : A → outcome B) : outcome B :=
  match m with
  | Ret a => k a
  | Raise e => Raise e
  | Diverge => Diverge
  end.

(** *** Dictionaries *)

(** [d.get(k)] / [k in d]: the entry stored under [k]. *)
Fixpoint dict_get (k : pystr) (d : dict) : option value :=
  match d with
  | [] => None
  | (k', v) :: d' => if decide (k' = k) then Some v else dict_get k d'
  end.

(** [d[k] = v]: replaces the value in place when [k] is present, appends
    otherwise. *)
Fixpoint dict_set (k : pystr) (v : value) (d : dict) : dict :=
  match d with
  | [] => [(k, v)]
  | (k', v') :: d' =>
      if decide (k' = k) then (k', v) :: d' else (k', v') :: dict_set k v d'
  end.

(** [set(d.keys())] *)
Definition key_set (d : dict) : gset pystr := list_to_set d.*1.

(** [v.get(k, default)]: only a [dict] has [.get]. *)
Definition py_get (v : value) (k : pystr) (dflt : value) : outcome value :=
  match v with
  | VDict d => Ret (default dflt (dict_get k d))
  | _ => Raise AttributeError
  end.

(** [v[k]] *)
Definition py_index (v : value) (k : pystr) : outcome value :=
  match v with
  | VDict d =>
      match dict_get k d with
      | Some x => Ret x
      | None => Raise (KeyError k)
      end
  | _ => Raise TypeError
  end.

(** Truthiness, as tested by [if x], [not x] and [while x]. *)
Definition truthy (v : value) : bool :=
  match v with
  | VNone => false
  | VBool b => b
  | VInt n => negb (n =? 0)
  | VFloat r => negb (bool_decide (r = u "0.0" ∨ r = u "-0.0"))
  | VStr s => negb (bool_decide (s = []))
  | VList l => negb (bool_decide (l = []))
  | VDict d => negb (bool_decide (d = []))
  end.

(** *** Decimal text of an [int] *)

Definition digit_char (d : N) : N := (48 + d)%N.

Fixpoint pos_digits (fuel : nat) (n : N) (acc : pystr) : pystr :=
  match fuel with
  | O => acc
  | S fuel' =>
      let acc' := digit_char (n mod 10) :: acc in
      if (n / 10 =? 0)%N then acc' else pos_digits fuel' (n / 10)%N acc'
  end.

(** [str(n)] for a natural number: no leading zero, ["0"] for zero. *)
Definition N_str (n : N) : pystr := pos_digits (S (N.to_nat (N.log2 n))) n [].

(** [str(n)] / [int.__repr__(n)] *)
Definition Z_str (n : Z) : pystr :=
  if n <? 0 then 45%N :: N_str (Z.to_N (- n)) else N_str (Z.to_N n).

(** *** [str()] and [repr()] *)

Fixpoint join (sep : pystr) (parts : list pystr) : pystr :=
  match parts with
  | [] => []
  | [p] => p
  | p :: ps => p ++ sep ++ join sep ps
  end.

Section Repr.
Context `{PyRuntime}.

Fixpoint py_repr (v : value) : pystr :=
  match v with
  | VNone => u "None"
  | VBool true => u "True"
  | VBool false => u "False"
  | VInt n => Z_str n
  | VFloat r => r
  | VStr s => str_repr s
  | VList l => u "[" ++ join (u ", ") (map py_repr l) ++ u "]"
  | VDict d =>
      u "{" ++
      join (u ", ") (map (λ kv, str_repr kv.1 ++ u ": " ++ py_repr kv.2) d)
      ++ u "}"
  end.

(** [str(v)], also what an f-string substitutes for [{v}]. *)
Definition py_str (v : value) : pystr :=
  match v with
  | VStr s => s
  | _ => py_repr v
  end.
End Repr.

(** ** Diff engine ([main], the comparison of old and new image lists) *)

(** [[f(x) for x in xs]] where [f] may raise. *)
Fixpoint comprehension {A B} (f : A → outcome B) (xs : list A) : outcome (list B) :=
  match xs with
  | [] => Ret []
  | x :: xs' => obind (f x) (λ y, obind (comprehension f xs') (λ ys, Ret (y :: ys)))
  end.

(** [d[k]] on a dictionary. *)
Definition dict_index (d : dict) (k : pystr) : outcome value :=
  match dict_get k d with
  | Some x => Ret x
  | None => Raise (KeyError k)
  end.

Record DiffResult := {
  new_image_ids : gset pystr;
  deleted_image_ids : gset pystr;
  new_images : list value;
  deleted_images_data : list value
}.

(** The comparison step of [main].  Python leaves the iteration order of a
    [set] unspecified; [elements] fixes one, and no statement below depends
    on which. *)
Definition diff (old_manifest current_images_map : dict) : outcome DiffResult :=
  let old_image_ids := key_set old_manifest in
  let current_image_ids := key_set current_images_map in
  let new_image_ids := current_image_ids ∖ old_image_ids in
  let deleted_image_ids := old_image_ids ∖ current_image_ids in
  obind (comprehension (dict_index current_images_map) (elements new_image_ids))
    (λ new_images,
  obind (comprehension (dict_index old_manifest) (elements deleted_image_ids))
    (λ deleted_images_data,
  Ret {| new_image_ids := new_image_ids;
         deleted_image_ids := deleted_image_ids;
         new_images := new_images;
         deleted_images_data := deleted_images_data |})).

Section Catalog.
Context `{PyRuntime}.

(** [{str(img['id']): img for img in current_image_list}] *)
Fixpoint images_map (current_image_list : list value) (acc : dict) : outcome dict :=
  match current_image_list with
  | [] => Ret acc
  | img :: rest =>
      obind (py_index img (u "id"))
        (λ i, images_map rest (dict_set (py_str i) img acc))
  end.

(** A catalog files every entry under the text of its own identifier. *)
Definition catalog_ok (d : dict) : Prop :=
  ∀ k e, dict_get k d = Some e →
    ∃ i, py_index e (u "id") = Ret i ∧ py_str i = k.

End Catalog.

(** ** The JSON text format *)

Open Scope N_scope.

(** *** Writing: [json.dump(data, f, indent=4)]

    With [indent] given, the item separator is [","] followed by a newline
    and the indentation, the key separator is [": "], and [ensure_ascii]
    keeps its default [True]. *)

Definition hex_digit (d : N) : N := if d <? 10 then 48 + d else 87 + d.

(** ['\\u{0:04x}'.format(n)] *)
Definition u_escape (n : N) : pystr :=
  [92; 117; hex_digit (n / 4096 mod 16); hex_digit (n / 256 mod 16);
   hex_digit (n / 16 mod 16); hex_digit (n mod 16)].

(** The replacement of one character by [encode_basestring_ascii]: the
    short escapes of [ESCAPE_DCT], the printable ASCII characters as they
    are, [\uXXXX] for the rest of the basic plane and a surrogate pair
    above it. *)
Definition escape_char (c : N) : pystr :=
  if c =? 34 then [92; 34]            (* double quote *)
  else if c =? 92 then [92; 92]       (* backslash *)
  else if c =? 10 then [92; 110]      (* \n *)
  else if c =? 13 then [92; 114]      (* \r *)
  else if c =? 9 then [92; 116]       (* \t *)
  else if c =? 8 then [92; 98]        (* \b *)
  else if c =? 12 then [92; 102]      (* \f *)
  else if (32 <=? c) && (c <=? 126) then [c]
  else if c <? 65536 then u_escape c
  else
    let v := c - 65536 in
    u_escape (N.lor 55296 (N.land (N.shiftr v 10) 1023)) ++
    u_escape (N.lor 56320 (N.land v 1023)).

Definition encode_string (s : pystr) : pystr :=
  34 :: concat (map escape_char s) ++ [34].

(** [floatstr]: the three non-finite floats have their JavaScript names,
    every other float is written as its [repr]. *)
Definition floatstr (r : pystr) : pystr :=
  if decide (r = u "nan") then u "NaN"
  else if decide (r = u "inf") then u "Infinity"
  else if decide (r = u "-inf") then u "-Infinity"
  else r.

(** ['\n' + indent * level] with [indent = 4] spaces. *)
Definition newline_indent (level : nat) : pystr := 10 :: replicate (4 * level) 32.

(** [_iterencode] at nesting depth [level]; the chunks it yields are
    concatenated. *)
Fixpoint encode (level : nat) (v : value) : pystr :=
  match v with
  | VNone => u "null"
  | VBool true => u "true"
  | VBool false => u "false"
  | VInt n => Z_str n
  | VFloat r => floatstr r
  | VStr s => encode_string s
  | VList [] => u "[]"
  | VList l =>
      u "[" ++ newline_indent (S level) ++
      join (44 :: newline_indent (S level)) (map (encode (S level)) l) ++
      newline_indent level ++ u "]"
  | VDict [] => u "{}"
  | VDict d =>
      u "{" ++ newline_indent (S level) ++
      join (44 :: newline_indent (S level))
        (map (λ kv, encode_string kv.1 ++ u ": " ++ encode (S level) kv.2) d) ++
      newline_indent level ++ u "}"
  end.

(** [json.dumps(data, indent=4)], the text [json.dump] writes. *)
Definition json_dumps (data : value) : pystr := encode 0 data.

(** *** Reading: [json.load(f)], following the scanner of the [json] module *)

Definition is_ws (c : N) : bool :=
  (c =? 32) || (c =? 9) || (c =? 10) || (c =? 13).

Fixpoint skip_ws (s : pystr) : pystr :=
  match s with
  | c :: s' => if is_ws c then skip_ws s' else s
  | [] => []
  end.

Definition is_digit (c : N) : bool := (48 <=? c) && (c <=? 57).

Definition hex_value (c : N) : option N :=
  if (48 <=? c) && (c <=? 57) then Some (c - 48)
  else if (97 <=? c) && (c <=? 102) then Some (c - 87)
  else if (65 <=? c) && (c <=? 70) then Some (c - 55)
  else None.

Definition hex4_value (h1 h2 h3 h4 : N) : option N :=
  match hex_value h1, hex_value h2, hex_value h3, hex_value h4 with
  | Some a, Some b, Some c, Some d => Some (((a * 16 + b) * 16 + c) * 16 + d)
  | _, _, _, _ => None
  end.

Definition is_high_surrogate (c : N) : bool := (55296 <=? c) && (c <=? 56319).
Definition is_low_surrogate (c : N) : bool := (56320 <=? c) && (c <=? 57343).

(** [Py_UNICODE_JOIN_SURROGATES] *)
Definition join_surrogates (hi lo : N) : N :=
  65536 + N.lor (N.shiftl (N.land hi 1023) 10) (N.land lo 1023).

(** The character a short escape stands for ([BACKSLASH]). *)
Definition unescape (e : N) : option N :=
  if e =? 34 then Some 34
  else if e =? 92 then Some 92
  else if e =? 47 then Some 47
  else if e =? 98 then Some 8
  else if e =? 102 then Some 12
  else if e =? 110 then Some 10
  else if e =? 114 then Some 13
  else if e =? 116 then Some 9
  else None.

Definition cons_char (c : N) (r : option (pystr * pystr)) : option (pystr * pystr) :=
  match r with
  | Some (str, rest) => Some (c :: str, rest)
  | None => None
  end.

(** [scanstring(s, end, strict=True)], entered after the opening quote:
    the decoded string and the text after the closing quote. *)
Fixpoint scanstring (s : pystr) : option (pystr * pystr) :=
  match s with
  | [] => None
  | c :: s1 =>
      if c =? 34 then Some ([], s1)
      else if c =? 92 then
        match s1 with
        | [] => None
        | e :: s2 =>
            if e =? 117 then
              match s2 with
              | h1 :: h2 :: h3 :: h4 :: s3 =>
                  match hex4_value h1 h2 h3 h4 with
                  | None => None
                  | Some uni =>
                      if is_high_surrogate uni then
                        match s3 with
                        | b :: e2 :: g1 :: g2 :: g3 :: g4 :: s4 =>
                            if (b =? 92) && (e2 =? 117) then
                              match hex4_value g1 g2 g3 g4 with
                              | None => None
                              | Some uni2 =>
                                  if is_low_surrogate uni2
                                  then cons_char (join_surrogates uni uni2) (scanstring s4)
                                  else cons_char uni (scanstring s3)
                              end
                            else cons_char uni (scanstring s3)
                        | _ => cons_char uni (scanstring s3)
                        end
                      else cons_char uni (scanstring s3)
                  end
              | _ => None
              end
            else
              match unescape e with
              | Some c' => cons_char c' (scanstring s2)
              | None => None
              end
        end
      else if c <=? 31 then None
      else cons_char c (scanstring s1)
  end.

(** The longest prefix of decimal digits, and what follows it. *)
Fixpoint span_digits (s : pystr) : pystr * pystr :=
  match s with
  | c :: s' =>
      if is_digit c then let '(ds, rest) := span_digits s' in (c :: ds, rest)
      else ([], s)
  | [] => ([], [])
  end.

Definition digits_value (ds : pystr) : N :=
  foldl (λ acc c, acc * 10 + (c - 48)) 0 ds.

(** [int(text)] for a matched integer token. *)
Definition int_of_token (tok : pystr) : Z :=
  match tok with
  | c :: ds =>
      if c =? 45 then (- Z.of_N (digits_value ds))%Z else Z.of_N (digits_value tok)
  | [] => 0%Z
  end.

(** [_match_number], part by part: an optional minus sign, *)
Definition number_sign (s : pystr) : pystr * pystr :=
  match s with
  | c :: s' => if c =? 45 then ([c], s') else ([], s)
  | [] => ([], s)
  end.

(** a zero or a digit string that does not start with zero, *)
Definition number_int (s : pystr) : option (pystr * pystr) :=
  match s with
  | [] => None
  | c :: s1 =>
      if c =? 48 then Some ([c], s1)
      else if (49 <=? c) && (c <=? 57)
      then let '(ds, rest) := span_digits s1 in Some (c :: ds, rest)
      else None
  end.

(** a fraction when a dot is followed by a digit, *)
Definition number_frac (s : pystr) : pystr * pystr :=
  match s with
  | c :: d :: s' =>
      if (c =? 46) && is_digit d
      then let '(fs, rest) := span_digits s' in (c :: d :: fs, rest)
      else ([], s)
  | _ => ([], s)
  end.

(** and an exponent, given back when no digit follows the [e] and its sign. *)
Definition number_exp (s : pystr) : pystr * pystr :=
  match s with
  | e :: s' =>
      if (e =? 101) || (e =? 69) then
        let '(esign, s'') :=
          match s' with
          | sg :: t => if (sg =? 45) || (sg =? 43) then ([sg], t) else ([], s')
          | [] => ([], s')
          end in
        match span_digits s'' with
        | ([], _) => ([], s)
        | (es, rest) => (e :: esign ++ es, rest)
        end
      else ([], s)
  | [] => ([], s)
  end.

(** The integer part (with its sign), the fraction and the exponent of the
    longest number token at the head of [s], and the rest. *)
Definition match_number (s : pystr) : option (pystr * pystr * pystr * pystr) :=
  let '(sign, s0) := number_sign s in
  match number_int s0 with
  | None => None
  | Some (ds, s2) =>
      let '(frac, s3) := number_frac s2 in
      let '(exp, s4) := number_exp s3 in
      Some (sign ++ ds, frac, exp, s4)
  end.

Fixpoint strip_prefix (p s : pystr) : option pystr :=
  match p, s with
  | [], _ => Some s
  | a :: p', b :: s' => if a =? b then strip_prefix p' s' else None
  | _ :: _, [] => None
  end.

(** [dict(pairs)] as the scanner fills it: one [d[key] = value] per pair, in
    the order of the text. *)
Definition dict_of_pairs (pairs : list (pystr * value)) : dict :=
  foldl (λ acc kv, dict_set kv.1 kv.2 acc) [] pairs.

(** The number of nested calls the scanner makes to read a value back. *)
Fixpoint fuel_needed (v : value) : nat :=
  match v with
  | VList l => S (foldr (λ v acc, S (max (fuel_needed v) acc)) 0%nat l)
  | VDict d => S (foldr (λ kv acc, S (max (fuel_needed kv.2) acc)) 0%nat d)
  | _ => 1
  end.

Section Decoder.
Context `{PyRuntime}.

(** [scan_once], [JSONArray] and [JSONObject].  [fuel] bounds the number of
    nested calls; [json_loads] supplies enough of it for any text. *)
Fixpoint scan_once (fuel : nat) (s : pystr) {struct fuel} : option (value * pystr) :=
  match fuel with
  | O => None
  | S fuel =>
      match s with
      | [] => None
      | c :: s1 =>
          if c =? 34 then
            match scanstring s1 with
            | Some (str, rest) => Some (VStr str, rest)
            | None => None
            end
          else if c =? 123 then
            match skip_ws s1 with
            | [] => None
            | c2 :: s3 =>
                if c2 =? 125 then Some (VDict [], s3)
                else
                  match object_items fuel (c2 :: s3) with
                  | Some (pairs, rest) => Some (VDict (dict_of_pairs pairs), rest)
                  | None => None
                  end
            end
          else if c =? 91 then
            match skip_ws s1 with
            | [] => None
            | c2 :: s3 =>
                if c2 =? 93 then Some (VList [], s3)
                else
                  match array_items fuel (c2 :: s3) with
                  | Some (vs, rest) => Some (VList vs, rest)
                  | None => None
                  end
            end
          else
            match strip_prefix (u "null") s, strip_prefix (u "true") s,
                  strip_prefix (u "false") s with
            | Some rest, _, _ => Some (VNone, rest)
            | _, Some rest, _ => Some (VBool true, rest)
            | _, _, Some rest => Some (VBool false, rest)
            | None, None, None =>
                match strip_prefix (u "-Infinity") s with
                | Some rest => Some (VFloat (u "-inf"), rest)
                | None =>
                    match match_number s with
                    | Some (int_part, frac, exp, rest) =>
                        match frac, exp with
                        | [], [] => Some (VInt (int_of_token int_part), rest)
                        | _, _ =>
                            Some (VFloat (float_canon (int_part ++ frac ++ exp)), rest)
                        end
                    | None =>
                        match strip_prefix (u "NaN") s, strip_prefix (u "Infinity") s with
                        | Some rest, _ => Some (VFloat (u "nan"), rest)
                        | _, Some rest => Some (VFloat (u "inf"), rest)
                        | None, None => None
                        end
                    end
                end
            end
      end
  end
with array_items (fuel : nat) (s : pystr) {struct fuel} : option (list value * pystr) :=
  match fuel with
  | O => None
  | S fuel =>
      match scan_once fuel s with
      | None => None
      | Some (v, rest) =>
          match skip_ws rest with
          | [] => None
          | c :: rest' =>
              if c =? 93 then Some ([v], rest')
              else if c =? 44 then
                match array_items fuel (skip_ws rest') with
                | Some (vs, r) => Some (v :: vs, r)
                | None => None
                end
              else None
          end
      end
  end
with object_items (fuel : nat) (s : pystr) {struct fuel}
    : option (list (pystr * value) * pystr) :=
  match fuel with
  | O => None
  | S fuel =>
      match s with
      | [] => None
      | q :: s1 =>
          if q =? 34 then
            match scanstring s1 with
            | None => None
            | Some (key, s2) =>
                match skip_ws s2 with
                | [] => None
                | colon :: s3 =>
                    if colon =? 58 then
                      match scan_once fuel (skip_ws s3) with
                      | None => None
                      | Some (v, rest) =>
                          match skip_ws rest with
                          | [] => None
                          | c :: rest' =>
                              if c =? 125 then Some ([(key, v)], rest')
                              else if c =? 44 then
                                match object_items fuel (skip_ws rest') with
                                | Some (kvs, r) => Some ((key, v) :: kvs, r)
                                | None => None
                                end
                              else None
                          end
                      end
                    else None
                end
            end
          else None
      end
  end.

(** [json.loads(s)]: [None] stands for [JSONDecodeError].  A leading byte
    order mark is refused, white space may surround the document, and
    anything else after it is an error. *)
Definition json_loads (s : pystr) : option value :=
  if bool_decide (head s = Some 65279) then None
  else
    match scan_once (2 * length s + 2) (skip_ws s) with
    | Some (v, rest) =>
        match skip_ws rest with
        | [] => Some v
        | _ :: _ => None
        end
    | None => None
    end.

(** *** The values that come out of JSON text

    The values [json.loads] builds: the keys of a [dict] are distinct, a
    [float] is a non-finite one or the [repr] of the number some literal
    denotes, and a high surrogate is never followed by a low one (the
    scanner joins such a pair into one character). *)
Definition code_point (c : N) : bool := c <? 1114112.

Fixpoint no_surrogate_pair (s : pystr) : bool :=
  match s with
  | a :: t =>
      match t with
      | b :: _ => negb (is_high_surrogate a && is_low_surrogate b) && no_surrogate_pair t
      | [] => true
      end
  | [] => true
  end.

Definition str_ok (s : pystr) : bool := forallb code_point s && no_surrogate_pair s.

Definition float_ok (r : pystr) : bool :=
  bool_decide (r = u "nan") || bool_decide (r = u "inf") || bool_decide (r = u "-inf") ||
  match match_number r with
  | Some (int_part, frac, exp, []) =>
      negb (bool_decide (frac = []) && bool_decide (exp = [])) &&
      bool_decide (float_canon (int_part ++ frac ++ exp) = r)
  | _ => false
  end.

Fixpoint value_ok (v : value) : bool :=
  match v with
  | VNone | VBool _ | VInt _ => true
  | VFloat r => float_ok r
  | VStr s => str_ok s
  | VList l => forallb value_ok l
  | VDict d =>
      forallb (λ kv, str_ok kv.1 && value_ok kv.2) d && bool_decide (NoDup d.*1)
  end.

End Decoder.

(** *** Notions used to state the facts about the text format *)

Section TextNotions.
Open Scope N_scope.

(** What [pos_digits] puts in front of [acc]: the decimal digits of [n],
    most significant first, without a leading zero. *)
Definition decimal_of (n : N) (ds : pystr) : Prop :=
  Forall (λ c, is_digit c = true) ds ∧ digits_value ds = n ∧
  ∃ c ds', ds = c :: ds' ∧ (n = 0 → ds = [48]) ∧ (n ≠ 0 → 49 ≤ c ∧ c ≤ 57).

(** A number token in a document is followed by a comma, by a line break,
    or by nothing. *)
Definition delimited (rest : pystr) : Prop :=
  match rest with
  | [] => True
  | c :: _ => c = 44 ∨ c = 10
  end.

(** The text after a lone high surrogate does not start with the escape of
    a low surrogate. *)
Definition no_low_escape (tail : pystr) : Prop :=
  ∀ g1 g2 g3 g4 s4, tail = 92 :: 117 :: g1 :: g2 :: g3 :: g4 :: s4 →
    ∃ uni2, hex4_value g1 g2 g3 g4 = Some uni2 ∧ is_low_surrogate uni2 = false.

(** The characters a JSON value can start with. *)
Definition value_start (c : N) : Prop :=
  is_digit c = true ∨ c ∈ [45; 34; 123; 91; 110; 116; 102; 78; 73].

Definition items_fuel (l : list value) : nat :=
  foldr (λ v acc, S (max (fuel_needed v) acc)) 0%nat l.

Definition pairs_fuel (d : dict) : nat :=
  foldr (λ kv acc, S (max (fuel_needed kv.2) acc)) 0%nat d.

(** The characters that can follow a value inside an array or an object:
    white space, a comma, a closing bracket. *)
Definition ends_token (c : N) : bool := is_ws c || (c =? 44) || (c =? 93) || (c =? 125).

(** A value read from a text ends where nothing appended to the text can
    make it longer: a string, an array or an object ends with its closing
    character; a number or a literal does when such a character follows. *)
Definition closed (v : value) (rest : pystr) : Prop :=
  match v with
  | VStr _ | VList _ | VDict _ => True
  | _ =>
      match rest with
      | c :: _ => ends_token c = true
      | [] => False
      end
  end.

End TextNotions.

Open Scope Z_scope.

(** ** The world outside the script *)

(** [img = Image.open(...)] and [img.convert(mode)]: pixel data stays
    symbolic, the mode is what the script looks at. *)
Inductive image :=
| Decoded (mode : pystr) (data : list N)
| Converted (mode : pystr) (source : image).

Definition mode (img : image) : pystr :=
  match img with
  | Decoded m _ => m
  | Converted m _ => m
  end.

(** What a path of the output area holds: text, the JPEG encoding of an
    image at a quality level, or a zip archive with its members in the order
    they were added. *)
#[local] Unset Elimination Schemes.
Inductive file :=
| FText (text : pystr)
| FJpeg (img : image) (quality : Z)
| FZip (members : list (pystr * file)).
#[local] Set Elimination Schemes.

(** Files by path.  Directories are implicit: the script creates the ones
    it writes into ([os.makedirs]) before it uses them. *)
Abbreviation filesystem := (gmap pystr file).

(** The outcome of [requests.get]: a [RequestException] (connection
    failure, timeout, unusable URL) or a response. *)
Inductive http_result :=
| RequestException
| Response (status_code : Z) (text : pystr) (content : list N).

Record World := {
  (** [http_get n url params]: the answer to the [n]-th request of its kind
      (the [n]-th page of the crawl, the download of the [n]-th new image) *)
  http_get : nat → pystr → option dict → http_result;
  (** [Image.open(io.BytesIO(content))]; [None] when Pillow cannot
      identify the content *)
  image_open : list N → option image;
  (** [datetime.utcnow().strftime('%Y-%m-%d %H:%M:%S UTC')] when the summary
      is written *)
  utcnow_stamp : pystr;
  (** [datetime.utcnow().strftime('%Y%m%d')] when the archive is named *)
  utcnow_date : pystr;
  (** the order in which the pool lets its threads run *)
  schedule : list nat
}.

(** [requests.get(url, ...)]: anything but a [str] is turned into text that
    has no URL scheme, which [requests] refuses with [MissingSchema], a
    [RequestException]. *)
Definition requests_get (w : World) (n : nat) (url : value) (params : option dict)
    : http_result :=
  match url with
  | VStr s => http_get w n s params
  | _ => RequestException
  end.

(** [response.raise_for_status()] raises [HTTPError] for 4xx and 5xx. *)
Definition raises_for_status (status_code : Z) : bool :=
  (400 <=? status_code) && (status_code <? 600).

(** [os.path.join(a, b)] on POSIX *)
Definition os_path_join (a b : pystr) : pystr :=
  if bool_decide (head b = Some 47%N) then b
  else if bool_decide (a = []) || bool_decide (last a = Some 47%N) then a ++ b
  else a ++ 47%N :: b.

(** ** Metadata crawler: [fetch_all_image_metadata] *)

Definition API_BASE_URL : pystr := u "https://civitai.com/api/v1/images".

(** [all_images.extend(items)]: any iterable extends the list; iterating a
    [dict] yields its keys, iterating a [str] its characters. *)
Definition list_extend (all_images : list value) (items : value) : outcome (list value) :=
  match items with
  | VList l => Ret (all_images ++ l)
  | VDict d => Ret (all_images ++ map (λ kv, VStr kv.1) d)
  | VStr s => Ret (all_images ++ map (λ c, VStr [c]) s)
  | _ => Raise TypeError
  end.

Section Crawler.
Context `{PyRuntime} (w : World) (params : dict).

(** The [while next_url:] loop.  [page] counts the requests made so far and
    [fuel] the iterations still allowed; running out of them is [Diverge].
    [response.json()] reports an undecodable body as
    [requests.exceptions.JSONDecodeError], which is a [RequestException] and
    is caught with the others; [AttributeError] and [TypeError] are not. *)
Fixpoint crawl (fuel : nat) (page : nat) (all_images : list value)
    (next_url : value) (is_first_page : bool) : outcome (list value) :=
  if truthy next_url then
    match fuel with
    | O => Diverge
    | S fuel =>
        match requests_get w page next_url (if is_first_page then Some params else None) with
        | RequestException => Ret all_images
        | Response status_code text _ =>
            if raises_for_status status_code then Ret all_images
            else
              match json_loads text with
              | None => Ret all_images
              | Some data =>
                  obind (py_get data (u "items") (VList [])) (λ items,
                  if negb (truthy items) then Ret all_images
                  else
                    obind (list_extend all_images items) (λ all_images,
                    obind (py_get data (u "metadata") (VDict [])) (λ metadata,
                    obind (py_get metadata (u "nextPage") VNone) (λ next_url,
                    crawl fuel (S page) all_images next_url false))))
              end
        end
    end
  else Ret all_images.

Definition fetch_all_image_metadata (fuel : nat) : outcome (list value) :=
  crawl fuel 0 [] (VStr API_BASE_URL) true.

End Crawler.

(** ** Asset pipeline: [download_and_convert_image] and the pool phase *)

(** The modes Pillow's JPEG writer accepts (its [RAWMODE] table); for any
    other mode [img.save(..., 'jpeg')] raises [OSError]. *)
Definition jpeg_modes : list pystr :=
  [u "1"; u "L"; u "RGB"; u "RGBX"; u "CMYK"; u "YCbCr"].

(** [f"{username}_{image_id}.jpeg"] *)
Definition jpeg_name `{PyRuntime} (username image_id : value) : pystr :=
  py_str username ++ u "_" ++ py_str image_id ++ u ".jpeg".

(** The image handed to the encoder: [img.convert('RGB')] when the mode is
    exactly ['RGBA'], the decoded image otherwise. *)
Definition normalise (img : image) : image :=
  if decide (mode img = u "RGBA") then Converted (u "RGB") img else img.

(** The body of the [try]: fetch, decode, convert, save.  [Some (path, f)]
    is the file the worker saves; [None] stands for any exception, all of
    which the [except Exception] clause catches. *)
Definition fetch_convert_save `{PyRuntime} (w : World) (n : nat)
    (image_id image_url username : value) (output_path : pystr) (jpeg_quality : Z)
    : option (pystr * file) :=
  match requests_get w n image_url None with
  | RequestException => None
  | Response status_code _ content =>
      if raises_for_status status_code then None
      else
        match image_open w content with
        | None => None
        | Some img =>
            let img := normalise img in
            let jpeg_filename := jpeg_name username image_id in
            let jpeg_filepath := os_path_join output_path jpeg_filename in
            if decide (mode img ∈ jpeg_modes)
            then Some (jpeg_filepath, FJpeg img jpeg_quality)
            else None
        end
  end.

(** What a worker hands back: [None]; one of its two message strings, both
    non-empty and therefore true in [if result]; or an exception that leaves
    the function and is raised again by [future.result()]. *)
Inductive worker_result :=
| WNone
| WSkipped
| WFailed
| WRaised (e : exn).

(** Where a worker thread stands.  The statement
    [download_progress["count"] += 1] is a read followed by a store. *)
Inductive thread :=
| TStart
| TFetch (image_id image_url username : value)
| TAcquire (ok : bool)
| TRead (ok : bool)
| TWrite (ok : bool) (tmp : Z)
| TRelease (ok : bool)
| TDone (r : worker_result).

(** The state the workers share: [download_progress], [progress_lock], the
    files, and the order in which the futures completed. *)
Record pool := {
  threads : list (value * thread);
  count : Z;
  total : Z;
  lock : bool;
  files : filesystem;
  completed : list nat
}.

Definition set_thread (i : nat) (t : thread) (st : pool) : pool :=
  {| threads := alter (λ it, (it.1, t)) i (threads st);
     count := count st; total := total st; lock := lock st;
     files := files st; completed := completed st |}.

Definition finish (i : nat) (r : worker_result) (st : pool) : pool :=
  {| threads := alter (λ it, (it.1, TDone r)) i (threads st);
     count := count st; total := total st; lock := lock st;
     files := files st; completed := completed st ++ [i] |}.

Section Worker.
Context `{PyRuntime} (w : World) (output_path : pystr) (jpeg_quality : Z).

(** One atomic step of thread [i]; a thread that cannot move (it is done,
    or waits for the lock) leaves the state as it is. *)
Definition step (i : nat) (st : pool) : pool :=
  match threads st !! i with
  | None => st
  | Some (image_info, t) =>
      match t with
      | TStart =>
          match image_info with
          | VDict d =>
              let image_id := default VNone (dict_get (u "id") d) in
              let image_url := default VNone (dict_get (u "url") d) in
              let username := default (VStr (u "unknown")) (dict_get (u "username") d) in
              if negb (truthy image_id) || negb (truthy image_url)
              then finish i WSkipped st
              else set_thread i (TFetch image_id image_url username) st
          | _ => finish i (WRaised AttributeError) st
          end
      | TFetch image_id image_url username =>
          match fetch_convert_save w i image_id image_url username
                  output_path jpeg_quality with
          | Some (jpeg_filepath, f) =>
              set_thread i (TAcquire true)
                {| threads := threads st; count := count st; total := total st;
                   lock := lock st; files := <[jpeg_filepath := f]> (files st);
                   completed := completed st |}
          | None => set_thread i (TAcquire false) st
          end
      | TAcquire ok =>
          if lock st then st
          else
            set_thread i (TRead ok)
              {| threads := threads st; count := count st; total := total st;
                 lock := true; files := files st; completed := completed st |}
      | TRead ok => set_thread i (TWrite ok (count st)) st
      | TWrite ok tmp =>
          set_thread i (TRelease ok)
            {| threads := threads st; count := tmp + 1; total := total st;
               lock := lock st; files := files st; completed := completed st |}
      | TRelease ok =>
          finish i (if ok then WNone else WFailed)
            {| threads := threads st; count := count st; total := total st;
               lock := false; files := files st; completed := completed st |}
      | TDone _ => st
      end
  end.

(** The threads run in the order [sched] lets them. *)
Definition run (sched : list nat) (st : pool) : pool :=
  foldl (λ st i, step i st) st sched.

End Worker.

Definition is_done (t : thread) : bool :=
  match t with
  | TDone _ => true
  | _ => false
  end.

Definition all_done (st : pool) : bool := forallb (λ it, is_done it.2) (threads st).

(** [download_progress["total"] = len(new_images)], the counter reset, and
    one submitted unit per new image. *)
Definition pool_init (new_images : list value) (fs : filesystem) : pool :=
  {| threads := map (λ img, (img, TStart)) new_images;
     count := 0;
     total := Z.of_nat (length new_images);
     lock := false;
     files := fs;
     completed := [] |}.

(** Every thread in turn, once. *)
Definition round (st : pool) : list nat := seq 0 (length (threads st)).

(** The pool phase under the world's schedule.  Leaving the [with] block
    waits for every unit, so after the schedule the threads still running
    are scheduled in turn until they are done. *)
Definition pool_phase `{PyRuntime} (w : World) (output_path : pystr) (jpeg_quality : Z)
    (new_images : list value) (fs : filesystem) : pool :=
  let st := run w output_path jpeg_quality (schedule w) (pool_init new_images fs) in
  run w output_path jpeg_quality
    (concat (replicate (6 * length new_images) (round st))) st.

(** The entries whose unit gets as far as the [try]: [image_id] and
    [image_url] are both present and true. *)
Definition carries_id_and_url (image_info : value) : bool :=
  match image_info with
  | VDict d =>
      truthy (default VNone (dict_get (u "id") d)) &&
      truthy (default VNone (dict_get (u "url") d))
  | _ => false
  end.

(** ** Archiver: [create_zip_archive] *)

(** The members [zf.write] adds, in the order of [files_to_zip]; a name with
    no file in [source_dir] adds nothing. *)
Fixpoint zip_members (fs : filesystem) (source_dir : pystr) (files_to_zip : list pystr)
    : list (pystr * file) :=
  match files_to_zip with
  | [] => []
  | filename :: rest =>
      let filepath := os_path_join source_dir filename in
      match fs !! filepath with
      | Some f => (filename, f) :: zip_members fs source_dir rest
      | None => zip_members fs source_dir rest
      end
  end.

Definition create_zip_archive (source_dir zip_filepath : pystr) (files_to_zip : list pystr)
    (fs : filesystem) : filesystem :=
  <[zip_filepath := FZip (zip_members fs source_dir files_to_zip)]> fs.

(** ** Manifest store: [load_manifest] and [save_manifest] *)

(** [os.path.exists] decides between the first run and a manifest to read;
    [json.load] raises [JSONDecodeError] on text it cannot parse, and a file
    that is not text cannot be decoded at all. *)
Definition load_manifest `{PyRuntime} (manifest_path : pystr) (fs : filesystem)
    : outcome value :=
  match fs !! manifest_path with
  | Some (FText text) =>
      match json_loads text with
      | Some data => Ret data
      | None => Raise JSONDecodeError
      end
  | Some _ => Raise UnicodeDecodeError
  | None => Ret (VDict [])
  end.

(** [open(manifest_path, 'w')] empties the target, then [json.dump] sends
    the text to it front to back.  These are the states of the file system
    on the way: the target holds the first [k] characters of the text. *)
Definition save_manifest_states (manifest_path : pystr) (data : value) (fs : filesystem)
    : list filesystem :=
  map (λ k, <[manifest_path := FText (take k (json_dumps data))]> fs)
      (seq 0 (S (length (json_dumps data)))).

(** The state once the [with] block is left. *)
Definition save_manifest (manifest_path : pystr) (data : value) (fs : filesystem)
    : filesystem :=
  default fs (last (save_manifest_states manifest_path data fs)).

(** ** Report emitter: [generate_reports] *)

(** A [for] loop of [f.write(line(x))]: the text written so far survives an
    exception, since leaving the [with] block closes the file. *)
Fixpoint write_each (line : value → outcome pystr) (items : list value) (text : pystr)
    : pystr * outcome unit :=
  match items with
  | [] => (text, Ret tt)
  | x :: rest =>
      match line x with
      | Ret l => write_each line rest (text ++ l)
      | Raise e => (text, Raise e)
      | Diverge => (text, Diverge)
      end
  end.

Definition summary_name : pystr := u "summary.md".
Definition new_ids_name : pystr := u "new_images_ids.txt".
Definition deleted_ids_name : pystr := u "deleted_images_ids.txt".

Section Reports.
Context `{PyRuntime} (w : World).

Definition new_line (img : value) : outcome pystr :=
  obind (py_index img (u "id")) (λ i,
  obind (py_index img (u "url")) (λ url,
  Ret (u "- ID: " ++ py_str i ++ u ", URL: " ++ py_str url ++ [10%N]))).

Definition deleted_line (img : value) : outcome pystr :=
  obind (py_index img (u "id")) (λ i,
  obind (py_index img (u "username")) (λ name,
  Ret (u "- ID: " ++ py_str i ++ u ", Username: " ++ py_str name ++ [10%N]))).

Definition id_line (img : value) : outcome pystr :=
  obind (py_index img (u "id")) (λ i, Ret (py_str i ++ [10%N])).

Definition len_str (l : list value) : pystr := Z_str (Z.of_nat (length l)).

(** The text of [summary.md], as far as it gets written. *)
Definition summary_text (new_images deleted_images_data : list value)
    : pystr * outcome unit :=
  let text :=
    utf8 "# Civitai 同步报告 - " ++ utcnow_stamp w ++ [10%N; 10%N] ++
    utf8 "- **新增图片**: " ++ len_str new_images ++ utf8 " 张" ++ [10%N] ++
    utf8 "- **删除图片**: " ++ len_str deleted_images_data ++ utf8 " 张" ++ [10%N; 10%N] ++
    utf8 "## 新增图片详情" ++ [10%N] in
  let '(text, r) :=
    match new_images with
    | [] => (text ++ utf8 "无" ++ [10%N], Ret tt)
    | _ => write_each new_line new_images text
    end in
  match r with
  | Ret _ =>
      let text := text ++ [10%N] ++ utf8 "## 删除图片详情" ++ [10%N] in
      match deleted_images_data with
      | [] => (text ++ utf8 "无" ++ [10%N], Ret tt)
      | _ => write_each deleted_line deleted_images_data text
      end
  | _ => (text, r)
  end.

Definition generate_reports (reports_dir : pystr)
    (new_images deleted_images_data : list value) (fs : filesystem)
    : filesystem * outcome unit :=
  let '(text, r) := summary_text new_images deleted_images_data in
  let fs := <[os_path_join reports_dir summary_name := FText text]> fs in
  match r with
  | Ret _ =>
      let '(text, r) := write_each id_line new_images [] in
      let fs := <[os_path_join reports_dir new_ids_name := FText text]> fs in
      match r with
      | Ret _ =>
          let '(text, r) := write_each id_line deleted_images_data [] in
          (<[os_path_join reports_dir deleted_ids_name := FText text]> fs, r)
      | _ => (fs, r)
      end
  | _ => (fs, r)
  end.

End Reports.

(** ** The run: [main] *)

Record Args := {
  output_dir : pystr;
  username : pystr;
  nsfw : pystr;
  sort : pystr;
  threads_arg : Z;
  jpeg_quality : Z
}.

Definition manifest_path_of (args : Args) : pystr :=
  os_path_join (output_dir args)
    (username args ++ u "_" ++ nsfw args ++ u "_" ++ sort args ++ u "_manifest.json").

Definition reports_dir_of (args : Args) : pystr :=
  os_path_join (output_dir args) (u "reports").

Definition temp_download_dir_of (args : Args) : pystr :=
  os_path_join (output_dir args) (u "new_images_temp").

Definition zip_filepath_of (w : World) (args : Args) : pystr :=
  os_path_join (output_dir args)
    (u "civitai_" ++ username args ++ u "_new_" ++ utcnow_date w ++ u ".zip").

Definition api_params_of (args : Args) : dict :=
  [(u "username", VStr (username args));
   (u "limit", VInt 200);
   (u "sort", VStr (sort args));
   (u "period", VStr (u "AllTime"));
   (u "nsfw", VStr (nsfw args))].

(** [name] when [path] is [dir/name] with no further separator in [name]:
    the entries [os.listdir(dir)] returns for files. *)
Definition child_name (dir path : pystr) : option pystr :=
  strip_prefix (dir ++ [47%N]) path.

Definition is_direct_child (dir path : pystr) : bool :=
  match child_name dir path with
  | Some name => negb (bool_decide (name = [])) && negb (bool_decide (47%N ∈ name))
  | None => false
  end.

(** The [os.remove] of every listed file of [dir], then [os.rmdir(dir)],
    which raises [OSError] when something is left below [dir]. *)
Definition remove_dir (dir : pystr) (fs : filesystem) : filesystem * outcome unit :=
  let fs' := filter (λ kv, is_direct_child dir kv.1 = false) fs in
  if bool_decide (map_Forall (λ path _, child_name dir path = None) fs')
  then (fs', Ret tt)
  else (fs', Raise OSError).

Section Main.
Context `{PyRuntime} (w : World).

(** The body of the [for future in as_completed(futures)] loop, for the
    futures in the order they completed. *)
Fixpoint collect (ths : list (value * thread)) (order : list nat)
    (downloaded_filenames : list pystr) : outcome (list pystr) :=
  match order with
  | [] => Ret downloaded_filenames
  | i :: rest =>
      match ths !! i with
      | Some (img_data, TDone r) =>
          let handler :=
            (* except Exception: the message evaluates img_data['id'] *)
            obind (py_index img_data (u "id")) (λ _,
              collect ths rest downloaded_filenames) in
          match r with
          | WRaised _ => handler
          | WSkipped | WFailed => collect ths rest downloaded_filenames
          | WNone =>
              match py_index img_data (u "username") with
              | Ret name =>
                  match py_index img_data (u "id") with
                  | Ret i' =>
                      collect ths rest (downloaded_filenames ++ [jpeg_name name i'])
                  | _ => handler
                  end
              | _ => handler
              end
          end
      | _ => collect ths rest downloaded_filenames
      end
  end.

(** The [if new_images:] branch: the pool phase, the archive, the removal of
    the working area. *)
Definition download_phase (args : Args) (new_images : list value) (fs : filesystem)
    : filesystem * outcome unit :=
  let temp_download_dir := temp_download_dir_of args in
  if threads_arg args <=? 0 then (fs, Raise ValueError)
  else
    let st := pool_phase w temp_download_dir (jpeg_quality args) new_images fs in
    if negb (all_done st) then (files st, Diverge)
    else
      match collect (threads st) (completed st) [] with
      | Ret downloaded_filenames =>
          let fs :=
            match downloaded_filenames with
            | [] => files st
            | _ => create_zip_archive temp_download_dir (zip_filepath_of w args)
                     downloaded_filenames (files st)
            end in
          remove_dir temp_download_dir fs
      | Raise e => (files st, Raise e)
      | Diverge => (files st, Diverge)
      end.

Definition non_empty {A} (l : list A) : bool :=
  match l with
  | [] => false
  | _ => true
  end.

(** The first half of [main], which reads and computes but writes nothing:
    the prior manifest, the crawl, the current map and the diff.
    [old_manifest.keys()] raises [AttributeError] unless the manifest is a
    [dict]. *)
Definition compare_catalogs (fuel : nat) (args : Args) (fs : filesystem)
    : outcome (dict * DiffResult) :=
  obind (load_manifest (manifest_path_of args) fs) (λ old_manifest,
  match old_manifest with
  | VDict old_manifest =>
      obind (fetch_all_image_metadata w (api_params_of args) fuel) (λ current_image_list,
      obind (images_map current_image_list []) (λ current_images_map,
      obind (diff old_manifest current_images_map) (λ d,
      Ret (current_images_map, d))))
  | _ => Raise AttributeError
  end).

(** [if new_images or deleted_images_data: generate_reports(...)] *)
Definition report_step (args : Args) (d : DiffResult) (fs : filesystem)
    : filesystem * outcome unit :=
  if non_empty (new_images d) || non_empty (deleted_images_data d)
  then generate_reports w (reports_dir_of args) (new_images d) (deleted_images_data d) fs
  else (fs, Ret tt).

(** [if new_images: ...] *)
Definition download_step (args : Args) (d : DiffResult) (fs : filesystem)
    : filesystem * outcome unit :=
  if non_empty (new_images d) then download_phase args (new_images d) fs
  else (fs, Ret tt).

(** [main(args)] on the files [fs]; [fuel] bounds the pages of the crawl. *)
Definition main (fuel : nat) (args : Args) (fs : filesystem) : filesystem * outcome unit :=
  match compare_catalogs fuel args fs with
  | Ret (current_images_map, d) =>
      let '(fs, r) := report_step args d fs in
      match r with
      | Ret _ =>
          let '(fs, r) := download_step args d fs in
          match r with
          | Ret _ =>
              (save_manifest (manifest_path_of args) (VDict current_images_map) fs, Ret tt)
          | _ => (fs, r)
          end
      | _ => (fs, r)
      end
  | Raise e => (fs, Raise e)
  | Diverge => (fs, Diverge)
  end.

End Main.

(** ** Notions used to state the properties of the crawl *)

Section CrawlNotions.
Context `{PyRuntime} (w : World) (params : dict).



(** [crawled pages next_url is_first_page]: the loop has fetched
    [length pages] pages, each with items ([pages] lists them page by page),
    and is about to test [next_url]. *)
Inductive crawled : list (list value) → value → bool → Prop :=
| crawled_start : crawled [] (VStr API_BASE_URL) true
| crawled_page pages url first status_code text content data items page_items
      metadata next_url :
    crawled pages url first →
    truthy url = true →
    requests_get w (length pages) url (if first then Some params else None)
      = Response status_code text content →
    raises_for_status status_code = false →
    json_loads text = Some data →
    py_get data (u "items") (VList []) = Ret items →
    truthy items = true →
    list_extend [] items = Ret page_items →
    py_get data (u "metadata") (VDict []) = Ret metadata →
    py_get metadata (u "nextPage") VNone = Ret next_url →
    crawled (pages ++ [page_items]) next_url false.


End CrawlNotions.

(** ** Notions used to state the properties of the pool *)

(** The thread holds [progress_lock]. *)
Definition in_critical (t : thread) : bool :=
  match t with
  | TRead _ | TWrite _ _ | TRelease _ => true
  | _ => false
  end.

(** The thread has stored its increment of the counter. *)
Definition incremented (t : thread) : bool :=
  match t with
  | TRelease _ | TDone WNone | TDone WFailed => true
  | _ => false
  end.

(** The number of threads in a given condition. *)
Definition tally (p : thread → bool) (ths : list (value * thread)) : nat :=
  sum_list (map (λ it, if p it.2 then 1%nat else 0%nat) ths).

(** What a thread's position says about its entry and about the counter. *)
Definition thread_ok (counter : Z) (image_info : value) (t : thread) : Prop :=
  match t with
  | TStart => True
  | TDone WSkipped | TDone (WRaised _) => carries_id_and_url image_info = false
  | TWrite _ tmp => carries_id_and_url image_info = true ∧ tmp = counter
  | _ => carries_id_and_url image_info = true
  end.

(** The invariant of the pool phase. *)
Definition pool_inv (new_images : list value) (st : pool) : Prop :=
  (threads st).*1 = new_images ∧
  count st = Z.of_nat (tally incremented (threads st)) ∧
  tally in_critical (threads st) = (if lock st then 1%nat else 0%nat) ∧
  Forall (λ it, thread_ok (count st) it.1 it.2) (threads st).

(** The steps a thread has still to take. *)
Definition steps_left (t : thread) : nat :=
  match t with
  | TStart => 6
  | TFetch _ _ _ => 5
  | TAcquire _ => 4
  | TRead _ => 3
  | TWrite _ _ => 2
  | TRelease _ => 1
  | TDone _ => 0
  end.

Definition work_left (st : pool) : nat :=
  sum_list (map (λ it, steps_left it.2) (threads st)).

(** The thread cannot move: it is done, or it waits for a lock that is
    held. *)
Definition blocked (st : pool) (t : thread) : bool :=
  match t with
  | TDone _ => true
  | TAcquire _ => lock st
  | _ => false
  end.

(** ** Notions used to state the properties of one unit and of the archive *)

Section UnitNotions.
Context `{PyRuntime} (w : World) (output_path : pystr) (jpeg_quality : Z).

(** [download_and_convert_image(image_info, output_path, jpeg_quality)] run
    on its own as unit number [i]: what it hands back and the file it
    saves. *)
Definition download_and_convert_image (i : nat) (image_info : value)
    : worker_result * option (pystr * file) :=
  match image_info with
  | VDict d =>
      let image_id := default VNone (dict_get (u "id") d) in
      let image_url := default VNone (dict_get (u "url") d) in
      let username := default (VStr (u "unknown")) (dict_get (u "username") d) in
      if negb (truthy image_id) || negb (truthy image_url) then (WSkipped, None)
      else
        match fetch_convert_save w i image_id image_url username
                output_path jpeg_quality with
        | Some saved => (WNone, Some saved)
        | None => (WFailed, None)
        end
  | _ => (WRaised AttributeError, None)
  end.

(** The name the loop over the completed futures appends for unit [i]:
    only for a unit that handed back [None], and only when both
    [img_data['username']] and [img_data['id']] are there. *)
Definition archive_name (i : nat) (img_data : value) : option pystr :=
  match (download_and_convert_image i img_data).1 with
  | WNone =>
      match py_index img_data (u "username"), py_index img_data (u "id") with
      | Ret name, Ret i' => Some (jpeg_name name i')
      | _, _ => None
      end
  | _ => None
  end.

(** What the position of thread [i] says about the outcome of its unit. *)
Definition thread_agrees (i : nat) (image_info : value) (t : thread) : Prop :=
  match t with
  | TStart => True
  | TFetch image_id image_url username =>
      ∃ d, image_info = VDict d ∧
        image_id = default VNone (dict_get (u "id") d) ∧
        image_url = default VNone (dict_get (u "url") d) ∧
        username = default (VStr (u "unknown")) (dict_get (u "username") d) ∧
        negb (truthy image_id) || negb (truthy image_url) = false
  | TAcquire ok | TRead ok | TWrite ok _ | TRelease ok =>
      (download_and_convert_image i image_info).1 = (if ok then WNone else WFailed)
  | TDone r => r = (download_and_convert_image i image_info).1
  end.

End UnitNotions.

(** The thread has left the body of the [try]. *)
Definition past_fetch (t : thread) : bool :=
  match t with
  | TStart | TFetch _ _ _ => false
  | _ => true
  end.

(** What holds of the pool at every moment, besides [pool_inv]: every
    thread stands where the outcome of its unit says, the futures completed
    so far are the threads that are done, and a path holds what the run
    started with unless a unit that left its [try] saved a file there. *)
Definition unit_inv `{PyRuntime} (w : World) (output_path : pystr) (jpeg_quality : Z)
    (new_images : list value) (fs : filesystem) (st : pool) : Prop :=
  (threads st).*1 = new_images ∧
  total st = Z.of_nat (length new_images) ∧
  (∀ i image_info t, threads st !! i = Some (image_info, t) →
     thread_agrees w output_path jpeg_quality i image_info t) ∧
  NoDup (completed st) ∧
  (∀ i, i ∈ completed st ↔ ∃ image_info r, threads st !! i = Some (image_info, TDone r)) ∧
  (∀ path,
     (files st !! path = fs !! path ∧
      ∀ j image_info t f, threads st !! j = Some (image_info, t) → past_fetch t = true →
        (download_and_convert_image w output_path jpeg_quality j image_info).2
          ≠ Some (path, f)) ∨
     (∃ j image_info t f, threads st !! j = Some (image_info, t) ∧ past_fetch t = true ∧
        (download_and_convert_image w output_path jpeg_quality j image_info).2
          = Some (path, f) ∧
        files st !! path = Some f)).

(** What one step of thread [i] does when it takes the thread from [t] to
    [t']. *)
Definition step_effect `{PyRuntime} (w : World) (output_path : pystr) (jpeg_quality : Z)
    (i : nat) (image_info : value) (t t' : thread) (st st' : pool) : Prop :=
  match t, t' with
  | TStart, TDone r =>
      r = (download_and_convert_image w output_path jpeg_quality i image_info).1 ∧
      (download_and_convert_image w output_path jpeg_quality i image_info).2 = None ∧
      files st' = files st ∧ completed st' = completed st ++ [i]
  | TStart, TFetch _ _ _ =>
      thread_agrees w output_path jpeg_quality i image_info t' ∧
      files st' = files st ∧ completed st' = completed st
  | TFetch _ _ _, TAcquire _ =>
      (thread_agrees w output_path jpeg_quality i image_info t →
       thread_agrees w output_path jpeg_quality i image_info t' ∧
       files st' =
         match (download_and_convert_image w output_path jpeg_quality i image_info).2 with
         | Some (path, f) => <[path := f]> (files st)
         | None => files st
         end) ∧
      completed st' = completed st
  | TAcquire ok, TRead ok' | TRead ok, TWrite ok' _ | TWrite ok _, TRelease ok' =>
      ok' = ok ∧ files st' = files st ∧ completed st' = completed st
  | TRelease ok, TDone r =>
      r = (if ok then WNone else WFailed) ∧
      files st' = files st ∧ completed st' = completed st ++ [i]
  | _, _ => False
  end.

(** ** Sample data *)

(** A runtime for examples: the float literals used are their own [repr],
    and [repr] of a string puts it in single quotes. *)
Definition sample_runtime : PyRuntime :=
  {| float_canon := λ lit, lit; str_repr := λ s, 39%N :: s ++ [39%N] |}.


(** The [n]-th cursor of a listing. *)
Definition cursor (n : nat) : pystr :=
  API_BASE_URL ++ u "?cursor=" ++ N_str (N.of_nat n).

(** A page with [k] items, numbered from [first_id], and the next cursor. *)
Definition page_items_of (first_id k : nat) : list value :=
  map (λ i, VDict [(u "id", VInt (Z.of_nat i));
                   (u "url", VStr (u "https://image.civitai.com/" ++ N_str (N.of_nat i)));
                   (u "username", VStr (u "alice"))])
      (seq first_id k).

Definition page_body (first_id k : nat) (next : value) : pystr :=
  json_dumps (VDict [(u "items", VList (page_items_of first_id k));
                     (u "metadata", VDict [(u "nextPage", next)])]).

Definition no_image : list N → option image := λ _, None.

(** A server whose every page has one item and a fresh cursor. *)
Definition endless_world : World :=
  {| http_get := λ n _ _, Response 200 (page_body n 1 (VStr (cursor (S n)))) [];
     image_open := no_image;
     utcnow_stamp := u "2024-01-01 00:00:00 UTC";
     utcnow_date := u "20240101";
     schedule := [] |}.


Definition sample_args : Args :=
  {| output_dir := u "output"; username := u "alice"; nsfw := u "X"; sort := u "Newest";
     threads_arg := 16; jpeg_quality := 85 |}.



(** A manifest of one entry on disk, and the catalog of the next run. *)
Definition one_entry_catalog : dict :=
  [(u "1", VDict [(u "id", VInt 1); (u "url", VStr (u "https://image.civitai.com/1"));
                  (u "username", VStr (u "alice"))])].

Definition two_entry_catalog : dict :=
  one_entry_catalog ++
  [(u "2", VDict [(u "id", VInt 2); (u "url", VStr (u "https://image.civitai.com/2"));
                  (u "username", VStr (u "alice"))])].

Definition one_entry_files : filesystem :=
  {[ manifest_path_of sample_args := FText (json_dumps (VDict one_entry_catalog)) ]}.

(** A manifest cut short. *)
Definition truncated_files : filesystem :=
  {[ manifest_path_of sample_args := FText (u "{") ]}.

(** A server with one page of two images: the download of the first fails,
    the second has no owner handle and downloads as an RGB image. *)
Definition image_a : value :=
  VDict [(u "id", VInt 1); (u "url", VStr (u "https://image.civitai.com/1"));
         (u "username", VStr (u "alice"))].

Definition image_b : value :=
  VDict [(u "id", VInt 2); (u "url", VStr (u "https://image.civitai.com/2"))].

Definition two_images_world : World :=
  {| http_get := λ _ url _,
       if decide (url = API_BASE_URL)
       then Response 200
              (json_dumps (VDict [(u "items", VList [image_a; image_b]);
                                  (u "metadata", VDict [])])) []
       else if decide (url = u "https://image.civitai.com/2")
       then Response 200 [] [66%N]
       else RequestException;
     image_open := λ content, Some (Decoded (u "RGB") content);
     utcnow_stamp := u "2024-01-01 00:00:00 UTC";
     utcnow_date := u "20240101";
     schedule := [] |}.



(** An entry filed under the same identifier text as [image_a]: its [id] is
    the string ['1']. *)
Definition image_a_again : value :=
  VDict [(u "id", VStr (u "1")); (u "url", VStr (u "https://image.civitai.com/1b"));
         (u "username", VStr (u "alice"))].

(** An entry without [id], and one without [url]. *)
Definition image_no_id : value :=
  VDict [(u "url", VStr (u "https://image.civitai.com/3")); (u "username", VStr (u "alice"))].

Definition image_no_url : value :=
  VDict [(u "id", VInt 3); (u "username", VStr (u "alice"))].

(** A server that answers every request with the given body. *)
Definition constant_world (body : pystr) : World :=
  {| http_get := λ _ _ _, Response 200 body [];
     image_open := no_image;
     utcnow_stamp := u "2024-01-01 00:00:00 UTC";
     utcnow_date := u "20240101";
     schedule := [] |}.

(** A listing of one page with the given items. *)
Definition one_page (items : list value) : pystr :=
  json_dumps (VDict [(u "items", VList items); (u "metadata", VDict [])]).


(** An entry with an owner handle whose download succeeds on
    [two_images_world]. *)
Definition image_c : value :=
  VDict [(u "id", VInt 2); (u "url", VStr (u "https://image.civitai.com/2"));
         (u "username", VStr (u "alice"))].

(** A server with one page of two images of the same creator; the download
    of the second succeeds. *)
Definition alice_world : World :=
  {| http_get := λ _ url _,
       if decide (url = API_BASE_URL) then Response 200 (one_page [image_a; image_c]) []
       else if decide (url = u "https://image.civitai.com/2")
       then Response 200 [] [66%N]
       else RequestException;
     image_open := λ content, Some (Decoded (u "RGB") content);
     utcnow_stamp := u "2024-01-01 00:00:00 UTC";
     utcnow_date := u "20240101";
     schedule := [] |}.

(** * Properties *)

(** *** Facts about dictionaries and the diff *)

Lemma dict_get_Some_key k d v : dict_get k d = Some v → k ∈ d.*1.
Proof.
  induction d as [|[k' v'] d IH]; simpl; [done|].
  case_decide; subst; intros ?; [left | right; auto].
Qed.

Lemma dict_get_is_Some k d : k ∈ d.*1 ↔ is_Some (dict_get k d).
Proof.
  split.
  - induction d as [|[k' v'] d IH]; simpl; [by intros ?%elem_of_nil|].
    intros [->|Hin]%elem_of_cons; case_decide; eauto; done.
  - intros [v Hv]. by eapply dict_get_Some_key.
Qed.

Lemma elem_of_key_set k d : k ∈ key_set d ↔ is_Some (dict_get k d).
Proof. unfold key_set. rewrite elem_of_list_to_set. apply dict_get_is_Some. Qed.

Lemma comprehension_dict_index d ks :
  Forall (λ k, is_Some (dict_get k d)) ks →
  ∃ vs, comprehension (dict_index d) ks = Ret vs ∧
        Forall2 (λ k v, dict_get k d = Some v) ks vs.
Proof.
  induction 1 as [|k ks [v Hv] _ (vs & Hvs & IH)]; simpl.
  - eexists; split; [done | constructor].
  - unfold dict_index at 1. rewrite Hv. simpl. rewrite Hvs. simpl.
    eexists; split; [done|]. by constructor.
Qed.

Lemma diff_returns P C :
  ∃ r, diff P C = Ret r ∧
    new_image_ids r = key_set C ∖ key_set P ∧
    deleted_image_ids r = key_set P ∖ key_set C ∧
    Forall2 (λ k v, dict_get k C = Some v) (elements (new_image_ids r)) (new_images r) ∧
    Forall2 (λ k v, dict_get k P = Some v) (elements (deleted_image_ids r))
      (deleted_images_data r).
Proof.
  unfold diff.
  destruct (comprehension_dict_index C (elements (key_set C ∖ key_set P)))
    as (added & -> & Hadded).
  { apply Forall_forall. intros k Hk. apply elem_of_elements in Hk.
    apply elem_of_key_set. set_solver. }
  destruct (comprehension_dict_index P (elements (key_set P ∖ key_set C)))
    as (removed & -> & Hremoved).
  { apply Forall_forall. intros k Hk. apply elem_of_elements in Hk.
    apply elem_of_key_set. set_solver. }
  simpl. eexists; split; [done|]. simpl. done.
Qed.

Lemma Forall2_lookup_elem_of (d : dict) ks vs e :
  Forall2 (λ k v, dict_get k d = Some v) ks vs →
  e ∈ vs ↔ ∃ k, k ∈ ks ∧ dict_get k d = Some e.
Proof.
  induction 1 as [|k v ks vs Hkv _ IH].
  - split; [by intros ?%elem_of_nil | by intros (k & ?%elem_of_nil & _)].
  - rewrite elem_of_cons, IH. split.
    + intros [->|(k' & ? & ?)]; [exists k | exists k']; split; auto; by constructor.
    + intros (k' & [->|?]%elem_of_cons & Hk'); [left; congruence | right; eauto].
Qed.

Section DiffFacts.
Context `{PyRuntime}.

Lemma catalog_ok_key (d : dict) k k' e :
  catalog_ok d → dict_get k d = Some e → dict_get k' d = Some e → k = k'.
Proof.
  intros Hok Hk Hk'.
  destruct (Hok _ _ Hk) as (i & Hi & <-).
  destruct (Hok _ _ Hk') as (i' & Hi' & <-).
  congruence.
Qed.

Lemma catalog_ok_cross (P C : dict) k k' e :
  catalog_ok P → catalog_ok C →
  dict_get k P = Some e → dict_get k' C = Some e → k = k'.
Proof.
  intros HP HC Hk Hk'.
  destruct (HP _ _ Hk) as (i & Hi & <-).
  destruct (HC _ _ Hk') as (i' & Hi' & <-).
  congruence.
Qed.

(** C1: the diff of a prior catalog [P] and a current catalog [C] always
    returns; its added entries are exactly the entries of [C] filed under an
    identifier absent from [P], its removed entries exactly those of [P]
    filed under an identifier absent from [C]; the two identifier sets are
    disjoint (and so are the entry lists of catalogs that file entries under
    their own identifier); an identifier present in both catalogs is neither
    added nor removed, whatever the two payloads are; and the diff of a
    catalog with itself is empty on both sides. *)
Theorem diff_added_removed (P C : dict) :
  ∃ r, diff P C = Ret r ∧
    (∀ id, id ∈ new_image_ids r ↔ id ∈ key_set C ∧ id ∉ key_set P) ∧
    (∀ id, id ∈ deleted_image_ids r ↔ id ∈ key_set P ∧ id ∉ key_set C) ∧
    (∀ e, e ∈ new_images r ↔
       ∃ id, id ∈ key_set C ∧ (id ∉ key_set P) ∧ dict_get id C = Some e) ∧
    (∀ e, e ∈ deleted_images_data r ↔
       ∃ id, id ∈ key_set P ∧ (id ∉ key_set C) ∧ dict_get id P = Some e) ∧
    length (new_images r) = size (new_image_ids r) ∧
    length (deleted_images_data r) = size (deleted_image_ids r) ∧
    new_image_ids r ## deleted_image_ids r ∧
    (catalog_ok P → catalog_ok C →
       ∀ e, e ∈ new_images r → e ∉ deleted_images_data r) ∧
    (∀ id p c, dict_get id P = Some p → dict_get id C = Some c →
       (id ∉ new_image_ids r) ∧ (id ∉ deleted_image_ids r) ∧
       (catalog_ok C → c ∉ new_images r) ∧
       (catalog_ok P → p ∉ deleted_images_data r)) ∧
    ∃ r0, diff P P = Ret r0 ∧
      new_image_ids r0 = ∅ ∧ deleted_image_ids r0 = ∅ ∧
      new_images r0 = [] ∧ deleted_images_data r0 = [].
Proof.
  destruct (diff_returns P C) as (r & Hr & Hnew & Hdel & Hadded & Hremoved).
  assert (Hin_new : ∀ e, e ∈ new_images r ↔
    ∃ id, id ∈ key_set C ∧ (id ∉ key_set P) ∧ dict_get id C = Some e).
  { intros e. rewrite (Forall2_lookup_elem_of _ _ _ _ Hadded). rewrite Hnew.
    split.
    - intros (k & Hk & Hget). exists k. apply elem_of_elements in Hk. set_solver.
    - intros (k & ? & ? & Hget). exists k.
      split; [apply elem_of_elements; set_solver | done]. }
  assert (Hin_del : ∀ e, e ∈ deleted_images_data r ↔
    ∃ id, id ∈ key_set P ∧ (id ∉ key_set C) ∧ dict_get id P = Some e).
  { intros e. rewrite (Forall2_lookup_elem_of _ _ _ _ Hremoved). rewrite Hdel.
    split.
    - intros (k & Hk & Hget). exists k. apply elem_of_elements in Hk. set_solver.
    - intros (k & ? & ? & Hget). exists k.
      split; [apply elem_of_elements; set_solver | done]. }
  exists r. split; [done|].
  split; [intros id; rewrite Hnew; set_solver|].
  split; [intros id; rewrite Hdel; set_solver|].
  split; [done|]. split; [done|].
  split; [by rewrite <- (Forall2_length _ _ _ Hadded)|].
  split; [by rewrite <- (Forall2_length _ _ _ Hremoved)|].
  split; [rewrite Hnew, Hdel; set_solver|].
  split.
  { intros HP HC e (k & HkC & HkP & Hk)%Hin_new (k' & Hk'P & Hk'C & Hk')%Hin_del.
    assert (k' = k) as -> by eauto using catalog_ok_cross. done. }
  split.
  { intros id p c Hp Hc.
    assert (id ∈ key_set P) by (apply elem_of_key_set; eauto).
    assert (id ∈ key_set C) by (apply elem_of_key_set; eauto).
    split; [rewrite Hnew; set_solver|]. split; [rewrite Hdel; set_solver|].
    split.
    - intros HC (k & _ & HkP & Hk)%Hin_new.
      assert (k = id) as -> by eauto using catalog_ok_key. done.
    - intros HP (k & _ & HkC & Hk)%Hin_del.
      assert (k = id) as -> by eauto using catalog_ok_key. done. }
  destruct (diff_returns P P) as (r0 & Hr0 & Hnew0 & Hdel0 & Hadded0 & Hremoved0).
  exists r0. split; [done|].
  assert (new_image_ids r0 = ∅) as Hn by (rewrite Hnew0; set_solver).
  assert (deleted_image_ids r0 = ∅) as Hd by (rewrite Hdel0; set_solver).
  rewrite Hn, Hd in *. rewrite elements_empty in *.
  apply Forall2_nil_inv_l in Hadded0, Hremoved0. done.
Qed.

End DiffFacts.

(** ** The JSON text format: reading back what was written *)

Ltac Zify.zify_post_hook ::= Z.to_euclidean_division_equations.

Section CodecFacts.
Open Scope N_scope.

(** *** Decimal digits *)

Lemma digits_value_snoc ds c : digits_value (ds ++ [c]) = digits_value ds * 10 + (c - 48).
Proof. unfold digits_value. by rewrite foldl_app. Qed.

Lemma is_digit_digit_char d : d < 10 → is_digit (digit_char d) = true.
Proof.
  intros ?. unfold is_digit, digit_char.
  apply andb_true_iff; split; apply N.leb_le; lia.
Qed.


Lemma pos_digits_S fuel n acc :
  pos_digits (S fuel) n acc =
  if n / 10 =? 0 then digit_char (n mod 10) :: acc
  else pos_digits fuel (n / 10) (digit_char (n mod 10) :: acc).
Proof. done. Qed.

Lemma pos_digits_spec fuel n acc :
  n < 2 ^ N.of_nat (S fuel) →
  ∃ ds, pos_digits (S fuel) n acc = ds ++ acc ∧ decimal_of n ds.
Proof.
  revert n acc. induction fuel as [|fuel IH]; intros n acc Hn.
  - change (2 ^ N.of_nat 1) with 2 in Hn. simpl.
    assert (n / 10 = 0) as -> by lia. simpl.
    exists [digit_char (n mod 10)]. split; [done|].
    split; [repeat constructor; apply is_digit_digit_char; lia|].
    split; [unfold digits_value, digit_char; simpl; lia|].
    eexists _, _; split; [done|]. unfold digit_char.
    split; intros; [by subst | lia].
  - rewrite pos_digits_S. destruct (N.eqb_spec (n / 10) 0) as [Hz|Hnz].
    + exists [digit_char (n mod 10)]. split; [done|].
      split; [repeat constructor; apply is_digit_digit_char; lia|].
      split; [unfold digits_value, digit_char; simpl; lia|].
      eexists _, _; split; [done|]. unfold digit_char.
      split; intros; [by subst | lia].
    + destruct (IH (n / 10) (digit_char (n mod 10) :: acc)) as (ds & Heq & Hds & Hval & c & ds' & -> & _ & Hc).
      { rewrite Nat2N.inj_succ, N.pow_succ_r' in Hn. lia. }
      exists ((c :: ds') ++ [digit_char (n mod 10)]). split.
      { rewrite Heq. by rewrite <- app_assoc. }
      split; [apply Forall_app; split; [done|]; repeat constructor;
              apply is_digit_digit_char; lia|].
      split; [rewrite digits_value_snoc, Hval; unfold digit_char; lia|].
      eexists _, _; split; [done|]. split; [lia|]. intros _. by apply Hc.
Qed.

Lemma N_str_spec n : decimal_of n (N_str n).
Proof.
  unfold N_str.
  destruct (pos_digits_spec (N.to_nat (N.log2 n)) n []) as (ds & Heq & Hds).
  - rewrite Nat2N.inj_succ, N2Nat.id.
    destruct (decide (n = 0)) as [->|]; [done|].
    apply N.log2_spec. lia.
  - rewrite Heq, app_nil_r. done.
Qed.

Lemma span_digits_app ds rest :
  Forall (λ c, is_digit c = true) ds →
  match rest with [] => True | c :: _ => is_digit c = false end →
  span_digits (ds ++ rest) = (ds, rest).
Proof.
  intros Hds Hrest. induction Hds as [|c ds Hc _ IH]; simpl.
  - destruct rest as [|c rest]; [done|]. simpl. by rewrite Hrest.
  - by rewrite Hc, IH.
Qed.


Lemma delimited_not_digit rest :
  delimited rest → match rest with [] => True | c :: _ => is_digit c = false end.
Proof. destruct rest as [|c rest]; [done|]. by intros [-> | ->]. Qed.

Lemma number_frac_delimited rest : delimited rest → number_frac rest = ([], rest).
Proof.
  destruct rest as [|c [|d rest]]; try done; intros [-> | ->]; done.
Qed.

Lemma number_exp_delimited rest : delimited rest → number_exp rest = ([], rest).
Proof. destruct rest as [|c rest]; [done|]. by intros [-> | ->]. Qed.

Lemma match_number_N_str n rest :
  delimited rest → match_number (N_str n ++ rest) = Some (N_str n, [], [], rest).
Proof.
  intros Hrest. destruct (N_str_spec n) as (Hds & _ & c & ds & Heq & Hz & Hnz).
  rewrite Heq in *. apply Forall_cons in Hds as [Hc Hds].
  unfold match_number, number_sign. simpl.
  assert ((c =? 45) = false) as ->.
  { apply N.eqb_neq. intros ->. done. }
  unfold number_int.
  destruct (N.eqb_spec c 48) as [->|Hc48].
  - destruct (decide (n = 0)) as [->|Hn]; [|specialize (Hnz Hn); lia].
    specialize (Hz eq_refl). injection Hz as ->. simpl.
    by rewrite number_frac_delimited, number_exp_delimited.
  - assert (((49 <=? c) && (c <=? 57)) = true) as ->.
    { unfold is_digit in Hc. apply andb_true_iff in Hc as [?%N.leb_le ?%N.leb_le].
      apply andb_true_iff; split; apply N.leb_le; lia. }
    rewrite (span_digits_app ds rest Hds (delimited_not_digit _ Hrest)).
    by rewrite number_frac_delimited, number_exp_delimited.
Qed.

Lemma N_str_not_minus n : ∃ c ds, N_str n = c :: ds ∧ (c ≠ 45) ∧ is_digit c = true.
Proof.
  destruct (N_str_spec n) as (Hds & _ & c & ds & Heq & _).
  rewrite Heq in Hds. apply Forall_cons in Hds as [Hc _].
  exists c, ds. split; [done|]. split; [by intros ->|done].
Qed.

Lemma match_number_minus s i f e rest :
  number_sign s = ([], s) →
  match_number s = Some (i, f, e, rest) →
  match_number (45 :: s) = Some (45 :: i, f, e, rest).
Proof.
  unfold match_number. intros ->. change (number_sign (45 :: s)) with ([45], s).
  lazy beta iota zeta.
  destruct (number_int s) as [[ds s2]|]; [|done].
  destruct (number_frac s2), (number_exp _). intros. by simplify_eq.
Qed.

Lemma match_number_Z_str n rest :
  delimited rest → match_number (Z_str n ++ rest) = Some (Z_str n, [], [], rest).
Proof.
  intros Hrest. unfold Z_str. destruct (Z.ltb_spec n 0).
  - apply (match_number_minus (N_str _ ++ rest)); [|by apply match_number_N_str].
    destruct (N_str_not_minus (Z.to_N (- n))) as (c & ds & -> & Hc & _).
    apply N.eqb_neq in Hc. simpl. by rewrite Hc.
  - by apply match_number_N_str.
Qed.

Lemma int_of_token_Z_str n : int_of_token (Z_str n) = n.
Proof.
  unfold Z_str, int_of_token. destruct (Z.ltb_spec n 0).
  - simpl. destruct (N_str_spec (Z.to_N (- n))) as (_ & -> & _). lia.
  - destruct (N_str_not_minus (Z.to_N n)) as (c & ds & Heq & Hc & _).
    destruct (N_str_spec (Z.to_N n)) as (_ & Hv & _).
    rewrite Heq in *. apply N.eqb_neq in Hc. rewrite Hc, Hv. lia.
Qed.


(** *** Number tokens in front of a delimiter *)

Lemma span_digits_delimited rest : delimited rest → span_digits rest = ([], rest).
Proof. destruct rest as [|c rest]; [done|]. by intros [-> | ->]. Qed.

Lemma span_digits_app_rest s ds r rest :
  span_digits s = (ds, r) → delimited rest → span_digits (s ++ rest) = (ds, r ++ rest).
Proof.
  intros Hs Hrest. revert ds r Hs. induction s as [|c s IH]; intros ds r Hs; simpl in *.
  - simplify_eq. by apply span_digits_delimited.
  - destruct (is_digit c); [|by simplify_eq].
    destruct (span_digits s) as [ds' r']. simplify_eq. by rewrite (IH ds' r).
Qed.

Lemma number_sign_app s sg s0 rest :
  number_sign s = (sg, s0) → delimited rest → number_sign (s ++ rest) = (sg, s0 ++ rest).
Proof.
  destruct s as [|c s]; simpl.
  - intros ? Hrest. simplify_eq. destruct rest as [|c rest]; [done|].
    by destruct Hrest as [-> | ->].
  - destruct (c =? 45); intros; by simplify_eq.
Qed.

Lemma number_int_app s ds s2 rest :
  number_int s = Some (ds, s2) → delimited rest →
  number_int (s ++ rest) = Some (ds, s2 ++ rest).
Proof.
  destruct s as [|c s]; [done|]. simpl.
  destruct (c =? 48); [intros; by simplify_eq|].
  destruct ((49 <=? c) && (c <=? 57)); [|done].
  destruct (span_digits s) as [ds' r] eqn:Hs. intros ? Hrest. simplify_eq.
  by rewrite (span_digits_app_rest _ _ _ _ Hs Hrest).
Qed.

Lemma number_frac_app s f s3 rest :
  number_frac s = (f, s3) → delimited rest → number_frac (s ++ rest) = (f, s3 ++ rest).
Proof.
  intros Hs Hrest. destruct s as [|c [|d s]]; simpl in *.
  - simplify_eq. by apply number_frac_delimited.
  - simplify_eq. destruct rest as [|d rest]; [done|]. simpl.
    destruct Hrest as [-> | ->]; by rewrite andb_false_r.
  - destruct ((c =? 46) && is_digit d); [|by simplify_eq].
    destruct (span_digits s) as [fs r] eqn:Hfs. simplify_eq.
    by rewrite (span_digits_app_rest _ _ _ _ Hfs Hrest).
Qed.

Lemma number_exp_app s e s4 rest :
  number_exp s = (e, s4) → delimited rest → number_exp (s ++ rest) = (e, s4 ++ rest).
Proof.
  intros Hs Hrest. destruct s as [|c s]; cbn -[span_digits] in *.
  - simplify_eq. by apply number_exp_delimited.
  - destruct ((c =? 101) || (c =? 69)); [|by simplify_eq].
    destruct s as [|sg t]; cbn -[span_digits] in *.
    + simpl in Hs. simplify_eq. destruct rest as [|d rest]; [done|].
      destruct Hrest as [-> | ->]; reflexivity.
    + destruct ((sg =? 45) || (sg =? 43)).
      * destruct (span_digits t) as [es r] eqn:Ht.
        rewrite (span_digits_app_rest _ _ _ _ Ht Hrest).
        destruct es; by simplify_eq.
      * destruct (span_digits (sg :: t)) as [es r] eqn:Ht.
        change (sg :: t ++ rest) with ((sg :: t) ++ rest).
        rewrite (span_digits_app_rest (sg :: t) _ _ _ Ht Hrest).
        destruct es; by simplify_eq.
Qed.

Lemma match_number_app s i f e r rest :
  match_number s = Some (i, f, e, r) → delimited rest →
  match_number (s ++ rest) = Some (i, f, e, r ++ rest).
Proof.
  unfold match_number. intros Hs Hrest.
  destruct (number_sign s) as [sg s0] eqn:Hsg.
  rewrite (number_sign_app _ _ _ _ Hsg Hrest).
  destruct (number_int s0) as [[ds s2]|] eqn:Hint; [|done].
  rewrite (number_int_app _ _ _ _ Hint Hrest).
  destruct (number_frac s2) as [f' s3] eqn:Hf.
  rewrite (number_frac_app _ _ _ _ Hf Hrest).
  destruct (number_exp s3) as [e' s4] eqn:He.
  rewrite (number_exp_app _ _ _ _ He Hrest). by simplify_eq.
Qed.

(** A number token starts with a minus sign or a digit. *)
Lemma match_number_head s i f e r :
  match_number s = Some (i, f, e, r) →
  ∃ c s', s = c :: s' ∧ (c = 45 ∨ is_digit c = true) ∧
          (c = 45 → ∃ d s'', s' = d :: s'' ∧ is_digit d = true).
Proof.
  unfold match_number, number_sign, number_int.
  assert (Hdig : ∀ c, (c =? 48) = true ∨ ((49 <=? c) && (c <=? 57)) = true →
                      is_digit c = true).
  { intros c [->%N.eqb_eq|[?%N.leb_le ?%N.leb_le]%andb_true_iff]; [done|].
    apply andb_true_iff; split; apply N.leb_le; lia. }
  destruct s as [|c s]; [done|]. destruct (N.eqb_spec c 45) as [->|Hc].
  - destruct s as [|d s]; [done|]. intros Hm. eexists _, _; split; [done|].
    split; [by left|]. intros _. eexists _, _; split; [done|].
    destruct (d =? 48) eqn:?; [by apply Hdig; left|].
    destruct ((49 <=? d) && (d <=? 57)) eqn:?; [by apply Hdig; right|done].
  - intros Hm. eexists _, _; split; [done|]. split; [|done]. right.
    destruct (c =? 48) eqn:?; [by apply Hdig; left|].
    destruct ((49 <=? c) && (c <=? 57)) eqn:?; [by apply Hdig; right|done].
Qed.

(** *** Strings *)

Lemma scanstring_quote s : scanstring (34 :: s) = Some ([], s).
Proof. done. Qed.

Lemma scanstring_plain c s :
  c ≠ 34 → c ≠ 92 → 31 < c → scanstring (c :: s) = cons_char c (scanstring s).
Proof.
  intros H1%N.eqb_neq H2%N.eqb_neq H3%N.leb_gt. simpl. by rewrite H1, H2, H3.
Qed.

Lemma scanstring_short e c s :
  unescape e = Some c → scanstring (92 :: e :: s) = cons_char c (scanstring s).
Proof.
  intros He. cbn [scanstring]. change (92 =? 34) with false. change (92 =? 92) with true.
  cbv iota. destruct (N.eqb_spec e 117) as [->|_]; [done|]. by rewrite He.
Qed.

Lemma scanstring_u h1 h2 h3 h4 uni s :
  hex4_value h1 h2 h3 h4 = Some uni → is_high_surrogate uni = false →
  scanstring (92 :: 117 :: h1 :: h2 :: h3 :: h4 :: s) = cons_char uni (scanstring s).
Proof.
  intros Hhex Hhi. cbn [scanstring]. change (92 =? 34) with false.
  change (92 =? 92) with true. change (117 =? 117) with true. cbv iota.
  by rewrite Hhex, Hhi.
Qed.


Lemma scanstring_u_high h1 h2 h3 h4 uni s :
  hex4_value h1 h2 h3 h4 = Some uni → no_low_escape s →
  scanstring (92 :: 117 :: h1 :: h2 :: h3 :: h4 :: s) = cons_char uni (scanstring s).
Proof.
  intros Hhex Hs. cbn [scanstring]. change (92 =? 34) with false.
  change (92 =? 92) with true. change (117 =? 117) with true. cbv iota.
  rewrite Hhex. destruct (is_high_surrogate uni); [|done].
  destruct s as [|b [|e2 [|g1 [|g2 [|g3 [|g4 s4]]]]]]; try done.
  destruct (N.eqb_spec b 92) as [->|]; [|done].
  destruct (N.eqb_spec e2 117) as [->|]; [|done].
  destruct (Hs _ _ _ _ _ eq_refl) as (uni2 & Hhex2 & Hlo).
  cbn [andb]. by rewrite Hhex2, Hlo.
Qed.

Lemma scanstring_u_pair h1 h2 h3 h4 g1 g2 g3 g4 hi lo s :
  hex4_value h1 h2 h3 h4 = Some hi → hex4_value g1 g2 g3 g4 = Some lo →
  is_high_surrogate hi = true → is_low_surrogate lo = true →
  scanstring (92 :: 117 :: h1 :: h2 :: h3 :: h4 :: 92 :: 117 :: g1 :: g2 :: g3 :: g4 :: s)
  = cons_char (join_surrogates hi lo) (scanstring s).
Proof.
  intros Hhex Hhex2 Hhi Hlo. cbn [scanstring]. change (92 =? 34) with false.
  change (92 =? 92) with true. change (117 =? 117) with true. cbv iota.
  rewrite Hhex, Hhi. cbn [andb]. by rewrite Hhex2, Hlo.
Qed.


(** The two halves [encode_basestring_ascii] writes for a character above
    the basic plane, and the character [scanstring] joins them into. *)
Lemma surrogates_of c :
  65536 ≤ c → c < 1114112 →
  let hi := N.lor 55296 (N.land (N.shiftr (c - 65536) 10) 1023) in
  let lo := N.lor 56320 (N.land (c - 65536) 1023) in
  hi < 65536 ∧ lo < 65536 ∧ is_high_surrogate hi = true ∧
  is_low_surrogate lo = true ∧ join_surrogates hi lo = c.
Proof.
  intros Hlo Hhi. set (v := c - 65536).
  assert (Hv : v < 1048576) by lia.
  assert (Hsmall : ∀ a, a < 1024 →
    N.lor 55296 a = 55296 + a ∧ N.lor 56320 a = 56320 + a ∧
    N.land (55296 + a) 1023 = a ∧ N.land (56320 + a) 1023 = a).
  { intros a Ha.
    assert (Hland : ∀ k, N.land (N.shiftl k 10) a = 0).
    { intros k. apply N.bits_inj_0. intros n. rewrite N.land_spec.
      destruct (N.lt_ge_cases n 10) as [Hn|Hn].
      - by rewrite N.shiftl_spec_low.
      - rewrite (N.bits_above_log2 a n), andb_false_r; [done|].
        destruct (decide (a = 0)) as [->|]; [simpl; lia|].
        assert (N.log2 a < 10); [|lia]. apply N.log2_lt_pow2; lia. }
    assert (Hadd : ∀ k, N.lor (N.shiftl k 10) a = N.shiftl k 10 + a).
    { intros k. by rewrite <- N.lxor_lor, <- N.add_nocarry_lxor. }
    assert (Hmod : ∀ k, N.land (N.shiftl k 10 + a) 1023 = a).
    { intros k. change 1023 with (N.ones 10). rewrite N.land_ones, N.shiftl_mul_pow2.
      change (2 ^ 10) with 1024. lia. }
    change 55296 with (N.shiftl 54 10). change 56320 with (N.shiftl 55 10).
    by rewrite !Hadd, !Hmod. }
  assert (Ha : N.land (N.shiftr v 10) 1023 = N.shiftr v 10 ∧ N.shiftr v 10 < 1024).
  { change 1023 with (N.ones 10). rewrite N.land_ones, N.shiftr_div_pow2.
    change (2 ^ 10) with 1024. lia. }
  assert (Hb : N.land v 1023 < 1024).
  { change 1023 with (N.ones 10). rewrite N.land_ones. change (2 ^ 10) with 1024. lia. }
  destruct Ha as [Ha Ha']. rewrite Ha.
  destruct (Hsmall _ Ha') as (Hhi1 & _ & Hhi2 & _).
  destruct (Hsmall _ Hb) as (_ & Hlo1 & _ & Hlo2).
  cbv zeta. rewrite Hhi1, Hlo1.
  split; [lia|]. split; [lia|].
  split; [apply andb_true_iff; split; apply N.leb_le; lia|].
  split; [apply andb_true_iff; split; apply N.leb_le; lia|].
  unfold join_surrogates. rewrite Hhi2, Hlo2.
  change 1023 with (N.ones 10).
  rewrite <- N.ldiff_ones_r, N.lor_ldiff_and. lia.
Qed.

Lemma hex4_u_escape n :
  n < 65536 →
  hex4_value (hex_digit (n / 4096 mod 16)) (hex_digit (n / 256 mod 16))
             (hex_digit (n / 16 mod 16)) (hex_digit (n mod 16)) = Some n.
Proof.
  intros Hn.
  assert (Hd : ∀ d, d < 16 → hex_value (hex_digit d) = Some d).
  { intros d Hd. unfold hex_value, hex_digit. destruct (N.ltb_spec d 10).
    - assert (((48 <=? 48 + d) && (48 + d <=? 57)) = true) as ->.
      { apply andb_true_iff; split; apply N.leb_le; lia. }
      f_equal; lia.
    - assert (((48 <=? 87 + d) && (87 + d <=? 57)) = false) as ->.
      { apply andb_false_iff. right. apply N.leb_gt. lia. }
      assert (((97 <=? 87 + d) && (87 + d <=? 102)) = true) as ->.
      { apply andb_true_iff; split; apply N.leb_le; lia. }
      f_equal; lia. }
  unfold hex4_value. rewrite !Hd by lia. f_equal. lia.
Qed.

Lemma scanstring_escape_char c tail :
  code_point c = true →
  (is_high_surrogate c = true → no_low_escape tail) →
  scanstring (escape_char c ++ tail) = cons_char c (scanstring tail).
Proof.
  intros Hc%N.ltb_lt Htail. unfold escape_char.
  repeat match goal with
  | |- context [if ?x =? ?y then _ else _] =>
      destruct (N.eqb_spec x y) as [->|?]; [by apply scanstring_short|]
  end.
  destruct ((32 <=? c) && (c <=? 126)) eqn:Hprint.
  { apply andb_true_iff in Hprint as [?%N.leb_le ?%N.leb_le].
    apply scanstring_plain; [done|done|lia]. }
  destruct (N.ltb_spec c 65536) as [Hbmp|Hbig].
  - destruct (is_high_surrogate c) eqn:Hhi.
    + apply scanstring_u_high; [by apply hex4_u_escape | by apply Htail].
    + apply scanstring_u; [by apply hex4_u_escape | done].
  - destruct (surrogates_of c Hbig Hc) as (Hhi & Hlo & Hishi & Hislo & Hjoin).
    cbv zeta in *. rewrite <- Hjoin at 3.
    apply scanstring_u_pair; auto using hex4_u_escape.
Qed.

Lemma no_low_escape_encoded s rest :
  match s with
  | [] => True
  | c :: _ => code_point c = true ∧ is_low_surrogate c = false
  end →
  no_low_escape (concat (map escape_char s) ++ 34 :: rest).
Proof.
  destruct s as [|c s]; intros Hc g1 g2 g3 g4 s4 Heq; [done|].
  destruct Hc as [Hc%N.ltb_lt Hlow]. cbn [map concat] in Heq.
  rewrite <- app_assoc in Heq.
  set (more := concat (map escape_char s) ++ 34 :: rest) in Heq. clearbody more.
  unfold escape_char in Heq.
  repeat match type of Heq with
  | context [if ?x =? ?y then _ else _] =>
      destruct (N.eqb_spec x y) as [->|?]; [done|]
  end.
  destruct ((32 <=? c) && (c <=? 126)); [cbn [app] in Heq; by simplify_eq|].
  destruct (N.ltb_spec c 65536) as [Hbmp|Hbig].
  - exists c. cbn [app u_escape] in Heq. simplify_eq.
    split; [by apply hex4_u_escape | done].
  - destruct (surrogates_of c Hbig Hc) as (Hhi & Hlo & Hishi & Hislo & Hjoin).
    cbv zeta in *. eexists. cbn [app u_escape] in Heq. simplify_eq.
    split; [by apply hex4_u_escape|].
    apply andb_true_iff in Hishi as [_ ?%N.leb_le].
    apply andb_false_iff. left. apply N.leb_gt. lia.
Qed.

Lemma scanstring_encoded s rest :
  str_ok s = true →
  scanstring (concat (map escape_char s) ++ 34 :: rest) = Some (s, rest).
Proof.
  unfold str_ok. intros [Hcp Hpair]%andb_true_iff.
  induction s as [|c s IH]; [done|].
  simpl in Hcp. apply andb_true_iff in Hcp as [Hc Hcp].
  cbn [map concat]. rewrite <- app_assoc.
  rewrite scanstring_escape_char; [|done|].
  - rewrite IH; [done|done|]. simpl in Hpair. destruct s; [done|].
    by apply andb_true_iff in Hpair as [_ ?].
  - intros Hhi. apply no_low_escape_encoded. destruct s as [|c2 s]; [done|].
    simpl in Hpair, Hcp. apply andb_true_iff in Hcp as [? _].
    apply andb_true_iff in Hpair as [Hp _]. rewrite Hhi in Hp. simpl in Hp.
    split; [done|]. by destruct (is_low_surrogate c2).
Qed.


(** *** White space and the first character of an encoded value *)

Lemma skip_ws_newline_indent level s : skip_ws (newline_indent level ++ s) = skip_ws s.
Proof.
  unfold newline_indent. cbn [app skip_ws]. change (is_ws 10) with true. cbv iota.
  induction (4 * level)%nat as [|n IH]; [done|]. by simpl.
Qed.

Lemma skip_ws_space s : skip_ws (32 :: s) = skip_ws s.
Proof. done. Qed.

Lemma skip_ws_head c s : is_ws c = false → skip_ws (c :: s) = c :: s.
Proof. intros Hc. simpl. by rewrite Hc. Qed.

Lemma encode_list_cons level v l :
  encode level (VList (v :: l)) =
  91 :: newline_indent (S level) ++
  join (44 :: newline_indent (S level)) (map (encode (S level)) (v :: l)) ++
  newline_indent level ++ [93].
Proof. done. Qed.

Lemma encode_dict_cons level kv d :
  encode level (VDict (kv :: d)) =
  123 :: newline_indent (S level) ++
  join (44 :: newline_indent (S level))
    (map (λ kv, encode_string kv.1 ++ u ": " ++ encode (S level) kv.2) (kv :: d)) ++
  newline_indent level ++ [125].
Proof. done. Qed.


Lemma value_start_not_ws c : value_start c → is_ws c = false ∧ c ≠ 93 ∧ c ≠ 125 ∧ c ≠ 65279.
Proof.
  intros [[?%N.leb_le ?%N.leb_le]%andb_true_iff|Hin].
  - unfold is_ws. repeat split; try lia.
    repeat (apply orb_false_iff; split); apply N.eqb_neq; lia.
  - repeat (apply elem_of_cons in Hin as [->|Hin]; [done|]). by apply elem_of_nil in Hin.
Qed.

End CodecFacts.

Section Roundtrip.
Context `{PyRuntime}.
Open Scope N_scope.

Lemma float_ok_finite r :
  float_ok r = true → r ≠ u "nan" → r ≠ u "inf" → r ≠ u "-inf" →
  ∃ i f e, match_number r = Some (i, f, e, []) ∧ (f ≠ [] ∨ e ≠ []) ∧
           float_canon (i ++ f ++ e) = r.
Proof.
  unfold float_ok. intros Hok ? ? ?.
  rewrite !(bool_decide_eq_false_2 (r = _)) in Hok by done. simpl in Hok.
  destruct (match_number r) as [[[[i f] e] [|]]|]; try done.
  apply andb_true_iff in Hok as [Hfe ?%bool_decide_eq_true].
  exists i, f, e. split; [done|]. split; [|done].
  destruct f; [|by left]. destruct e; [done|by right].
Qed.

Lemma encode_head level v :
  value_ok v = true → ∃ c t, encode level v = c :: t ∧ value_start c.
Proof.
  unfold value_start. destruct v as [|[]|n|r|s|[|v l]|[|kv d]]; intros Hok;
    try (eexists _, _; split; [reflexivity|]; right; set_solver).
  - simpl. unfold Z_str. destruct (n <? 0)%Z.
    + eexists _, _; split; [done|]. right; set_solver.
    + destruct (N_str_not_minus (Z.to_N n)) as (c & ds & -> & _ & Hc). eauto.
  - simpl in *. unfold floatstr. repeat case_decide;
      try (eexists _, _; split; [reflexivity|]; right; set_solver).
    destruct (float_ok_finite r) as (i & f & e & Hm & _); try done.
    destruct (match_number_head _ _ _ _ _ Hm) as (c & s' & -> & [->|Hc] & _).
    + eexists _, _; split; [done|]. right; set_solver.
    + eauto.
Qed.


Lemma value_ind' (P : value → Prop) :
  P VNone → (∀ b, P (VBool b)) → (∀ n, P (VInt n)) → (∀ r, P (VFloat r)) →
  (∀ s, P (VStr s)) → (∀ l, Forall P l → P (VList l)) →
  (∀ d, Forall (λ kv, P kv.2) d → P (VDict d)) → ∀ v, P v.
Proof.
  intros HNone HBool HInt HFloat HStr HList HDict. fix IH 1.
  intros [|b|n|r|s|l|d];
    [apply HNone | apply HBool | apply HInt | apply HFloat | apply HStr | |].
  - apply HList. induction l as [|v l IHl]; constructor; [apply IH | apply IHl].
  - apply HDict. induction d as [|[k v] d IHd]; constructor; [apply IH | apply IHd].
Qed.

Ltac eval_literals :=
  repeat match goal with
  | |- context [u ?s] => let v := eval vm_compute in (u s) in change (u s) with v
  end.

Lemma strip_prefix_head_ne a p c s : a ≠ c → strip_prefix (a :: p) (c :: s) = None.
Proof. intros ?%N.eqb_neq. simpl. by rewrite H0. Qed.

Lemma scan_once_number fuel s i f e r :
  match_number s = Some (i, f, e, r) →
  scan_once (S fuel) s =
  Some (match f, e with
        | [], [] => VInt (int_of_token i)
        | _, _ => VFloat (float_canon (i ++ f ++ e))
        end, r).
Proof.
  intros Hm. destruct (match_number_head _ _ _ _ _ Hm) as (c & s' & -> & Hc & Hminus).
  assert (Hne : ∀ x, x ∈ [34; 123; 91; 110; 116; 102] → c ≠ x).
  { intros x Hx ->. destruct Hc as [->|Hc].
    - repeat (apply elem_of_cons in Hx as [?|Hx]; [done|]). by apply elem_of_nil in Hx.
    - repeat (apply elem_of_cons in Hx as [->|Hx]; [done|]). by apply elem_of_nil in Hx. }
  cbn [scan_once].
  rewrite !(proj2 (N.eqb_neq c _)) by (apply Hne; set_solver).
  eval_literals. rewrite !strip_prefix_head_ne by (apply not_eq_sym, Hne; set_solver).
  assert (strip_prefix [45; 73; 110; 102; 105; 110; 105; 116; 121] (c :: s') = None) as ->.
  { destruct (N.eqb_spec 45 c) as [<-|?]; [|by apply strip_prefix_head_ne].
    destruct (Hminus eq_refl) as (d & s'' & -> & Hd). cbn [strip_prefix].
    change (45 =? 45) with true. cbv iota.
    by destruct (N.eqb_spec 73 d) as [<-|]. }
  rewrite Hm. by destruct f, e.
Qed.

Lemma dict_set_fresh k v (d : dict) : k ∉ d.*1 → dict_set k v d = d ++ [(k, v)].
Proof.
  induction d as [|[k' v'] d IH]; [done|]. simpl. intros Hk.
  apply not_elem_of_cons in Hk as [? ?]. case_decide; [done|]. by rewrite IH.
Qed.

Lemma dict_of_pairs_NoDup (d : dict) : NoDup d.*1 → dict_of_pairs d = d.
Proof.
  unfold dict_of_pairs. intros Hd.
  assert (Hgen : ∀ acc : dict, NoDup (acc.*1 ++ d.*1) →
    foldl (λ acc kv, dict_set kv.1 kv.2 acc) acc d = acc ++ d); [|by apply (Hgen [])].
  clear Hd. induction d as [|[k v] d IH]; intros acc Hnd; simpl.
  - by rewrite app_nil_r.
  - rewrite dict_set_fresh.
    + rewrite IH; [by rewrite <- app_assoc|].
      rewrite fmap_app. simpl. by rewrite <- app_assoc.
    + apply NoDup_app in Hnd as (_ & Hdis & _). intros Hk. apply (Hdis _ Hk). by left.
Qed.



Lemma array_items_encode level l rest :
  l ≠ [] →
  Forall (λ v, value_ok v = true ∧ ∀ level fuel rest, delimited rest →
    (fuel_needed v ≤ fuel)%nat →
    scan_once fuel (encode level v ++ rest) = Some (v, rest)) l →
  ∀ fuel, (items_fuel l ≤ fuel)%nat →
  array_items fuel
    (join (44 :: newline_indent (S level)) (map (encode (S level)) l) ++
     newline_indent level ++ 93 :: rest) = Some (l, rest).
Proof.
  intros Hne Hl. induction Hl as [|v l [Hok Hv] Hl IH]; [done|].
  intros [|fuel] Hfuel; [simpl in Hfuel; lia|].
  change (items_fuel (v :: l)) with (S (max (fuel_needed v) (items_fuel l))) in Hfuel.
  cbn [array_items]. destruct l as [|v2 l].
  - cbn [map join]. rewrite Hv; [|by right|lia].
    rewrite skip_ws_newline_indent, skip_ws_head by done. done.
  - change (join ?sep (map ?f (v :: v2 :: l)))
      with (f v ++ sep ++ join sep (map f (v2 :: l))).
    rewrite <- !app_assoc. rewrite Hv; [|by left|lia].
    cbn [app]. rewrite skip_ws_head by done.
    change (44 =? 93) with false. change (44 =? 44) with true. cbv iota.
    rewrite skip_ws_newline_indent.
    apply Forall_cons in Hl as [[Hok2 _] _].
    destruct (encode_head (S level) v2 Hok2) as (c & t & Hhead & Hc).
    assert (skip_ws (join (44 :: newline_indent (S level))
                       (map (encode (S level)) (v2 :: l)) ++
                     newline_indent level ++ 93 :: rest) = 
            join (44 :: newline_indent (S level)) (map (encode (S level)) (v2 :: l)) ++
                     newline_indent level ++ 93 :: rest) as ->.
    { destruct l; cbn [map join]; rewrite Hhead; cbn [app];
        apply skip_ws_head, value_start_not_ws, Hc. }
    rewrite IH; [done|done|lia].
Qed.


Lemma object_items_encode level (d : dict) rest :
  d ≠ [] →
  Forall (λ kv, str_ok kv.1 = true ∧ value_ok kv.2 = true ∧
    ∀ level fuel rest, delimited rest → (fuel_needed kv.2 ≤ fuel)%nat →
    scan_once fuel (encode level kv.2 ++ rest) = Some (kv.2, rest)) d →
  ∀ fuel, (pairs_fuel d ≤ fuel)%nat →
  object_items fuel
    (join (44 :: newline_indent (S level))
       (map (λ kv, encode_string kv.1 ++ u ": " ++ encode (S level) kv.2) d) ++
     newline_indent level ++ 125 :: rest) = Some (d, rest).
Proof.
  intros Hne Hd. induction Hd as [|[k v] d (Hk & Hok & Hv) Hd IH]; [done|].
  intros [|fuel] Hfuel; [simpl in Hfuel; lia|]. cbn [fst snd] in Hk, Hok, Hv.
  change (pairs_fuel ((k, v) :: d)) with (S (max (fuel_needed v) (pairs_fuel d))) in Hfuel.
  assert (Hkv : ∀ tail,
    object_items (S fuel) ((encode_string k ++ u ": " ++ encode (S level) v) ++ tail) =
    match scan_once fuel (encode (S level) v ++ tail) with
    | Some (v, rest) =>
        match skip_ws rest with
        | [] => None
        | c :: rest' =>
            if c =? 125 then Some ([(k, v)], rest')
            else if c =? 44 then
              match object_items fuel (skip_ws rest') with
              | Some (kvs, r) => Some ((k, v) :: kvs, r)
              | None => None
              end
            else None
        end
    | None => None
    end).
  { intros tail. unfold encode_string. eval_literals.
    rewrite <- !app_assoc. cbn [app object_items]. rewrite <- !app_assoc.
    change (34 =? 34) with true. cbv iota. cbn [app].
    rewrite scanstring_encoded by done.
    rewrite (skip_ws_head 58) by done. change (58 =? 58) with true. cbv iota.
    rewrite skip_ws_space.
    destruct (encode_head (S level) v Hok) as (c & t & -> & Hc).
    cbn [app]. by rewrite skip_ws_head by apply value_start_not_ws, Hc. }
  destruct d as [|kv2 d].
  - cbn [map join]. rewrite Hkv, Hv; [|by right|lia].
    rewrite skip_ws_newline_indent, skip_ws_head by done. done.
  - change (join ?sep (map ?f ((k, v) :: kv2 :: d)))
      with (f (k, v) ++ sep ++ join sep (map f (kv2 :: d))).
    cbn beta. rewrite <- (app_assoc (encode_string _ ++ _)), Hkv.
    rewrite <- !app_assoc. rewrite Hv; [|by left|lia].
    cbn [app]. rewrite skip_ws_head by done.
    change (44 =? 125) with false. change (44 =? 44) with true. cbv iota.
    rewrite skip_ws_newline_indent.
    assert (∀ tail, skip_ws (join (44 :: newline_indent (S level))
       (map (λ kv, encode_string kv.1 ++ u ": " ++ encode (S level) kv.2) (kv2 :: d))
       ++ tail) = join (44 :: newline_indent (S level))
       (map (λ kv, encode_string kv.1 ++ u ": " ++ encode (S level) kv.2) (kv2 :: d))
       ++ tail) as ->.
    { intros tail. destruct d; cbn [map join]; unfold encode_string; cbn [app];
        by apply skip_ws_head. }
    rewrite IH; [done|done|lia].
Qed.

Lemma forallb_Forall_true {A} (f : A → bool) (l : list A) :
  forallb f l = true → Forall (λ x, f x = true) l.
Proof.
  induction l as [|x l IH]; simpl; [constructor|].
  intros [? ?]%andb_true_iff. constructor; auto.
Qed.

(** Reading back an encoded value, in front of any delimited text. *)
Lemma scan_once_encode v :
  value_ok v = true → ∀ level fuel rest, delimited rest → (fuel_needed v ≤ fuel)%nat →
  scan_once fuel (encode level v ++ rest) = Some (v, rest).
Proof.
  induction v as [|b|n|r|s|l IHl|d IHd] using value_ind';
    intros Hok level [|fuel] rest Hrest Hfuel; try (simpl in Hfuel; lia).
  - done.
  - by destruct b.
  - cbn [encode]. rewrite (scan_once_number _ _ _ _ _ _ (match_number_Z_str n rest Hrest)).
    by rewrite int_of_token_Z_str.
  - cbn [encode value_ok] in *. unfold floatstr. repeat case_decide; subst; try done.
    destruct (float_ok_finite r) as (i & f & e & Hm & Hfe & Hcanon); try done.
    rewrite (scan_once_number _ _ _ _ _ _ (match_number_app _ _ _ _ _ _ Hm Hrest)).
    rewrite Hcanon. by destruct f, e, Hfe.
  - cbn [encode value_ok] in *. unfold encode_string. cbn [app scan_once].
    rewrite <- app_assoc. cbn [app]. change (34 =? 34) with true. cbv iota.
    by rewrite scanstring_encoded.
  - destruct l as [|v l]; [done|].
    rewrite encode_list_cons. cbn [app scan_once].
    change (91 =? 34) with false. change (91 =? 123) with false.
    change (91 =? 91) with true. cbv iota.
    rewrite <- !app_assoc, skip_ws_newline_indent.
    cbn [value_ok] in Hok. apply forallb_Forall_true in Hok.
    pose proof Hok as [Hokv _]%Forall_cons.
    destruct (encode_head (S level) v Hokv) as (c & t & Hhead & Hc).
    pose proof (value_start_not_ws _ Hc) as (Hws & Hc93 & _).
    assert (∃ t', join (44 :: newline_indent (S level)) (map (encode (S level)) (v :: l)) ++
              newline_indent level ++ [93] ++ rest = c :: t') as [t' Ht'].
    { destruct l; cbn [map join]; rewrite Hhead; cbn [app]; eauto. }
    rewrite Ht', skip_ws_head by done.
    apply N.eqb_neq in Hc93. rewrite Hc93, <- Ht'.
    rewrite (array_items_encode level (v :: l) rest); [done|done| |].
    + apply Forall_forall. intros x Hx. rewrite Forall_forall in Hok, IHl.
      split; [by apply Hok|]. intros. by apply IHl; [|apply Hok|..].
    + change (fuel_needed (VList (v :: l))) with (S (items_fuel (v :: l))) in Hfuel. lia.
  - destruct d as [|[k v] d]; [done|].
    rewrite encode_dict_cons. cbn [app scan_once].
    change (123 =? 34) with false. change (123 =? 123) with true. cbv iota.
    rewrite <- !app_assoc, skip_ws_newline_indent.
    cbn [value_ok] in Hok. apply andb_true_iff in Hok as [Hok Hnd].
    apply bool_decide_eq_true in Hnd. apply forallb_Forall_true in Hok.
    assert (∃ t', join (44 :: newline_indent (S level))
              (map (λ kv, encode_string kv.1 ++ u ": " ++ encode (S level) kv.2)
                   ((k, v) :: d)) ++
              newline_indent level ++ [125] ++ rest = 34 :: t') as [t' Ht'].
    { destruct d; cbn [map join]; unfold encode_string; cbn [app]; eauto. }
    rewrite Ht', skip_ws_head by done. change (34 =? 125) with false. cbv iota.
    rewrite <- Ht'.
    rewrite (object_items_encode level ((k, v) :: d) rest); [|done| |].
    + by rewrite dict_of_pairs_NoDup.
    + apply Forall_forall. intros x Hx.
      rewrite Forall_forall in Hok. specialize (Hok x Hx).
      apply andb_true_iff in Hok as [? ?].
      split; [done|]. split; [done|].
      rewrite Forall_forall in IHd. intros. by apply IHd.
    + change (fuel_needed (VDict ((k, v) :: d))) with (S (pairs_fuel ((k, v) :: d))) in Hfuel.
      lia.
Qed.


Lemma length_newline_indent level : (1 ≤ length (newline_indent level))%nat.
Proof. unfold newline_indent. simpl. lia. Qed.

Lemma join_fuel_le {A} (measure : A → nat) (enc : A → pystr) sep (l : list A) :
  Forall (λ x, (measure x ≤ length (enc x))%nat) l → l ≠ [] → (1 ≤ length sep)%nat →
  (foldr (λ x acc, S (max (measure x) acc)) 0 l ≤ length (join sep (map enc l)) + 1)%nat.
Proof.
  intros Hl Hne Hsep. induction Hl as [|x l Hx Hl IH]; [done|].
  destruct l as [|y l].
  - simpl. lia.
  - change (join sep (map enc (x :: y :: l)))
      with (enc x ++ sep ++ join sep (map enc (y :: l))).
    rewrite !length_app. cbn [foldr]. specialize (IH ltac:(done)). cbn [foldr] in IH. lia.
Qed.

Lemma fuel_needed_le_length level v :
  value_ok v = true → (fuel_needed v ≤ length (encode level v))%nat.
Proof.
  revert level. induction v as [|b|n|r|s|l IHl|d IHd] using value_ind';
    intros level Hok;
    try (destruct (encode_head level _ Hok) as (c & t & -> & _); simpl; lia).
  - destruct l as [|v l]; [simpl; lia|].
    rewrite encode_list_cons. cbn [length]. rewrite !length_app.
    cbn [value_ok] in Hok. apply forallb_Forall_true in Hok.
    pose proof (length_newline_indent level). pose proof (length_newline_indent (S level)).
    pose proof (join_fuel_le fuel_needed (encode (S level))
      (44 :: newline_indent (S level)) (v :: l)) as Hj.
    change (fuel_needed (VList (v :: l)))
      with (S (foldr (λ v acc, S (max (fuel_needed v) acc)) 0%nat (v :: l))).
    assert (HF : Forall (λ x, (fuel_needed x ≤ length (encode (S level) x))%nat) (v :: l)).
    { rewrite Forall_forall in Hok, IHl |- *. intros x Hx. by apply IHl, Hok. }
    specialize (Hj HF ltac:(done) ltac:(simpl; lia)). cbn [length] in *.
    apply le_n_S. etransitivity; [exact Hj|].
    generalize (length (newline_indent level)) (length (newline_indent (S level))) H0 H1.
    intros; lia.
  - destruct d as [|kv d]; [simpl; lia|].
    rewrite encode_dict_cons. cbn [length]. rewrite !length_app.
    cbn [value_ok] in Hok. apply andb_true_iff in Hok as [Hok _].
    apply forallb_Forall_true in Hok.
    pose proof (length_newline_indent level). pose proof (length_newline_indent (S level)).
    pose proof (join_fuel_le (λ kv, fuel_needed kv.2)
      (λ kv, encode_string kv.1 ++ u ": " ++ encode (S level) kv.2)
      (44 :: newline_indent (S level)) (kv :: d)) as Hj.
    change (fuel_needed (VDict (kv :: d)))
      with (S (foldr (λ kv acc, S (max (fuel_needed kv.2) acc)) 0%nat (kv :: d))).
    assert (HF : Forall (λ kv : pystr * value, (fuel_needed kv.2 ≤
      length (encode_string kv.1 ++ u ": " ++ encode (S level) kv.2))%nat) (kv :: d)).
    { rewrite Forall_forall in Hok, IHd |- *. intros x Hx. rewrite !length_app.
      specialize (Hok x Hx). apply andb_true_iff in Hok as [_ Hx2].
      specialize (IHd x Hx (S level) Hx2). lia. }
    specialize (Hj HF ltac:(done) ltac:(simpl; lia)). cbn [length] in *.
    apply le_n_S. etransitivity; [exact Hj|].
    generalize (length (newline_indent level)) (length (newline_indent (S level))) H0 H1.
    intros. set (J := length (join _ _)). lia.
Qed.

(** What [json.dumps] writes, [json.loads] reads back. *)
Lemma json_loads_dumps v : value_ok v = true → json_loads (json_dumps v) = Some v.
Proof.
  intros Hok. unfold json_loads, json_dumps.
  destruct (encode_head 0 v Hok) as (c & t & Hhead & Hc).
  pose proof (value_start_not_ws _ Hc) as (Hws & _ & _ & Hbom).
  pose proof (fuel_needed_le_length 0 v Hok) as Hfuel.
  rewrite bool_decide_eq_false_2.
  2:{ rewrite Hhead. simpl. by intros [= ->]. }
  assert (skip_ws (encode 0 v) = encode 0 v ++ []) as ->.
  { rewrite app_nil_r, Hhead. by apply skip_ws_head. }
  rewrite scan_once_encode; [done|done|done|lia].
Qed.

End Roundtrip.

(** ** The JSON text format: the scanner never runs short of fuel *)

Section DecoderFuel.
Open Scope N_scope.

Lemma skip_ws_length s : (length (skip_ws s) ≤ length s)%nat.
Proof.
  induction s as [|c s IH]; simpl; [done|]. destruct (is_ws c); simpl; lia.
Qed.

Lemma cons_char_Some c r str rest :
  cons_char c r = Some (str, rest) → ∃ str', r = Some (str', rest) ∧ str = c :: str'.
Proof. destruct r as [[str' rest']|]; simpl; [|done]. intros [= <- <-]. eauto. Qed.

Lemma scanstring_length s str rest :
  scanstring s = Some (str, rest) → (length rest < length s)%nat.
Proof.
  remember (length s) as n eqn:Hn. revert s str rest Hn.
  induction n as [n IH] using lt_wf_ind. intros s str rest -> Hscan.
  assert (Hrec : ∀ c s' str rest, (length s' < length s)%nat →
    cons_char c (scanstring s') = Some (str, rest) → (length rest < length s)%nat).
  { intros c s' str0 rest0 Hlt (str' & Hs' & _)%cons_char_Some.
    specialize (IH _ Hlt s' str' rest0 eq_refl Hs'). lia. }
  destruct s as [|c s1]; [done|]. cbn [scanstring] in Hscan.
  destruct (c =? 34). { simplify_eq. simpl. lia. }
  destruct (c =? 92).
  - destruct s1 as [|e s2]; [done|]. destruct (e =? 117).
    + destruct s2 as [|h1 [|h2 [|h3 [|h4 s3]]]]; try done.
      destruct (hex4_value h1 h2 h3 h4) as [uni|]; [|done].
      destruct (is_high_surrogate uni).
      * destruct s3 as [|b [|e2 [|g1 [|g2 [|g3 [|g4 s4]]]]]];
          try (eapply Hrec; [|exact Hscan]; simpl; lia).
        destruct ((b =? 92) && (e2 =? 117));
          [|eapply Hrec; [|exact Hscan]; simpl; lia].
        destruct (hex4_value g1 g2 g3 g4) as [uni2|]; [|done].
        destruct (is_low_surrogate uni2); (eapply Hrec; [|exact Hscan]; simpl; lia).
      * eapply Hrec; [|exact Hscan]; simpl; lia.
    + destruct (unescape e); [|done]. eapply Hrec; [|exact Hscan]; simpl; lia.
  - destruct (c <=? 31); [done|]. eapply Hrec; [|exact Hscan]; simpl; lia.
Qed.

Lemma strip_prefix_length p s rest :
  strip_prefix p s = Some rest → length s = (length p + length rest)%nat.
Proof.
  revert s. induction p as [|a p IH]; intros [|b s]; simpl; try done.
  - by intros [= <-].
  - by intros [= <-].
  - destruct (a =? b); [|done]. intros Hs. by rewrite (IH _ Hs).
Qed.

Lemma span_digits_length s ds rest :
  span_digits s = (ds, rest) → length s = (length ds + length rest)%nat.
Proof.
  revert ds rest. induction s as [|c s IH]; intros ds rest; simpl.
  - by intros [= <- <-].
  - destruct (is_digit c); [|by intros [= <- <-]].
    destruct (span_digits s) as [ds' rest']. intros [= <- <-].
    simpl. by rewrite (IH _ _ eq_refl).
Qed.

Lemma match_number_length s i f e rest :
  match_number s = Some (i, f, e, rest) → (length rest < length s)%nat.
Proof.
  unfold match_number.
  destruct (number_sign s) as [sg s0] eqn:Hsg.
  assert (length s0 ≤ length s)%nat as Hs0.
  { unfold number_sign in Hsg. destruct s as [|c s]; [by simplify_eq|].
    destruct (c =? 45); simplify_eq; simpl; lia. }
  destruct (number_int s0) as [[ds s2]|] eqn:Hint; [|done].
  assert (length s2 < length s0)%nat as Hs2.
  { unfold number_int in Hint. destruct s0 as [|c s1]; [done|].
    destruct (c =? 48); [simplify_eq; simpl; lia|].
    destruct (_ && _); [|done]. destruct (span_digits s1) as [ds' r] eqn:Hsp.
    apply span_digits_length in Hsp. simplify_eq. simpl. lia. }
  destruct (number_frac s2) as [f' s3] eqn:Hf.
  assert (length s3 ≤ length s2)%nat as Hs3.
  { unfold number_frac in Hf. destruct s2 as [|c [|d s2']]; try (simplify_eq; done).
    destruct (_ && _); [|by simplify_eq]. destruct (span_digits s2') as [fs r] eqn:Hsp.
    apply span_digits_length in Hsp. simplify_eq. simpl. lia. }
  destruct (number_exp s3) as [e' s4] eqn:He.
  assert (length s4 ≤ length s3)%nat as Hs4.
  { unfold number_exp in He. destruct s3 as [|c s3']; [by simplify_eq|].
    destruct (_ || _); [|by simplify_eq].
    destruct (match s3' with
              | [] => ([], s3')
              | g :: t => if (g =? 45) || (g =? 43) then ([g], t) else ([], s3')
              end) as [esign s3''] eqn:Hsign.
    assert (length s3'' ≤ length s3')%nat.
    { destruct s3' as [|g t]; [by simplify_eq|].
      destruct (_ || _); simplify_eq; simpl; lia. }
    destruct (span_digits s3'') as [es r] eqn:Hsp. apply span_digits_length in Hsp.
    destruct es; simplify_eq; simpl in *; lia. }
  intros [= <- <- <- <-]. lia.
Qed.

End DecoderFuel.

Section DecoderFuelRuntime.
Context `{PyRuntime}.

(** Whatever the scanner reads, it consumes at least one character. *)
Lemma scan_consumes fuel :
  (∀ s v rest, scan_once fuel s = Some (v, rest) → (length rest < length s)%nat) ∧
  (∀ s vs rest, array_items fuel s = Some (vs, rest) → (length rest < length s)%nat) ∧
  (∀ s kvs rest, object_items fuel s = Some (kvs, rest) → (length rest < length s)%nat).
Proof.
  induction fuel as [|fuel (IHs & IHa & IHo)]; [done|]. split; [|split].
  - intros s v rest Hscan. destruct s as [|c s1]; [done|]. cbn [scan_once] in Hscan.
    pose proof (skip_ws_length s1) as Hws.
    destruct (c =? 34)%N.
    { destruct (scanstring s1) as [[str r]|] eqn:Hstr; [|done].
      apply scanstring_length in Hstr. simplify_eq. simpl. lia. }
    destruct (c =? 123)%N.
    { destruct (skip_ws s1) as [|c2 s3] eqn:Hskip; [done|].
      destruct (c2 =? 125)%N; [simplify_eq; simpl in *; lia|].
      destruct (object_items fuel (c2 :: s3)) as [[pairs r]|] eqn:Hobj; [|done].
      apply IHo in Hobj. simplify_eq. simpl in *. lia. }
    destruct (c =? 91)%N.
    { destruct (skip_ws s1) as [|c2 s3] eqn:Hskip; [done|].
      destruct (c2 =? 93)%N; [simplify_eq; simpl in *; lia|].
      destruct (array_items fuel (c2 :: s3)) as [[vs r]|] eqn:Harr; [|done].
      apply IHa in Harr. simplify_eq. simpl in *. lia. }
    repeat match type of Hscan with
    | context [strip_prefix ?p ?t] =>
        let Hp := fresh "Hp" in
        destruct (strip_prefix p t) eqn:Hp;
        [apply strip_prefix_length in Hp; simplify_eq; simpl in *; lia|]
    | context [match_number ?t] =>
        let Hm := fresh "Hm" in
        destruct (match_number t) as [[[[i f] e] r]|] eqn:Hm;
        [apply match_number_length in Hm; destruct f, e; simplify_eq; simpl in *; lia|]
    end.
    done.
  - intros s vs rest Harr. cbn [array_items] in Harr.
    destruct (scan_once fuel s) as [[v r]|] eqn:Hv; [|done]. apply IHs in Hv.
    pose proof (skip_ws_length r) as Hws.
    destruct (skip_ws r) as [|c r'] eqn:Hskip; [done|].
    destruct (c =? 93)%N; [simplify_eq; simpl in *; lia|].
    destruct (c =? 44)%N; [|done].
    pose proof (skip_ws_length r') as Hws'.
    destruct (array_items fuel (skip_ws r')) as [[vs' r'']|] eqn:Hrest; [|done].
    apply IHa in Hrest. simplify_eq. simpl in *. lia.
  - intros s kvs rest Hobj. cbn [object_items] in Hobj.
    destruct s as [|q s1]; [done|]. destruct (q =? 34)%N; [|done].
    destruct (scanstring s1) as [[key s2]|] eqn:Hkey; [|done].
    apply scanstring_length in Hkey. pose proof (skip_ws_length s2) as Hws2.
    destruct (skip_ws s2) as [|colon s3] eqn:Hskip2; [done|].
    destruct (colon =? 58)%N; [|done]. pose proof (skip_ws_length s3) as Hws3.
    destruct (scan_once fuel (skip_ws s3)) as [[v r]|] eqn:Hv; [|done]. apply IHs in Hv.
    pose proof (skip_ws_length r) as Hws.
    destruct (skip_ws r) as [|c r'] eqn:Hskip; [done|].
    destruct (c =? 125)%N; [simplify_eq; simpl in *; lia|].
    destruct (c =? 44)%N; [|done].
    pose proof (skip_ws_length r') as Hws'.
    destruct (object_items fuel (skip_ws r')) as [[kvs' r'']|] eqn:Hrest; [|done].
    apply IHo in Hrest. simplify_eq. simpl in *. lia.
Qed.

(** With twice the length of the text as fuel, more fuel changes nothing:
    a [None] of the scanner is an error in the text, never a lack of fuel. *)
Lemma scan_fuel_enough fuel1 :
  ∀ fuel2,
  (∀ s, (2 * length s ≤ fuel1)%nat → (2 * length s ≤ fuel2)%nat →
        scan_once fuel1 s = scan_once fuel2 s) ∧
  (∀ s, (2 * length s + 1 ≤ fuel1)%nat → (2 * length s + 1 ≤ fuel2)%nat →
        array_items fuel1 s = array_items fuel2 s) ∧
  (∀ s, (2 * length s + 1 ≤ fuel1)%nat → (2 * length s + 1 ≤ fuel2)%nat →
        object_items fuel1 s = object_items fuel2 s).
Proof.
  induction fuel1 as [|fuel1 IH]; intros fuel2.
  { split; [|split]; intros s H1 H2; try lia.
    destruct s; [|simpl in H1; lia]. by destruct fuel2. }
  destruct fuel2 as [|fuel2].
  { split; [|split]; intros s H1 H2; try lia. by destruct s; [|simpl in H2; lia]. }
  destruct (IH fuel2) as (IHs & IHa & IHo). split; [|split].
  - intros s H1 H2. destruct s as [|c s1]; [done|]. cbn [scan_once length] in *.
    pose proof (skip_ws_length s1) as Hws.
    destruct (skip_ws s1) as [|c2 s3] eqn:Hskip; [done|]. cbn [length] in Hws.
    by rewrite (IHo (c2 :: s3)), (IHa (c2 :: s3)) by (cbn [length]; lia).
  - intros s H1 H2. cbn [array_items]. rewrite (IHs s) by lia.
    destruct (scan_once fuel2 s) as [[v r]|] eqn:Hv; [|done].
    apply (proj1 (scan_consumes fuel2)) in Hv.
    pose proof (skip_ws_length r) as Hws.
    destruct (skip_ws r) as [|c r']; [done|]. cbn [length] in Hws.
    pose proof (skip_ws_length r') as Hws'.
    by rewrite (IHa (skip_ws r')) by lia.
  - intros s H1 H2. cbn [object_items].
    destruct s as [|q s1]; [done|]. cbn [length] in *.
    destruct (scanstring s1) as [[key s2]|] eqn:Hkey; [|done].
    apply scanstring_length in Hkey. pose proof (skip_ws_length s2) as Hws2.
    destruct (skip_ws s2) as [|colon s3]; [done|]. cbn [length] in Hws2.
    pose proof (skip_ws_length s3) as Hws3.
    rewrite (IHs (skip_ws s3)) by lia.
    destruct (scan_once fuel2 (skip_ws s3)) as [[v r]|] eqn:Hv; [|done].
    apply (proj1 (scan_consumes fuel2)) in Hv.
    pose proof (skip_ws_length r) as Hws.
    destruct (skip_ws r) as [|c r']; [done|]. cbn [length] in Hws.
    pose proof (skip_ws_length r') as Hws'.
    by rewrite (IHo (skip_ws r')) by lia.
Qed.

Lemma json_loads_fuel s fuel :
  (2 * length s + 2 ≤ fuel)%nat →
  scan_once fuel (skip_ws s) = scan_once (2 * length s + 2) (skip_ws s).
Proof.
  intros Hfuel. pose proof (skip_ws_length s).
  apply (scan_fuel_enough fuel (2 * length s + 2)); lia.
Qed.

End DecoderFuelRuntime.

(** ** Metadata crawler *)

Section CrawlFacts.
Context `{PyRuntime} (w : World) (params : dict).

Lemma crawl_unfold fuel page all_images next_url first :
  crawl w params fuel page all_images next_url first =
  if truthy next_url then
    match fuel with
    | O => Diverge
    | S fuel =>
        match requests_get w page next_url (if first then Some params else None) with
        | RequestException => Ret all_images
        | Response status_code text _ =>
            if raises_for_status status_code then Ret all_images
            else
              match json_loads text with
              | None => Ret all_images
              | Some data =>
                  obind (py_get data (u "items") (VList [])) (λ items,
                  if negb (truthy items) then Ret all_images
                  else
                    obind (list_extend all_images items) (λ all_images,
                    obind (py_get data (u "metadata") (VDict [])) (λ metadata,
                    obind (py_get metadata (u "nextPage") VNone) (λ next_url,
                    crawl w params fuel (S page) all_images next_url false))))
              end
        end
    end
  else Ret all_images.
Proof. by destruct fuel. Qed.

Lemma list_extend_app all_images items page_items :
  list_extend [] items = Ret page_items →
  list_extend all_images items = Ret (all_images ++ page_items).
Proof. destruct items; simpl; intros; by simplify_eq. Qed.

(** After [length pages] good pages the loop stands where [crawled] says. *)
Lemma crawl_reaches pages url first :
  crawled w params pages url first → ∀ fuel,
  fetch_all_image_metadata w params (length pages + fuel) =
  crawl w params fuel (length pages) (concat pages) url first.
Proof.
  unfold fetch_all_image_metadata.
  induction 1 as [|pages url first status_code text content data items page_items
                   metadata next_url _ IH Hurl Hget Hstatus Hjson Hitems Htruthy
                   Hextend Hmeta Hnext]; intros fuel; [done|].
  assert (Hlen : length (pages ++ [page_items]) = S (length pages)).
  { rewrite length_app. simpl. lia. }
  rewrite Hlen. replace (S (length pages) + fuel)%nat with (length pages + S fuel)%nat by lia.
  rewrite IH, crawl_unfold, Hurl, Hget, Hstatus, Hjson, Hitems. cbn [obind].
  rewrite Htruthy. cbn [negb]. rewrite (list_extend_app _ _ _ Hextend). cbn [obind].
  rewrite Hmeta. cbn [obind]. rewrite Hnext. cbn [obind].
  rewrite concat_app. simpl. by rewrite app_nil_r.
Qed.





(** A body that is JSON text but not an object is not a failed request for
    the loop: [data.get] raises [AttributeError], which the [except] clause
    does not catch. *)
Lemma crawl_body_not_object (fuel page : nat) (all_images : list value) (url : value)
    (first : bool) (status_code : Z) (text : pystr) (content : list N) (data : value) :
  truthy url = true →
  requests_get w page url (if first then Some params else None)
    = Response status_code text content →
  raises_for_status status_code = false →
  json_loads text = Some data →
  (∀ d, data ≠ VDict d) →
  crawl w params (S fuel) page all_images url first = Raise AttributeError.
Proof.
  intros Hurl Hget Hstatus Hjson Hdata.
  rewrite crawl_unfold, Hurl, Hget, Hstatus, Hjson.
  by destruct data as [| | | | | |d]; [..|destruct (Hdata d)].
Qed.

End CrawlFacts.

(** *** The two sample servers *)






Lemma page_items_truthy first_id k : truthy (VList (page_items_of first_id (S k))) = true.
Proof. done. Qed.


Lemma cursor_truthy n : truthy (VStr (cursor n)) = true.
Proof. done. Qed.





(** ** Manifest store *)

Lemma save_manifest_states_last (manifest_path : pystr) (data : value) (fs : filesystem) :
  last (save_manifest_states manifest_path data fs)
  = Some (<[manifest_path := FText (json_dumps data)]> fs).
Proof.
  unfold save_manifest_states. rewrite seq_S, map_app. cbn [map].
  by rewrite last_snoc, Nat.add_0_l, firstn_all.
Qed.

Lemma save_manifest_eq (manifest_path : pystr) (data : value) (fs : filesystem) :
  save_manifest manifest_path data fs = <[manifest_path := FText (json_dumps data)]> fs.
Proof. unfold save_manifest. by rewrite save_manifest_states_last. Qed.

Section ManifestFacts.
Context `{PyRuntime}.

Lemma load_saved (manifest_path : pystr) (data : value) (fs : filesystem) :
  value_ok data = true →
  load_manifest manifest_path (save_manifest manifest_path data fs) = Ret data.
Proof.
  intros Hok. unfold load_manifest.
  by rewrite save_manifest_eq, lookup_insert_eq, json_loads_dumps.
Qed.


(** C4: with no file at the manifest path, loading returns the empty
    catalog; with a file there that is not text or not JSON text, loading
    raises, and so does the run, with every file as it was; a file that
    holds JSON text other than an object stops the run in the same way at
    the first use of the manifest. *)
Theorem load_manifest_missing_or_corrupt (w : World) (fuel : nat) (args : Args)
    (fs : filesystem) :
  (fs !! manifest_path_of args = None →
     load_manifest (manifest_path_of args) fs = Ret (VDict [])) ∧
  (∀ f, fs !! manifest_path_of args = Some f →
     (∀ text, f = FText text → json_loads text = None) →
     ∃ e, load_manifest (manifest_path_of args) fs = Raise e ∧
          main w fuel args fs = (fs, Raise e)) ∧
  (∀ text data, fs !! manifest_path_of args = Some (FText text) →
     json_loads text = Some data → (∀ d, data ≠ VDict d) →
     main w fuel args fs = (fs, Raise AttributeError)).
Proof.
  unfold main, compare_catalogs, load_manifest. split; [by intros ->|]. split.
  - intros f -> Hf. destruct f as [text| |].
    + rewrite (Hf text eq_refl). by eexists.
    + by eexists.
    + by eexists.
  - intros text data -> -> Hdata. by destruct data as [| | | | | |d]; [..|destruct (Hdata d)].
Qed.

End ManifestFacts.

Lemma load_manifest_missing_or_corrupt_witness :
  load_manifest (H := sample_runtime) (manifest_path_of sample_args) ∅ = Ret (VDict []) ∧
  (∃ e, load_manifest (H := sample_runtime) (manifest_path_of sample_args) truncated_files
          = Raise e ∧
        main (H := sample_runtime) endless_world 3 sample_args truncated_files
          = (truncated_files, Raise e)).
Proof.
  pose proof (load_manifest_missing_or_corrupt (H := sample_runtime) endless_world 3
                sample_args ∅) as [Hmissing _].
  pose proof (load_manifest_missing_or_corrupt (H := sample_runtime) endless_world 3
                sample_args truncated_files) as (_ & Hcorrupt & _).
  split.
  - apply Hmissing. apply lookup_empty.
  - apply (Hcorrupt (FText (u "{"))).
    + apply lookup_singleton_eq.
    + intros text [= <-]. reflexivity.
Defined.



(** C5 (as the code has it): [save_manifest] opens the target itself and
    writes the text into it.  Every state on the way differs from the
    initial files at the target path only, where it holds a prefix of the
    text, starting from the empty one; the last state holds the whole text.
    No other path, temporary or not, is ever written, and nothing is
    renamed. *)
Theorem save_manifest_in_place (manifest_path : pystr) (data : value) (fs : filesystem) :
  head (save_manifest_states manifest_path data fs)
    = Some (<[manifest_path := FText []]> fs) ∧
  save_manifest manifest_path data fs = <[manifest_path := FText (json_dumps data)]> fs ∧
  ∀ st, st ∈ save_manifest_states manifest_path data fs →
    (∃ k, st !! manifest_path = Some (FText (take k (json_dumps data)))) ∧
    (∀ path, path ≠ manifest_path → st !! path = fs !! path).
Proof.
  split; [done|]. split; [apply save_manifest_eq|].
  intros st Hst. unfold save_manifest_states in Hst.
  apply list_elem_of_In, in_map_iff in Hst as (k & <- & _). split.
  - exists k. apply lookup_insert_eq.
  - intros path Hpath. by apply lookup_insert_ne.
Qed.

(** C5, counterexample: as soon as the target is opened the manifest of
    the previous run is gone and a file that cannot be loaded is in its
    place; that state is one of those an interruption leaves behind. *)
Lemma save_manifest_truncates :
  load_manifest (H := sample_runtime) (manifest_path_of sample_args) one_entry_files
    = Ret (VDict one_entry_catalog) ∧
  ∃ st, st ∈ save_manifest_states (manifest_path_of sample_args)
               (VDict two_entry_catalog) one_entry_files ∧
        st !! manifest_path_of sample_args = Some (FText []) ∧
        load_manifest (H := sample_runtime) (manifest_path_of sample_args) st
          = Raise JSONDecodeError.
Proof.
  split.
  - unfold load_manifest, one_entry_files. rewrite lookup_singleton_eq.
    by rewrite json_loads_dumps.
  - exists (<[manifest_path_of sample_args := FText []]> one_entry_files).
    split; [|split].
    + unfold save_manifest_states. apply list_elem_of_In, in_map_iff.
      exists 0%nat. split; [done|]. apply in_seq. lia.
    + apply lookup_insert_eq.
    + unfold load_manifest. by rewrite lookup_insert_eq.
Qed.

(** ** Report emitter and the report step of the run *)

Lemma last_os_path_join a b : b ≠ [] → last (os_path_join a b) = last b.
Proof.
  intros Hb. unfold os_path_join.
  assert (Hlast : ∀ x : pystr, last (x ++ b) = last b).
  { intros x. rewrite last_app. destruct (last b) eqn:Hl; [done|].
    by apply last_None in Hl. }
  destruct (bool_decide _); [done|].
  destruct (_ || _); [apply Hlast|].
  change (a ++ 47%N :: b) with (a ++ [47%N] ++ b). rewrite app_assoc. apply Hlast.
Qed.

Lemma os_path_join_inj dir a b :
  head a ≠ Some 47%N → head b ≠ Some 47%N →
  os_path_join dir a = os_path_join dir b → a = b.
Proof.
  intros Ha Hb. unfold os_path_join.
  rewrite (bool_decide_eq_false_2 _ Ha), (bool_decide_eq_false_2 _ Hb).
  destruct (_ || _); intros Heq; by simplify_list_eq.
Qed.

Lemma manifest_path_last args : last (manifest_path_of args) = Some 110%N.
Proof.
  unfold manifest_path_of.
  rewrite last_os_path_join; [|by destruct (username args)].
  by rewrite !app_assoc, last_app.
Qed.

Lemma report_path_not_manifest args name :
  name ∈ [summary_name; new_ids_name; deleted_ids_name] →
  os_path_join (reports_dir_of args) name ≠ manifest_path_of args.
Proof.
  intros Hname Heq. apply (f_equal last) in Heq. rewrite manifest_path_last in Heq.
  repeat (apply elem_of_cons in Hname as [->|Hname];
          [by rewrite last_os_path_join in Heq|]).
  by apply elem_of_nil in Hname.
Qed.

Section ReportFacts.
Context `{PyRuntime} (w : World).

Lemma generate_reports_summary (reports_dir : pystr) (added removed : list value) (fs : filesystem) :
  (generate_reports w reports_dir added removed fs).1
    !! os_path_join reports_dir summary_name
  = Some (FText (summary_text w added removed).1).
Proof.
  unfold generate_reports. destruct (summary_text w added removed) as [text r].
  assert (Hne : ∀ name, name ∈ [new_ids_name; deleted_ids_name] →
    os_path_join reports_dir name ≠ os_path_join reports_dir summary_name).
  { intros name Hname Heq. apply os_path_join_inj in Heq.
    - subst. repeat (apply elem_of_cons in Hname as [Hname|Hname]; [done|]).
      by apply elem_of_nil in Hname.
    - repeat (apply elem_of_cons in Hname as [->|Hname]; [done|]).
      by apply elem_of_nil in Hname.
    - done. }
  destruct r; cbn [fst]; [|apply lookup_insert_eq..].
  destruct (write_each id_line added []) as [text1 r1].
  destruct r1; cbn [fst].
  - destruct (write_each id_line removed []) as [text2 r2]. cbn [fst].
    rewrite !lookup_insert_ne by (apply Hne; set_solver). apply lookup_insert_eq.
  - rewrite !lookup_insert_ne by (apply Hne; set_solver). apply lookup_insert_eq.
  - rewrite !lookup_insert_ne by (apply Hne; set_solver). apply lookup_insert_eq.
Qed.

Lemma generate_reports_complete (reports_dir : pystr) (added removed : list value) (fs fs' : filesystem) :
  generate_reports w reports_dir added removed fs = (fs', Ret tt) →
  fs' !! os_path_join reports_dir summary_name
    = Some (FText (summary_text w added removed).1) ∧
  fs' !! os_path_join reports_dir new_ids_name
    = Some (FText (write_each id_line added []).1) ∧
  fs' !! os_path_join reports_dir deleted_ids_name
    = Some (FText (write_each id_line removed []).1).
Proof.
  intros Hgen. split.
  { by rewrite <- (generate_reports_summary reports_dir added removed fs), Hgen. }
  unfold generate_reports in Hgen.
  destruct (summary_text w added removed) as [text r].
  destruct r as [[]| |]; [|done..].
  destruct (write_each id_line added []) as [text1 r1].
  destruct r1 as [[]| |]; [|done..].
  destruct (write_each id_line removed []) as [text2 r2].
  simplify_eq. cbn [fst]. split; [|apply lookup_insert_eq].
  rewrite lookup_insert_ne; [apply lookup_insert_eq|].
  intros Heq. by apply os_path_join_inj in Heq.
Qed.


End ReportFacts.


(** ** Asset pipeline: the pool phase *)

Lemma sum_alter {A} (g : A → nat) (f : A → A) i (l : list A) x :
  l !! i = Some x →
  (sum_list (map g (alter f i l)) + g x = sum_list (map g l) + g (f x))%nat.
Proof.
  revert i. induction l as [|y l IH]; intros [|i] Hi; simplify_eq/=; [lia|].
  specialize (IH i Hi). lia.
Qed.

Lemma tally_alter p i (ths : list (value * thread)) image_info t t' :
  ths !! i = Some (image_info, t) →
  (tally p (alter (λ it, (it.1, t')) i ths) + (if p t then 1 else 0)
   = tally p ths + (if p t' then 1 else 0))%nat.
Proof.
  intros Hi. unfold tally.
  by rewrite (sum_alter (λ it, if p it.2 then 1%nat else 0%nat) _ _ _ _ Hi).
Qed.

Lemma alter_fst i (ths : list (value * thread)) t' :
  (alter (λ it, (it.1, t')) i ths).*1 = ths.*1.
Proof.
  revert i. induction ths as [|y l IH]; intros [|i]; try done.
  cbn. f_equal. apply IH.
Qed.

(** When one thread holds the lock, no other thread is in its critical
    section. *)
Lemma critical_alone i j (ths : list (value * thread)) it jt :
  tally in_critical ths = 1%nat →
  ths !! i = Some it → in_critical it.2 = true →
  ths !! j = Some jt → i ≠ j → in_critical jt.2 = false.
Proof.
  unfold tally. revert i j. induction ths as [|y l IH]; intros [|i] [|j]; try done;
    simpl; intros Hsum Hi Hcrit Hj Hne; simplify_eq.
  - rewrite Hcrit in Hsum.
    assert (sum_list (map (λ it, if in_critical it.2 then 1 else 0) l) = 0)%nat as Hz by lia.
    clear -Hz Hj. revert j Hj. induction l as [|z l IH]; intros [|j] Hj; simplify_eq/=.
    + destruct (in_critical jt.2); [lia|done].
    + apply (IH ltac:(destruct (in_critical z.2); lia) j Hj).
  - destruct (in_critical jt.2) eqn:Hjt; [|done].
    assert (sum_list (map (λ it, if in_critical it.2 then 1 else 0) l) = 0)%nat as Hz by lia.
    clear -Hz Hi Hcrit. exfalso. revert i Hi.
    induction l as [|z l IH]; intros [|i] Hi; simplify_eq/=.
    + rewrite Hcrit in Hz. lia.
    + apply (IH ltac:(destruct (in_critical z.2); lia) i Hi).
  - apply (IH i j); try done; [|congruence]. destruct (in_critical y.2); [|done].
    exfalso.
    assert (sum_list (map (λ it, if in_critical it.2 then 1 else 0) l) = 0)%nat as Hz by lia.
    clear -Hz Hi Hcrit. revert i Hi.
    induction l as [|z l IH]; intros [|i] Hi; simplify_eq/=.
    + rewrite Hcrit in Hz. lia.
    + apply (IH ltac:(destruct (in_critical z.2); lia) i Hi).
Qed.

Section PoolFacts.
Context `{PyRuntime} (w : World) (output_path : pystr) (jpeg_quality : Z).

Lemma pool_inv_init (new_images : list value) (fs : filesystem) :
  pool_inv new_images (pool_init new_images fs).
Proof.
  unfold pool_inv, pool_init; cbn [threads count lock].
  assert (∀ p, p TStart = false →
            tally p (map (λ img, (img, TStart)) new_images) = 0%nat) as Htally.
  { intros p Hp. unfold tally. induction new_images as [|x l IH]; [done|].
    simpl. rewrite Hp. apply IH. }
  rewrite !Htally by done. split; [|split; [done|split; [done|]]].
  - clear Htally. induction new_images as [|x l IH]; [done|]. cbn. f_equal. apply IH.
  - clear Htally. induction new_images as [|x l IH]; cbn; constructor; done.
Qed.

Lemma tally_pos p i (ths : list (value * thread)) it :
  ths !! i = Some it → p it.2 = true → (1 ≤ tally p ths)%nat.
Proof.
  unfold tally. revert i. induction ths as [|y l IH]; intros [|i] Hi Hp; simplify_eq/=.
  - rewrite Hp. lia.
  - specialize (IH i Hi Hp). lia.
Qed.

(** A thread moves from [t] to [t']: what the new state must satisfy for
    the invariant to be kept. *)
Lemma pool_inv_update new_images st st' i image_info t t' :
  pool_inv new_images st →
  threads st !! i = Some (image_info, t) →
  threads st' = alter (λ it, (it.1, t')) i (threads st) →
  (count st' + (if incremented t then 1 else 0)
   = count st + (if incremented t' then 1 else 0))%Z →
  ((if lock st' then 1 else 0) + (if in_critical t then 1 else 0)
   = (if lock st then 1 else 0) + (if in_critical t' then 1 else 0))%nat →
  thread_ok (count st') image_info t' →
  count st' = count st ∨ in_critical t = true →
  pool_inv new_images st'.
Proof.
  intros (Hfst & Hcount & Hcrit & Hok) Hi Hths Hcnt Hlck Ht' Hothers.
  pose proof (tally_alter incremented i _ _ _ t' Hi) as Hinc.
  pose proof (tally_alter in_critical i _ _ _ t' Hi) as Hcr.
  unfold pool_inv. rewrite Hths. split; [by rewrite alter_fst|].
  split; [destruct (incremented t), (incremented t'); lia|].
  split; [destruct (lock st), (lock st'), (in_critical t), (in_critical t'); lia|].
  apply Forall_lookup. intros j [info' tj] Hj. cbn [fst snd].
  destruct (decide (i = j)) as [->|Hne].
  - rewrite list_lookup_alter_eq, Hi in Hj. by simplify_eq/=.
  - rewrite list_lookup_alter_ne in Hj by done.
    pose proof (proj1 (Forall_lookup _ _) Hok j _ Hj) as Htj. cbn [fst snd] in Htj.
    destruct Hothers as [Heq|Hin]; [by rewrite Heq|].
    pose proof (tally_pos in_critical i _ _ Hi Hin) as Hpos.
    assert (Hone : tally in_critical (threads st) = 1%nat) by (destruct (lock st); lia).
    pose proof (critical_alone i j _ _ _ Hone Hi Hin Hj Hne) as Hout.
    cbn [snd] in Hout. by destruct tj as [| | | | | |[]].
Qed.

(** Every step keeps the invariant. *)
Lemma pool_inv_step new_images i st :
  pool_inv new_images st → pool_inv new_images (step w output_path jpeg_quality i st).
Proof.
  intros Hinv. unfold step.
  destruct (threads st !! i) as [[image_info t]|] eqn:Hi; [|done].
  pose proof Hinv as (_ & _ & _ & Hok).
  pose proof (proj1 (Forall_lookup _ _) Hok i _ Hi) as Hti. cbn [fst snd] in Hti.
  destruct t as [|image_id image_url name|ok|ok|ok tmp|ok|r].
  - (* the check of the identifier and the address *)
    destruct image_info as [| | | | | |d];
      try (by eapply (pool_inv_update _ st _ i _ TStart (TDone (WRaised AttributeError)));
             [done..|by left]).
    destruct (negb (truthy (default VNone (dict_get (u "id") d))) ||
              negb (truthy (default VNone (dict_get (u "url") d)))) eqn:Hmissing.
    + eapply (pool_inv_update _ st _ i _ TStart (TDone WSkipped)); [done..| |by left].
      cbn. by destruct (truthy _), (truthy _).
    + eapply (pool_inv_update _ st _ i _ TStart (TFetch _ _ _)); [done..| |by left].
      cbn. by destruct (truthy _), (truthy _).
  - (* the body of the try *)
    destruct (fetch_convert_save _ _ _ _ _ _ _) as [[jpeg_filepath f]|].
    + by eapply (pool_inv_update _ st _ i _ (TFetch _ _ _) (TAcquire true));
        [done..|by left].
    + by eapply (pool_inv_update _ st _ i _ (TFetch _ _ _) (TAcquire false));
        [done..|by left].
  - (* entering the with block *)
    destruct (lock st) eqn:Hlock; [done|].
    eapply (pool_inv_update _ st _ i _ (TAcquire ok) (TRead ok)); [done..| | |by left];
      [by rewrite Hlock|done].
  - (* reading the counter *)
    by eapply (pool_inv_update _ st _ i _ (TRead ok) (TWrite ok (count st)));
      [done..|by left].
  - (* storing the counter *)
    destruct Hti as [Hcarries ->].
    by eapply (pool_inv_update _ st _ i _ (TWrite ok (count st)) (TRelease ok));
      [done|done|done|cbn; lia|done|done|by right].
  - (* leaving the with block *)
    pose proof Hinv as (_ & _ & Hcrit & _).
    pose proof (tally_pos in_critical i _ _ Hi eq_refl) as Hpos.
    destruct (lock st) eqn:Hlock; [|lia].
    eapply (pool_inv_update _ st _ i _ (TRelease ok) (TDone (if ok then WNone else WFailed)));
      [done|done|done|by destruct ok|by rewrite Hlock; destruct ok|by destruct ok|by left].
  - done.
Qed.

Lemma pool_inv_run new_images sched st :
  pool_inv new_images st → pool_inv new_images (run w output_path jpeg_quality sched st).
Proof.
  revert st. induction sched as [|i sched IH]; intros st Hst; [done|].
  apply IH. by apply pool_inv_step.
Qed.


(** *** The pool phase comes to an end *)

Lemma step_shape i st :
  match threads st !! i with
  | None => step w output_path jpeg_quality i st = st
  | Some (image_info, t) =>
      if blocked st t then step w output_path jpeg_quality i st = st
      else ∃ t', threads (step w output_path jpeg_quality i st)
                   = alter (λ it, (it.1, t')) i (threads st) ∧
                 (steps_left t' < steps_left t)%nat
  end.
Proof.
  unfold step. destruct (threads st !! i) as [[image_info t]|]; [|done].
  destruct t as [|image_id image_url name|ok|ok|ok tmp|ok|r]; cbn [blocked].
  - destruct image_info; try (eexists; split; [reflexivity|cbn; lia]).
    destruct (_ || _); eexists; (split; [reflexivity|cbn; lia]).
  - destruct (fetch_convert_save _ _ _ _ _ _ _) as [[? ?]|];
      eexists; (split; [reflexivity|cbn; lia]).
  - destruct (lock st); [done|]. eexists; split; [reflexivity|cbn; lia].
  - eexists; split; [reflexivity|cbn; lia].
  - eexists; split; [reflexivity|cbn; lia].
  - eexists; split; [reflexivity|cbn; lia].
  - done.
Qed.

Lemma step_length i st :
  length (threads (step w output_path jpeg_quality i st)) = length (threads st).
Proof.
  pose proof (step_shape i st) as Hshape.
  destruct (threads st !! i) as [[image_info t]|]; [|by rewrite Hshape].
  destruct (blocked st t); [by rewrite Hshape|].
  destruct Hshape as (t' & -> & _). apply length_alter.
Qed.

Lemma step_work_left i st :
  (work_left (step w output_path jpeg_quality i st) ≤ work_left st)%nat.
Proof.
  pose proof (step_shape i st) as Hshape.
  destruct (threads st !! i) as [[image_info t]|] eqn:Hi; [|by rewrite Hshape].
  destruct (blocked st t); [by rewrite Hshape|].
  destruct Hshape as (t' & Hths & Hlt). unfold work_left. rewrite Hths.
  pose proof (sum_alter (λ it : value * thread, steps_left it.2)
                (λ it, (it.1, t')) i _ _ Hi) as Hsum.
  cbn [snd] in Hsum. lia.
Qed.

Lemma run_cons i sched st :
  run w output_path jpeg_quality (i :: sched) st
  = run w output_path jpeg_quality sched (step w output_path jpeg_quality i st).
Proof. done. Qed.

Lemma run_app sched1 sched2 st :
  run w output_path jpeg_quality (sched1 ++ sched2) st
  = run w output_path jpeg_quality sched2 (run w output_path jpeg_quality sched1 st).
Proof. unfold run. apply foldl_app. Qed.

Lemma run_work_left sched st :
  (work_left (run w output_path jpeg_quality sched st) ≤ work_left st)%nat.
Proof.
  revert st. induction sched as [|i sched IH]; intros st; [done|]. rewrite run_cons.
  etransitivity; [apply IH|apply step_work_left].
Qed.

Lemma run_length sched st :
  length (threads (run w output_path jpeg_quality sched st)) = length (threads st).
Proof.
  revert st. induction sched as [|i sched IH]; intros st; [done|].
  by rewrite run_cons, IH, step_length.
Qed.

(** A pass over threads among which one can move makes progress. *)
Lemma run_progress sched st i image_info t :
  i ∈ sched → threads st !! i = Some (image_info, t) → blocked st t = false →
  (work_left (run w output_path jpeg_quality sched st) < work_left st)%nat.
Proof.
  revert st t. induction sched as [|j sched IH]; intros st t Hin Hi Hfree.
  { by apply elem_of_nil in Hin. }
  rewrite run_cons. pose proof (step_shape j st) as Hshape.
  pose proof (run_work_left sched (step w output_path jpeg_quality j st)) as Hle.
  destruct (threads st !! j) as [[info_j tj]|] eqn:Hj.
  - destruct (blocked st tj) eqn:Hblocked.
    + rewrite Hshape in *. apply elem_of_cons in Hin as [->|Hin]; [|by eapply IH].
      congruence.
    + destruct Hshape as (t' & Hths & Hlt).
      pose proof (sum_alter (λ it : value * thread, steps_left it.2)
                    (λ it, (it.1, t')) j _ _ Hj) as Hsum.
      cbn [snd] in Hsum. unfold work_left in *. rewrite Hths in Hle. lia.
  - rewrite Hshape in *. apply elem_of_cons in Hin as [->|Hin]; [congruence|].
    by eapply IH.
Qed.

(** As long as work is left, some thread can move. *)
Lemma pool_inv_enabled new_images st :
  pool_inv new_images st → (0 < work_left st)%nat →
  ∃ i image_info t, threads st !! i = Some (image_info, t) ∧ blocked st t = false.
Proof.
  intros (_ & _ & Hcrit & _) Hwork.
  destruct (lock st) eqn:Hlock.
  - (* the holder of the lock can move *)
    assert (∃ i it, threads st !! i = Some it ∧ in_critical it.2 = true)
      as (i & [info t] & Hi & Hin).
    { clear -Hcrit. unfold tally in Hcrit. induction (threads st) as [|y l IH]; [done|].
      cbn in Hcrit. destruct (in_critical y.2) eqn:Hy.
      - by exists 0%nat, y.
      - destruct (IH Hcrit) as (i & it & ? & ?). by exists (S i), it. }
    exists i, info, t. split; [done|]. by destruct t.
  - (* any thread that is not done can move *)
    assert (∃ i it, threads st !! i = Some it ∧ is_done it.2 = false)
      as (i & [info t] & Hi & Hnot).
    { clear -Hwork. unfold work_left in Hwork.
      induction (threads st) as [|y l IH]; [cbn in Hwork; lia|].
      cbn in Hwork. destruct (is_done y.2) eqn:Hy.
      - destruct y as [? []]; try done. cbn in Hwork.
        destruct (IH Hwork) as (i & it & ? & ?). by exists (S i), it.
      - by exists 0%nat, y. }
    exists i, info, t. split; [done|]. by destruct t.
Qed.

Lemma work_left_done st : work_left st = 0%nat → all_done st = true.
Proof.
  unfold work_left, all_done. induction (threads st) as [|[info t] l IH]; [done|].
  cbn. intros Hz. destruct t; cbn in Hz; try lia. by apply IH.
Qed.

Lemma rounds_work_left new_images n sched st :
  pool_inv new_images st →
  (∀ i, i < length (threads st) → i ∈ sched)%nat →
  (work_left (run w output_path jpeg_quality (concat (replicate n sched)) st)
   ≤ work_left st - n)%nat.
Proof.
  revert st. induction n as [|n IH]; intros st Hinv Hsched.
  { cbn. lia. }
  cbn [replicate concat]. rewrite run_app.
  set (st' := run w output_path jpeg_quality sched st).
  assert (Hinv' : pool_inv new_images st') by by apply pool_inv_run.
  assert (Hlen : length (threads st') = length (threads st)) by apply run_length.
  specialize (IH st' Hinv' ltac:(by rewrite Hlen)).
  destruct (decide (work_left st = 0%nat)) as [Hz|Hnz].
  - pose proof (run_work_left sched st). fold st' in H0. lia.
  - destruct (pool_inv_enabled _ _ Hinv ltac:(lia)) as (i & info & t & Hi & Hfree).
    pose proof (run_progress sched st i info t
      (Hsched i (lookup_lt_Some _ _ _ Hi)) Hi Hfree) as Hlt.
    fold st' in Hlt. lia.
Qed.

Lemma work_left_init (new_images : list value) (fs : filesystem) :
  work_left (pool_init new_images fs) = (6 * length new_images)%nat.
Proof.
  unfold work_left, pool_init. cbn [threads].
  induction new_images as [|x l IH]; [done|]. cbn [map sum_list length snd steps_left].
  rewrite IH. unfold id. lia.
Qed.

Lemma pool_phase_done (new_images : list value) (fs : filesystem) :
  pool_inv new_images (pool_phase w output_path jpeg_quality new_images fs) ∧
  all_done (pool_phase w output_path jpeg_quality new_images fs) = true.
Proof.
  unfold pool_phase.
  set (st := run w output_path jpeg_quality (schedule w) (pool_init new_images fs)).
  assert (Hinv : pool_inv new_images st) by apply pool_inv_run, pool_inv_init.
  split; [by apply pool_inv_run|]. apply work_left_done.
  pose proof (rounds_work_left new_images (6 * length new_images) (round st) st Hinv) as Hle.
  pose proof (run_work_left (schedule w) (pool_init new_images fs)) as Hst. fold st in Hst.
  rewrite work_left_init in Hst.
  assert (∀ i, i < length (threads st) → i ∈ round st)%nat as Hround.
  { intros i Hi. apply elem_of_seq. lia. }
  specialize (Hle Hround). lia.
Qed.


End PoolFacts.

(** ** Asset pipeline: one unit of work *)

Section UnitFacts.
Context `{PyRuntime} (w : World).


End UnitFacts.


(** ** Archiver *)

Lemma zip_members_spec (fs : filesystem) (source_dir : pystr) (files_to_zip : list pystr)
    (filename : pystr) (f : file) :
  (filename, f) ∈ zip_members fs source_dir files_to_zip ↔
  filename ∈ files_to_zip ∧ fs !! os_path_join source_dir filename = Some f.
Proof.
  induction files_to_zip as [|x l IH]; simpl.
  - split; [by intros ?%elem_of_nil | by intros [?%elem_of_nil _]].
  - destruct (fs !! os_path_join source_dir x) as [fx|] eqn:Hx.
    + rewrite !elem_of_cons, IH. split.
      * intros [[= -> ->]|[? ?]]; auto.
      * intros [[->|?] ?]; [left; congruence | right; done].
    + rewrite elem_of_cons, IH. split.
      * intros [? ?]; auto.
      * intros [[->|?] ?]; [congruence | done].
Qed.

(** The archive holds the listed files that exist, once each, in the order
    of the list; a listed name without a file is passed over. *)
Lemma create_zip_archive_spec (source_dir zip_filepath : pystr)
    (files_to_zip : list pystr) (fs : filesystem) :
  create_zip_archive source_dir zip_filepath files_to_zip fs !! zip_filepath
    = Some (FZip (zip_members fs source_dir files_to_zip)) ∧
  (zip_members fs source_dir files_to_zip).*1
    = filter (λ name, is_Some (fs !! os_path_join source_dir name)) files_to_zip ∧
  (∀ path, path ≠ zip_filepath →
     create_zip_archive source_dir zip_filepath files_to_zip fs !! path = fs !! path).
Proof.
  split; [apply lookup_insert_eq|]. split.
  - induction files_to_zip as [|x l IH]; [done|]. simpl. rewrite filter_cons.
    destruct (fs !! os_path_join source_dir x) as [fx|] eqn:Hx.
    + rewrite decide_True by eauto. cbn. by rewrite IH.
    + rewrite decide_False by (by intros [? ?]). done.
  - intros path Hpath. by apply lookup_insert_ne.
Qed.

(** C2, at the failing input: of two new images the download of one fails
    and the other, which has no [username] field, downloads and is saved as
    [unknown_2.jpeg]; the main loop then raises [KeyError] on
    [img_data['username']] and catches it, so the success list stays empty
    and the run ends without an archive, the saved image removed with the
    working area and both images recorded in the manifest. *)
Theorem unit_without_username_not_archived :
  let st := pool_phase (H := sample_runtime) two_images_world
              (temp_download_dir_of sample_args) 85 [image_b; image_a] ∅ in
  let final := main (H := sample_runtime) two_images_world 3 sample_args ∅ in
  let saved := os_path_join (temp_download_dir_of sample_args) (u "unknown_2.jpeg") in
  threads st = [(image_b, TDone WNone); (image_a, TDone WFailed)] ∧
  files st !! saved = Some (FJpeg (Decoded (u "RGB") [66%N]) 85) ∧
  collect (H := sample_runtime) (threads st) (completed st) [] = Ret [] ∧
  final.2 = Ret tt ∧
  final.1 !! zip_filepath_of two_images_world sample_args = None ∧
  final.1 !! saved = None ∧
  load_manifest (H := sample_runtime) (manifest_path_of sample_args) final.1
    = Ret (VDict [(u "1", image_a); (u "2", image_b)]).
Proof. cbv zeta. repeat split; vm_compute; reflexivity. Qed.

(** * Further properties of the code *)

(** ** The current catalog: the dictionary built from the crawled list *)

Lemma dict_get_set_eq k v (d : dict) : dict_get k (dict_set k v d) = Some v.
Proof.
  induction d as [|[k' v'] d IH]; simpl; [by rewrite decide_True|].
  destruct (decide (k' = k)) as [->|Hne]; simpl; [by rewrite decide_True|].
  by rewrite decide_False.
Qed.

Lemma dict_get_set_ne k k' v (d : dict) :
  k ≠ k' → dict_get k' (dict_set k v d) = dict_get k' d.
Proof.
  intros Hne. induction d as [|[k0 v0] d IH]; simpl; [by rewrite decide_False|].
  destruct (decide (k0 = k)) as [->|Hk0]; simpl.
  - by rewrite !decide_False.
  - destruct (decide (k0 = k')); [done | apply IH].
Qed.

Lemma dict_set_keys k v (d : dict) :
  (dict_set k v d).*1 = if decide (k ∈ d.*1) then d.*1 else d.*1 ++ [k].
Proof.
  induction d as [|[k0 v0] d IH]; csimpl; [done|].
  destruct (decide (k0 = k)) as [->|Hk0]; csimpl.
  - rewrite decide_True; [done | left].
  - rewrite IH. destruct (decide (k ∈ d.*1)) as [Hin|Hnin].
    + rewrite decide_True; [done | by right].
    + rewrite decide_False; [done|]. by intros [?|?]%elem_of_cons.
Qed.

Lemma dict_set_NoDup k v (d : dict) : NoDup d.*1 → NoDup (dict_set k v d).*1.
Proof.
  intros Hd. rewrite dict_set_keys. case_decide; [done|].
  apply NoDup_app. split; [done|]. split; [|apply NoDup_singleton].
  intros x Hx ->%list_elem_of_singleton. done.
Qed.

Lemma dict_set_length k v (d : dict) : (length (dict_set k v d) ≤ S (length d))%nat.
Proof.
  induction d as [|[k0 v0] d IH]; simpl; [lia|]. case_decide; simpl; lia.
Qed.

Section CatalogFacts.
Context `{PyRuntime}.

Lemma images_map_get (l : list value) (acc m : dict) (k : pystr) :
  images_map l acc = Ret m →
  (∀ l1 img l2 i, l = l1 ++ img :: l2 → py_index img (u "id") = Ret i → py_str i = k →
     (∀ img' i', img' ∈ l2 → py_index img' (u "id") = Ret i' → py_str i' ≠ k) →
     dict_get k m = Some img) ∧
  ((∀ img i, img ∈ l → py_index img (u "id") = Ret i → py_str i ≠ k) →
     dict_get k m = dict_get k acc).
Proof.
  revert acc. induction l as [|img0 rest IH]; intros acc Hmap.
  { simpl in Hmap. simplify_eq. split; [|done]. by intros [|??] ???. }
  simpl in Hmap. destruct (py_index img0 (u "id")) as [i0| |] eqn:Hi0; simpl in Hmap; [|done..].
  destruct (IH _ Hmap) as [IHlast IHnone]. split.
  - intros [|x l1] img l2 i Heq Hi Hk Hlater; simpl in Heq; injection Heq as -> ->.
    + rewrite IHnone by done. rewrite Hi in Hi0. injection Hi0 as <-.
      rewrite Hk. apply dict_get_set_eq.
    + by eapply IHlast.
  - intros Hnone. rewrite IHnone.
    + apply dict_get_set_ne. eapply Hnone; [left | done].
    + intros img i Himg. apply Hnone. by right.
Qed.

Lemma images_map_inv (l : list value) (acc m : dict) :
  images_map l acc = Ret m →
  NoDup acc.*1 → catalog_ok acc →
  NoDup m.*1 ∧ catalog_ok m ∧ (length m ≤ length acc + length l)%nat ∧
  (∀ k, k ∈ m.*1 ↔
     k ∈ acc.*1 ∨ ∃ img i, img ∈ l ∧ py_index img (u "id") = Ret i ∧ py_str i = k).
Proof.
  revert acc. induction l as [|img0 rest IH]; intros acc Hmap Hnd Hok.
  { simpl in Hmap. simplify_eq. repeat split; [done|done|simpl; lia|by left|].
    by intros [?|(? & ? & ?%elem_of_nil & _)]. }
  simpl in Hmap. destruct (py_index img0 (u "id")) as [i0| |] eqn:Hi0; simpl in Hmap; [|done..].
  destruct (IH _ Hmap) as (Hnd' & Hok' & Hlen & Hkeys).
  { by apply dict_set_NoDup. }
  { intros k e. destruct (decide (py_str i0 = k)) as [<-|Hne].
    - rewrite dict_get_set_eq. intros [= <-]. eauto.
    - rewrite dict_get_set_ne by done. apply Hok. }
  split; [done|]. split; [done|]. split.
  { pose proof (dict_set_length (py_str i0) img0 acc). simpl. lia. }
  intros k. rewrite Hkeys, dict_set_keys. split.
  - intros [Hk|(img & i & Himg & Hi & Hk)].
    + case_decide; [by left|]. apply elem_of_app in Hk as [?|Hk]; [by left|].
      apply list_elem_of_singleton in Hk as ->.
      right. exists img0, i0. split; [left | done].
    + right. exists img, i. split; [by right | done].
  - intros [Hk|(img & i & [->|Himg]%elem_of_cons & Hi & Hk)].
    + left. case_decide; [done|]. apply elem_of_app. by left.
    + left. rewrite Hi in Hi0. injection Hi0 as <-. subst k.
      case_decide; [done|]. apply elem_of_app. right. by left.
    + right. eauto.
Qed.

Lemma images_map_raises (l1 : list value) (img : value) (l2 : list value) (acc : dict) (e : exn) :
  Forall (λ x, ∃ i, py_index x (u "id") = Ret i) l1 →
  py_index img (u "id") = Raise e →
  images_map (l1 ++ img :: l2) acc = Raise e.
Proof.
  intros Hl1. revert acc. induction Hl1 as [|x l1 [i Hi] _ IH]; intros acc Himg; simpl.
  - by rewrite Himg.
  - rewrite Hi. simpl. by apply IH.
Qed.

(** X1: the current catalog files every crawled item under the text of its
    identifier; when several items have the same identifier text the last
    one is kept, so the catalog has distinct keys, at most one entry per
    item, and exactly the identifier texts of the items as its keys. *)
Theorem images_map_last_wins (l : list value) (m : dict) :
  images_map l [] = Ret m →
  NoDup m.*1 ∧ catalog_ok m ∧ (length m ≤ length l)%nat ∧
  (∀ k, k ∈ key_set m ↔
     ∃ img i, img ∈ l ∧ py_index img (u "id") = Ret i ∧ py_str i = k) ∧
  (∀ l1 img l2 i, l = l1 ++ img :: l2 → py_index img (u "id") = Ret i →
     (∀ img' i', img' ∈ l2 → py_index img' (u "id") = Ret i' → py_str i' ≠ py_str i) →
     dict_get (py_str i) m = Some img).
Proof.
  intros Hmap.
  destruct (images_map_inv l [] m Hmap) as (Hnd & Hok & Hlen & Hkeys);
    [constructor | by intros ?? | ].
  split; [done|]. split; [done|]. split; [done|]. split.
  - intros k. unfold key_set. rewrite elem_of_list_to_set, Hkeys. split.
    + by intros [?%elem_of_nil|?].
    + by right.
  - intros l1 img l2 i Hl Hi Hlater.
    by eapply (proj1 (images_map_get l [] m (py_str i) Hmap)).
Qed.

End CatalogFacts.

Lemma images_map_last_wins_witness :
  images_map (H := sample_runtime) [image_a; image_b; image_a_again] []
    = Ret [(u "1", image_a_again); (u "2", image_b)] ∧
  dict_get (u "1") [(u "1", image_a_again); (u "2", image_b)] = Some image_a_again.
Proof.
  split; [reflexivity|].
  pose proof (images_map_last_wins (H := sample_runtime) [image_a; image_b; image_a_again]
                [(u "1", image_a_again); (u "2", image_b)] eq_refl) as (_ & _ & _ & _ & Hlast).
  apply (Hlast [image_a; image_b] image_a_again [] (VStr (u "1")) eq_refl eq_refl).
  intros img' i' Himg'. by apply elem_of_nil in Himg'.
Defined.

(** ** The manifest path: one file per creator, filter level and sort order *)

Lemma app_cons_first_unique (c : N) (a1 b1 a2 b2 : pystr) :
  c ∉ a1 → c ∉ a2 → a1 ++ c :: b1 = a2 ++ c :: b2 → a1 = a2 ∧ b1 = b2.
Proof.
  revert a2. induction a1 as [|x a1 IH]; intros [|y a2] H1 H2 Heq; simplify_eq/=.
  - done.
  - destruct H2. left.
  - destruct H1. left.
  - destruct (IH a2) as [-> ->]; [| |done..].
    + intros ?. apply H1. by right.
    + intros ?. apply H2. by right.
Qed.

Lemma app_cons_last_unique (c : N) (a1 b1 a2 b2 : pystr) :
  c ∉ b1 → c ∉ b2 → a1 ++ c :: b1 = a2 ++ c :: b2 → a1 = a2 ∧ b1 = b2.
Proof.
  intros H1 H2 Heq. apply (f_equal reverse) in Heq.
  rewrite !reverse_app, !reverse_cons, <- !app_assoc in Heq. simpl in Heq.
  apply app_cons_first_unique in Heq as [Hb Ha].
  - split; [by apply (inj reverse) | by apply (inj reverse)].
  - by rewrite elem_of_reverse.
  - by rewrite elem_of_reverse.
Qed.

Lemma os_path_join_same_head dir (a b : pystr) :
  head a = head b → os_path_join dir a = os_path_join dir b → a = b.
Proof.
  intros Hhead. unfold os_path_join. rewrite Hhead.
  destruct (bool_decide (head b = Some 47%N)); [done|].
  destruct (_ || _); intros Heq; by simplify_list_eq.
Qed.

(** X2: the manifest path tells the creator, the filter level and the sort
    order apart: for one output directory, a creator name that does not
    start with a slash, and filter levels and sort orders without an
    underscore (as the command line admits them), two runs use the same
    manifest file only if all three settings are the same. *)
Theorem manifest_path_partitions (a b : Args) :
  output_dir a = output_dir b →
  head (username a) ≠ Some 47%N → head (username b) ≠ Some 47%N →
  95%N ∉ nsfw a → 95%N ∉ sort a → 95%N ∉ nsfw b → 95%N ∉ sort b →
  manifest_path_of a = manifest_path_of b →
  username a = username b ∧ nsfw a = nsfw b ∧ sort a = sort b.
Proof.
  intros Hdir Ha Hb Hna Hsa Hnb Hsb. unfold manifest_path_of. rewrite Hdir.
  assert (Hshape : ∀ x n s : pystr,
    x ++ u "_" ++ n ++ u "_" ++ s ++ u "_manifest.json"
    = ((x ++ 95%N :: n) ++ 95%N :: s) ++ u "_manifest.json").
  { intros x n s. by rewrite <- !app_assoc. }
  rewrite !Hshape. intros Heq. apply os_path_join_inj in Heq.
  - apply app_inv_tail in Heq.
    apply app_cons_last_unique in Heq as [Heq ->]; [|done..].
    apply app_cons_last_unique in Heq as [-> ->]; done.
  - by destruct (username a).
  - by destruct (username b).
Qed.

Lemma manifest_path_partitions_witness :
  username sample_args = username sample_args ∧ nsfw sample_args = nsfw sample_args ∧
  sort sample_args = sort sample_args.
Proof.
  apply (manifest_path_partitions sample_args sample_args eq_refl);
    try discriminate; try reflexivity;
    intros Hin; vm_compute in Hin; by repeat (apply elem_of_cons in Hin as [?|Hin]; [done|]);
    apply elem_of_nil in Hin.
Defined.

(** ** The run: what a failure of the crawl or of the reports does to it *)

Lemma py_index_dict (x : value) (k1 : pystr) (i : value) (k : pystr) :
  py_index x k1 = Ret i → (∃ v, py_index x k = Ret v) ∨ py_index x k = Raise (KeyError k).
Proof.
  destruct x as [| | | | | |d]; simpl; try done. intros _.
  destruct (dict_get k d); eauto.
Qed.

Lemma write_each_first_error (line : value → outcome pystr) (e : exn) (items : list value)
    (text : pystr) :
  Forall (λ x, (∃ l, line x = Ret l) ∨ line x = Raise e) items →
  Exists (λ x, line x = Raise e) items →
  ∃ text', write_each line items text = (text', Raise e).
Proof.
  intros Hall. revert text. induction Hall as [|x items Hx _ IH]; intros text Hex.
  - by apply Exists_nil in Hex.
  - simpl. destruct Hx as [[l Hl]|Hx].
    + rewrite Hl. apply IH. apply Exists_cons in Hex as [Hex|Hex]; [congruence | done].
    + rewrite Hx. eauto.
Qed.


Section RunFailures.
Context `{PyRuntime} (w : World).



Lemma compare_catalogs_inv (fuel : nat) (args : Args) (fs : filesystem) (m : dict)
    (d : DiffResult) :
  compare_catalogs w fuel args fs = Ret (m, d) →
  ∃ old l,
    load_manifest (manifest_path_of args) fs = Ret (VDict old) ∧
    fetch_all_image_metadata w (api_params_of args) fuel = Ret l ∧
    images_map l [] = Ret m ∧
    diff old m = Ret d.
Proof.
  unfold compare_catalogs. intros Hcompare.
  destruct (load_manifest _ fs) as [[| | | | | |old]| |] eqn:Hload; simpl in Hcompare; try done.
  destruct (fetch_all_image_metadata _ _ _) as [l| |] eqn:Hfetch; simpl in Hcompare; try done.
  destruct (images_map l []) as [m'| |] eqn:Hmap; simpl in Hcompare; try done.
  destruct (diff old m') as [d'| |] eqn:Hdiff; simpl in Hcompare; try done.
  simplify_eq. by exists old, l.
Qed.

Lemma compare_catalogs_new (fuel : nat) (args : Args) (fs : filesystem) (m : dict)
    (d : DiffResult) :
  compare_catalogs w fuel args fs = Ret (m, d) →
  NoDup m.*1 ∧ catalog_ok m ∧
  Forall2 (λ k v, dict_get k m = Some v) (elements (new_image_ids d)) (new_images d) ∧
  new_image_ids d ⊆ key_set m.
Proof.
  intros (old & l & Hload & Hfetch & Hmap & Hdiff)%compare_catalogs_inv.
  destruct (images_map_inv l [] m Hmap) as (Hnd & Hok & _); [constructor | by intros ?? |].
  destruct (diff_returns old m) as (d' & Hd' & Hnew & _ & Hadded & _).
  rewrite Hdiff in Hd'. injection Hd' as <-.
  split; [done|]. split; [done|]. split; [done|]. rewrite Hnew. set_solver.
Qed.

(** X3: an item of the crawled list that has no [id] stops the run when the
    current catalog is built: [KeyError] for an object without the key,
    [TypeError] for an item that is not an object; no file has been written
    by then. *)
Theorem item_without_id_aborts_run (fuel : nat) (args : Args) (fs : filesystem)
    (old : dict) (l1 : list value) (img : value) (l2 : list value) (e : exn) :
  load_manifest (manifest_path_of args) fs = Ret (VDict old) →
  fetch_all_image_metadata w (api_params_of args) fuel = Ret (l1 ++ img :: l2) →
  Forall (λ x, ∃ i, py_index x (u "id") = Ret i) l1 →
  py_index img (u "id") = Raise e →
  main w fuel args fs = (fs, Raise e) ∧ (e = KeyError (u "id") ∨ e = TypeError).
Proof.
  intros Hload Hfetch Hl1 Himg. split.
  - unfold main, compare_catalogs. rewrite Hload. simpl. rewrite Hfetch. simpl.
    by rewrite (images_map_raises l1 img l2 [] e Hl1 Himg).
  - destruct img as [| | | | | |d]; simpl in Himg; simplify_eq; auto.
    destruct (dict_get (u "id") d); simplify_eq. auto.
Qed.

(** X4: a page whose body is JSON text but not an object is not treated as
    a failed request: [data.get] raises [AttributeError], which the loop does
    not catch, so the crawl raises instead of returning the pages fetched so
    far, and the run stops with every file as it was. *)
Theorem page_not_object_aborts_run (fuel : nat) (args : Args) (fs : filesystem)
    (old : dict) (pages : list (list value)) (url : value) (first : bool)
    (status_code : Z) (text : pystr) (content : list N) (data : value) :
  load_manifest (manifest_path_of args) fs = Ret (VDict old) →
  crawled w (api_params_of args) pages url first →
  truthy url = true →
  requests_get w (length pages) url (if first then Some (api_params_of args) else None)
    = Response status_code text content →
  raises_for_status status_code = false →
  json_loads text = Some data →
  (∀ d, data ≠ VDict d) →
  (length pages < fuel)%nat →
  fetch_all_image_metadata w (api_params_of args) fuel = Raise AttributeError ∧
  main w fuel args fs = (fs, Raise AttributeError).
Proof.
  intros Hload Hpages Hurl Hget Hstatus Hjson Hdata Hfuel.
  assert (Hfetch : fetch_all_image_metadata w (api_params_of args) fuel = Raise AttributeError).
  { replace fuel with (length pages + S (fuel - S (length pages)))%nat by lia.
    rewrite (crawl_reaches _ _ _ _ _ Hpages).
    by eapply crawl_body_not_object. }
  split; [done|]. unfold main, compare_catalogs. rewrite Hload. simpl. by rewrite Hfetch.
Qed.


(** X6: an added entry without a [url] stops the run in the report step
    with [KeyError], although the worker would only have skipped it: by then
    the summary has been written as far as the entry before it, and nothing
    else -- no identifier list, no download, no archive, and the manifest is
    as it was. *)
Theorem entry_without_url_aborts_run (fuel : nat) (args : Args) (fs : filesystem)
    (m : dict) (d : DiffResult) (img : value) :
  compare_catalogs w fuel args fs = Ret (m, d) →
  img ∈ new_images d →
  py_index img (u "url") = Raise (KeyError (u "url")) →
  (main w fuel args fs).2 = Raise (KeyError (u "url")) ∧
  (∀ path, path ≠ os_path_join (reports_dir_of args) summary_name →
     (main w fuel args fs).1 !! path = fs !! path).
Proof.
  intros Hcompare Himg Hurl.
  destruct (compare_catalogs_new fuel args fs m d Hcompare) as (_ & Hok & Hadded & _).
  assert (Hids : ∀ x, x ∈ new_images d → ∃ i, py_index x (u "id") = Ret i).
  { intros x (k & _ & Hk)%(Forall2_lookup_elem_of _ _ _ _ Hadded).
    destruct (Hok _ _ Hk) as (i & Hi & _). eauto. }
  assert (Hlines : Forall (λ x, (∃ l, new_line x = Ret l) ∨
                                new_line x = Raise (KeyError (u "url"))) (new_images d)).
  { apply Forall_forall. intros x [i Hi]%Hids. unfold new_line. rewrite Hi. simpl.
    destruct (py_index_dict x _ i (u "url") Hi) as [[v ->]| ->]; simpl; eauto. }
  assert (Hbad : Exists (λ x, new_line x = Raise (KeyError (u "url"))) (new_images d)).
  { apply Exists_exists. exists img. split; [done|].
    destruct (Hids _ Himg) as [i Hi]. unfold new_line. rewrite Hi. simpl. by rewrite Hurl. }
  assert (Hgen : ∃ text,
    generate_reports w (reports_dir_of args) (new_images d) (deleted_images_data d) fs
    = (<[os_path_join (reports_dir_of args) summary_name := FText text]> fs,
       Raise (KeyError (u "url")))).
  { unfold generate_reports, summary_text. cbv zeta.
    destruct (new_images d) as [|x added] eqn:Hnew; [by apply elem_of_nil in Himg|].
    match goal with
    | |- context [write_each new_line ?l ?t] =>
        destruct (write_each_first_error new_line _ l t Hlines Hbad) as [text ->]
    end.
    by exists text. }
  destruct Hgen as [text Hgen]. unfold main, report_step. rewrite Hcompare.
  destruct (new_images d) as [|x added] eqn:Hnew; [by apply elem_of_nil in Himg|].
  cbn [non_empty orb]. rewrite Hgen. cbn [fst snd]. split; [done|].
  intros path Hpath. by apply lookup_insert_ne.
Qed.

End RunFailures.

Lemma item_without_id_aborts_run_witness :
  main (H := sample_runtime) (constant_world (one_page [image_a; image_no_id])) 3
       sample_args ∅
    = (∅, Raise (KeyError (u "id"))) ∧
  (KeyError (u "id") = KeyError (u "id") ∨ KeyError (u "id") = TypeError).
Proof.
  apply (item_without_id_aborts_run (H := sample_runtime)
           (constant_world (one_page [image_a; image_no_id])) 3 sample_args ∅
           [] [image_a] image_no_id []).
  - reflexivity.
  - vm_compute; reflexivity.
  - repeat constructor. by eexists.
  - reflexivity.
Defined.

Lemma page_not_object_aborts_run_witness :
  fetch_all_image_metadata (H := sample_runtime) (constant_world (u "[]"))
    (api_params_of sample_args) 3 = Raise AttributeError ∧
  main (H := sample_runtime) (constant_world (u "[]")) 3 sample_args ∅
    = (∅, Raise AttributeError).
Proof.
  apply (page_not_object_aborts_run (H := sample_runtime) (constant_world (u "[]")) 3
           sample_args ∅ [] [] (VStr API_BASE_URL) true 200 (u "[]") [] (VList [])).
  - reflexivity.
  - constructor.
  - reflexivity.
  - reflexivity.
  - reflexivity.
  - reflexivity.
  - discriminate.
  - simpl. lia.
Defined.


Lemma entry_without_url_aborts_run_witness :
  (main (H := sample_runtime) (constant_world (one_page [image_no_url])) 3 sample_args ∅).2
    = Raise (KeyError (u "url")) ∧
  (∀ path, path ≠ os_path_join (reports_dir_of sample_args) summary_name →
     (main (H := sample_runtime) (constant_world (one_page [image_no_url])) 3
        sample_args ∅).1 !! path = (∅ : filesystem) !! path).
Proof.
  eapply (entry_without_url_aborts_run (H := sample_runtime)
            (constant_world (one_page [image_no_url])) 3 sample_args ∅ _ _ image_no_url).
  - vm_compute; reflexivity.
  - left.
  - reflexivity.
Defined.

(** ** Asset pipeline: the pool phase against the units run one by one *)

Lemma lookup_alter_thread (i j : nat) (ths : list (value * thread)) (image_info : value)
    (t t' : thread) :
  ths !! i = Some (image_info, t) →
  alter (λ it, (it.1, t')) i ths !! j
  = if decide (i = j) then Some (image_info, t') else ths !! j.
Proof.
  intros Hi. case_decide as Hij.
  - subst j. by rewrite list_lookup_alter_eq, Hi.
  - by rewrite list_lookup_alter_ne.
Qed.


Section UnitPoolFacts.
Context `{PyRuntime} (w : World) (output_path : pystr) (jpeg_quality : Z).

Lemma step_cases (i : nat) (st : pool) (image_info : value) (t : thread) :
  threads st !! i = Some (image_info, t) →
  step w output_path jpeg_quality i st = st ∨
  ∃ t', threads (step w output_path jpeg_quality i st)
          = alter (λ it, (it.1, t')) i (threads st) ∧
        total (step w output_path jpeg_quality i st) = total st ∧
        step_effect w output_path jpeg_quality i image_info t t' st
          (step w output_path jpeg_quality i st).
Proof.
  intros Hi. unfold step. rewrite Hi.
  destruct t as [|image_id image_url name|ok|ok|ok tmp|ok|r].
  - right. destruct image_info as [| | | | | |d];
      try (eexists (TDone _); split; [reflexivity|]; split; [reflexivity|]; by cbn).
    destruct (negb (truthy (default VNone (dict_get (u "id") d))) ||
              negb (truthy (default VNone (dict_get (u "url") d)))) eqn:Hmissing.
    + eexists (TDone _). split; [reflexivity|]. split; [reflexivity|].
      cbn [step_effect download_and_convert_image]. by rewrite Hmissing.
    + eexists (TFetch _ _ _). split; [reflexivity|]. split; [reflexivity|].
      split; [|done]. by exists d.
  - right.
    destruct (fetch_convert_save _ _ _ _ _ _ _) as [[jpeg_filepath f]|] eqn:Hsave.
    + eexists (TAcquire true). split; [reflexivity|]. split; [reflexivity|].
      split; [|done]. intros (d & -> & -> & -> & -> & Hcomplete).
      cbn [thread_agrees download_and_convert_image]. by rewrite Hcomplete, Hsave.
    + eexists (TAcquire false). split; [reflexivity|]. split; [reflexivity|].
      split; [|done]. intros (d & -> & -> & -> & -> & Hcomplete).
      cbn [thread_agrees download_and_convert_image]. by rewrite Hcomplete, Hsave.
  - destruct (lock st); [by left|]. right.
    eexists (TRead ok). by split; [reflexivity|]; split; [reflexivity|].
  - right. eexists (TWrite ok _). by split; [reflexivity|]; split; [reflexivity|].
  - right. eexists (TRelease ok). by split; [reflexivity|]; split; [reflexivity|].
  - right. eexists (TDone _). by split; [reflexivity|]; split; [reflexivity|].
  - by left.
Qed.

Lemma step_effect_summary (i : nat) (image_info : value) (t t' : thread) (st st' : pool) :
  thread_agrees w output_path jpeg_quality i image_info t →
  step_effect w output_path jpeg_quality i image_info t t' st st' →
  thread_agrees w output_path jpeg_quality i image_info t' ∧
  is_done t = false ∧
  completed st' = (if is_done t' then completed st ++ [i] else completed st) ∧
  (past_fetch t = true → past_fetch t' = true) ∧
  files st' =
    (if negb (past_fetch t) && past_fetch t'
     then match (download_and_convert_image w output_path jpeg_quality i image_info).2 with
          | Some (path, f) => <[path := f]> (files st)
          | None => files st
          end
     else files st).
Proof.
  intros Ht Heffect.
  destruct t as [|a b c|ok|ok|ok tmp|ok|r], t' as [|a' b' c'|ok'|ok'|ok' tmp'|ok'|r'];
    cbn [step_effect] in Heffect; try done.
  - by destruct Heffect as (? & -> & ->).
  - destruct Heffect as (-> & Hnone & -> & ->). cbn. by rewrite Hnone.
  - destruct Heffect as [Hfetch ->]. by destruct (Hfetch Ht) as [? ->].
  - by destruct Heffect as (-> & -> & ->).
  - by destruct Heffect as (-> & -> & ->).
  - by destruct Heffect as (-> & -> & ->).
  - destruct Heffect as (-> & -> & ->). cbn in *. by rewrite Ht.
Qed.

Lemma unit_inv_init (new_images : list value) (fs : filesystem) :
  unit_inv w output_path jpeg_quality new_images fs (pool_init new_images fs).
Proof.
  assert (Hstart : ∀ i image_info t,
    threads (pool_init new_images fs) !! i = Some (image_info, t) → t = TStart).
  { intros i image_info t Hi. cbn [threads pool_init] in Hi.
    apply list_lookup_fmap_Some in Hi as (img & ? & ?). by simplify_eq. }
  split; [|split; [done|]; split; [|split; [constructor|]; split]].
  - cbn [threads pool_init]. rewrite <- list_fmap_compose. apply list_fmap_id.
  - intros i image_info t Hi. by rewrite (Hstart _ _ _ Hi).
  - intros i. split; [by intros ?%elem_of_nil|].
    intros (image_info & r & Hi). by apply Hstart in Hi.
  - intros path. left. split; [done|]. intros j image_info t f Hj.
    by rewrite (Hstart _ _ _ Hj).
Qed.

Lemma unit_inv_step (new_images : list value) (fs : filesystem) (i : nat) (st : pool) :
  unit_inv w output_path jpeg_quality new_images fs st →
  unit_inv w output_path jpeg_quality new_images fs (step w output_path jpeg_quality i st).
Proof.
  intros Hinv.
  destruct (threads st !! i) as [[image_info t]|] eqn:Hi;
    [|by unfold step; rewrite Hi].
  destruct (step_cases i st image_info t Hi) as [->|(t' & Hths & Htotal & Heffect)]; [done|].
  destruct Hinv as (Hfst & Htot & Hagree & Hnd & Hdone & Hfiles).
  destruct (step_effect_summary i image_info t t' st _ (Hagree _ _ _ Hi) Heffect)
    as (Ht' & Hrunning & Hcompleted & Hpast & Hfs).
  assert (Hi_new : i ∉ completed st).
  { intros (info' & r & Hr)%Hdone. rewrite Hi in Hr. by simplify_eq. }
  set (st' := step w output_path jpeg_quality i st) in *.
  assert (Hlookup : ∀ j, threads st' !! j
    = if decide (i = j) then Some (image_info, t') else threads st !! j).
  { intros j. rewrite Hths. by apply lookup_alter_thread with t. }
  split; [by rewrite Hths, alter_fst|]. split; [by rewrite Htotal|]. split; [|split; [|split]].
  - intros j info' tj. rewrite Hlookup. case_decide; [|by apply Hagree].
    intros [= <- <-]. by subst j.
  - rewrite Hcompleted. destruct (is_done t'); [|done].
    apply NoDup_app. split; [done|]. split; [|apply NoDup_singleton].
    intros x Hx Hxi%list_elem_of_singleton. by subst x.
  - intros j. rewrite Hlookup, Hcompleted. case_decide as Hij.
    + subst j. destruct t' as [| | | | | |r]; cbn [is_done].
      all: try (split; [by intros ?%Hi_new | by intros (? & ? & [=])]).
      split; [by eauto|]. intros _. apply elem_of_app. right. by left.
    + rewrite <- Hdone. destruct (is_done t'); [|done].
      rewrite elem_of_app, list_elem_of_singleton. naive_solver.
  - intros path.
    destruct (negb (past_fetch t) && past_fetch t') eqn:Hnew.
    + apply andb_true_iff in Hnew as [Hnot%negb_true_iff Hpast'].
      destruct (download_and_convert_image w output_path jpeg_quality i image_info).2
        as [[p f]|] eqn:Hsaved.
      * destruct (decide (p = path)) as [->|Hne].
        { right. exists i, image_info, t', f. rewrite Hlookup, decide_True by done.
          rewrite Hfs. by rewrite lookup_insert_eq. }
        rewrite Hfs, lookup_insert_ne by done.
        destruct (Hfiles path) as [[Hsame Hnone]|(j & info' & tj & f' & Hj & Hpj & Hsj & Hfj)].
        { left. split; [done|]. intros j info' tj f'. rewrite Hlookup.
          case_decide; [|by apply Hnone].
          intros [= <- <-] _. subst j. rewrite Hsaved. congruence. }
        right. exists j, info', tj, f'. rewrite Hlookup.
        rewrite decide_False; [done|]. intros <-. rewrite Hi in Hj. simplify_eq; congruence.
      * rewrite Hfs.
        destruct (Hfiles path) as [[Hsame Hnone]|(j & info' & tj & f' & Hj & Hpj & Hsj & Hfj)].
        { left. split; [done|]. intros j info' tj f'. rewrite Hlookup.
          case_decide; [|by apply Hnone].
          intros [= <- <-] _. subst j. by rewrite Hsaved. }
        right. exists j, info', tj, f'. rewrite Hlookup.
        rewrite decide_False; [done|]. intros <-. rewrite Hi in Hj. simplify_eq; congruence.
    + rewrite Hfs.
      assert (Hkept : past_fetch t' = true → past_fetch t = true).
      { intros Hp'. rewrite Hp' in Hnew. by destruct (past_fetch t). }
      destruct (Hfiles path) as [[Hsame Hnone]|(j & info' & tj & f' & Hj & Hpj & Hsj & Hfj)].
      { left. split; [done|]. intros j info' tj f'. rewrite Hlookup.
        case_decide; [|by apply Hnone].
        intros [= <- <-] Hp'. subst j. exact (Hnone i image_info t f' Hi (Hkept Hp')). }
      right. destruct (decide (i = j)) as [<-|Hij].
      * rewrite Hi in Hj. injection Hj as <- <-. exists i, image_info, t', f'.
        rewrite Hlookup, decide_True by done. auto.
      * exists j, info', tj, f'. by rewrite Hlookup, decide_False.
Qed.

Lemma unit_inv_run (new_images : list value) (fs : filesystem) (sched : list nat) (st : pool) :
  unit_inv w output_path jpeg_quality new_images fs st →
  unit_inv w output_path jpeg_quality new_images fs (run w output_path jpeg_quality sched st).
Proof.
  revert st. induction sched as [|i sched IH]; intros st Hst; [done|].
  apply IH. by apply unit_inv_step.
Qed.

Lemma unit_inv_pool_phase (new_images : list value) (fs : filesystem) :
  unit_inv w output_path jpeg_quality new_images fs
    (pool_phase w output_path jpeg_quality new_images fs).
Proof. unfold pool_phase. apply unit_inv_run, unit_inv_run, unit_inv_init. Qed.

Lemma unit_inv_lookup (new_images : list value) (fs : filesystem) (st : pool) (i : nat)
    (image_info : value) :
  unit_inv w output_path jpeg_quality new_images fs st →
  new_images !! i = Some image_info ↔ ∃ t, threads st !! i = Some (image_info, t).
Proof.
  intros (Hfst & _). rewrite <- Hfst, list_lookup_fmap. split.
  - destruct (threads st !! i) as [[info t]|]; [|done]. intros [= <-]. by exists t.
  - by intros [t ->].
Qed.

Lemma all_done_lookup (st : pool) (i : nat) (image_info : value) (t : thread) :
  all_done st = true → threads st !! i = Some (image_info, t) → ∃ r, t = TDone r.
Proof.
  unfold all_done. rewrite forallb_forall. intros Hall Hi.
  apply list_elem_of_lookup_2, list_elem_of_In, Hall in Hi.
  destruct t; try done. by eexists.
Qed.

Lemma pool_phase_threads (new_images : list value) (fs : filesystem) :
  threads (pool_phase w output_path jpeg_quality new_images fs) =
    imap (λ i image_info,
            (image_info,
             TDone (download_and_convert_image w output_path jpeg_quality i image_info).1))
         new_images.
Proof.
  pose proof (unit_inv_pool_phase new_images fs) as Hinv.
  destruct (pool_phase_done w output_path jpeg_quality new_images fs) as [_ Hdone].
  apply list_eq. intros i. rewrite list_lookup_imap.
  destruct (new_images !! i) as [image_info|] eqn:Hi; simpl.
  - apply (unit_inv_lookup _ _ _ _ _ Hinv) in Hi as [t Hi]. rewrite Hi.
    destruct (all_done_lookup _ _ _ _ Hdone Hi) as [r ->].
    destruct Hinv as (_ & _ & Hagree & _). by rewrite (Hagree _ _ _ Hi).
  - destruct (threads _ !! i) as [[image_info t]|] eqn:Hti; [|done].
    assert (new_images !! i = Some image_info) as Hsome
      by (apply (unit_inv_lookup _ _ _ _ _ Hinv); eauto).
    congruence.
Qed.

Lemma pool_phase_saved (new_images : list value) (fs : filesystem) (i : nat)
    (image_info : value) (path : pystr) (f : file) :
  new_images !! i = Some image_info →
  (download_and_convert_image w output_path jpeg_quality i image_info).2
    = Some (path, f) →
  ∃ j image_info' f',
    new_images !! j = Some image_info' ∧
    (download_and_convert_image w output_path jpeg_quality j image_info').2
      = Some (path, f') ∧
    files (pool_phase w output_path jpeg_quality new_images fs) !! path = Some f'.
Proof.
  intros Hi Hsaved.
  pose proof (unit_inv_pool_phase new_images fs) as Hinv.
  destruct (pool_phase_done w output_path jpeg_quality new_images fs) as [_ Hdone].
  pose proof Hinv as (_ & _ & _ & _ & _ & Hfiles).
  destruct (Hfiles path) as [[_ Hnone]|(j & info' & tj & f' & Hj & _ & Hsj & Hfj)].
  - apply (unit_inv_lookup _ _ _ _ _ Hinv) in Hi as [t Hi].
    destruct (all_done_lookup _ _ _ _ Hdone Hi) as [r ->].
    by destruct (Hnone i image_info (TDone r) f Hi eq_refl).
  - exists j, info', f'. split; [|done]. apply (unit_inv_lookup _ _ _ _ _ Hinv). eauto.
Qed.

Lemma pool_phase_completed (new_images : list value) (fs : filesystem) :
  completed (pool_phase w output_path jpeg_quality new_images fs)
    ≡ₚ seq 0 (length new_images).
Proof.
  pose proof (unit_inv_pool_phase new_images fs) as Hinv.
  pose proof Hinv as (_ & _ & _ & Hnd & Hcompleted & _).
  apply NoDup_Permutation; [done | apply NoDup_seq|].
  intros i. rewrite Hcompleted, elem_of_seq, pool_phase_threads. split.
  - intros (image_info & r & Hi). apply lookup_lt_Some in Hi.
    rewrite length_imap in Hi. lia.
  - intros [_ Hi]. destruct (lookup_lt_is_Some_2 new_images i) as [image_info Hinfo]; [lia|].
    exists image_info. eexists. rewrite list_lookup_imap, Hinfo. reflexivity.
Qed.




End UnitPoolFacts.


(** ** The files a run touches *)

Lemma os_path_join_suffix (a b : pystr) : ∃ p, os_path_join a b = p ++ b.
Proof.
  unfold os_path_join. destruct (bool_decide _); [by exists []|].
  destruct (_ || _); [by exists a|]. exists (a ++ [47%N]). by rewrite <- app_assoc.
Qed.

Lemma os_path_join_prefix (dir : pystr) :
  ∃ pre, ∀ x, head x ≠ Some 47%N → os_path_join dir x = pre ++ x.
Proof.
  destruct (bool_decide (dir = []) || bool_decide (last dir = Some 47%N)) eqn:Hsep.
  - exists dir. intros x Hx. unfold os_path_join.
    by rewrite (bool_decide_eq_false_2 _ Hx), Hsep.
  - exists (dir ++ [47%N]). intros x Hx. unfold os_path_join.
    by rewrite (bool_decide_eq_false_2 _ Hx), Hsep, <- app_assoc.
Qed.

Lemma strip_prefix_app_same (pre a s : pystr) :
  strip_prefix (pre ++ a) (pre ++ s) = strip_prefix a s.
Proof. induction pre as [|c pre IH]; [done|]. simpl. by rewrite N.eqb_refl. Qed.

Lemma strip_prefix_Some (p s r : pystr) : strip_prefix p s = Some r → s = p ++ r.
Proof.
  revert s. induction p as [|a p IH]; intros [|b s]; simpl; try done.
  - by intros [= <-].
  - by intros [= <-].
  - destruct (N.eqb_spec a b) as [->|]; [|done]. intros Hs. by rewrite (IH _ Hs).
Qed.

Lemma remove_dir_lookup (dir : pystr) (fs : filesystem) (path : pystr) :
  (remove_dir dir fs).1 !! path = if is_direct_child dir path then None else fs !! path.
Proof.
  unfold remove_dir.
  assert (Hfilter : filter (λ kv : pystr * file, is_direct_child dir kv.1 = false) fs !! path
                    = if is_direct_child dir path then None else fs !! path).
  { destruct (is_direct_child dir path) eqn:Hchild.
    - apply map_lookup_filter_None. right. intros f _. cbn. by rewrite Hchild.
    - destruct (fs !! path) as [f|] eqn:Hpath.
      + by apply map_lookup_filter_Some.
      + apply map_lookup_filter_None. by left. }
  by destruct (bool_decide _).
Qed.

Section TouchedFiles.
Context `{PyRuntime} (w : World).

Lemma generate_reports_frame (reports_dir : pystr) (added removed : list value)
    (fs : filesystem) (path : pystr) :
  path ∉ [os_path_join reports_dir summary_name; os_path_join reports_dir new_ids_name;
          os_path_join reports_dir deleted_ids_name] →
  (generate_reports w reports_dir added removed fs).1 !! path = fs !! path.
Proof.
  intros Hpath. unfold generate_reports.
  destruct (summary_text w added removed) as [text r].
  assert (path ≠ os_path_join reports_dir summary_name) by set_solver.
  assert (path ≠ os_path_join reports_dir new_ids_name) by set_solver.
  assert (path ≠ os_path_join reports_dir deleted_ids_name) by set_solver.
  destruct r; cbn [fst]; [|by rewrite lookup_insert_ne..].
  destruct (write_each id_line added []) as [text1 r1].
  destruct r1; cbn [fst]; [|by rewrite !lookup_insert_ne..].
  destruct (write_each id_line removed []) as [text2 r2]. cbn [fst].
  by rewrite !lookup_insert_ne.
Qed.

Lemma saved_path_jpeg (output_path : pystr) (jpeg_quality : Z) (i : nat)
    (image_info : value) (path : pystr) (f : file) :
  (download_and_convert_image w output_path jpeg_quality i image_info).2 = Some (path, f) →
  ∃ p, path = p ++ u ".jpeg".
Proof.
  unfold download_and_convert_image. destruct image_info as [| | | | | |d]; try done.
  destruct (_ || _); [done|].
  destruct (fetch_convert_save _ _ _ _ _ _ _) as [[path' f']|] eqn:Hsave; [|done].
  cbn [snd]. intros [= -> ->]. unfold fetch_convert_save in Hsave.
  destruct (requests_get _ _ _ _) as [|status_code text content]; [done|].
  destruct (raises_for_status _); [done|]. destruct (image_open _ _); [|done].
  case_decide; [|done]. injection Hsave as <- _.
  destruct (os_path_join_suffix output_path
              (jpeg_name (default (VStr (u "unknown")) (dict_get (u "username") d))
                 (default VNone (dict_get (u "id") d)))) as [p ->].
  unfold jpeg_name. eexists. by rewrite !app_assoc.
Qed.

Lemma pool_files_frame (output_path : pystr) (jpeg_quality : Z) (sched : list nat)
    (new_images : list value) (fs : filesystem) (path : pystr) :
  (∀ p, path ≠ p ++ u ".jpeg") →
  files (run w output_path jpeg_quality sched (pool_init new_images fs)) !! path
  = fs !! path.
Proof.
  intros Hpath.
  pose proof (unit_inv_run w output_path jpeg_quality new_images fs sched _
                (unit_inv_init w output_path jpeg_quality new_images fs))
    as (_ & _ & _ & _ & _ & Hfiles).
  destruct (Hfiles path) as [[Hsame _]|(j & info' & tj & f' & _ & _ & Hsj & _)]; [done|].
  apply saved_path_jpeg in Hsj as [p ->]. by destruct (Hpath p).
Qed.

Lemma pool_phase_frame (output_path : pystr) (jpeg_quality : Z)
    (new_images : list value) (fs : filesystem) (path : pystr) :
  (∀ p, path ≠ p ++ u ".jpeg") →
  files (pool_phase w output_path jpeg_quality new_images fs) !! path = fs !! path.
Proof.
  intros Hpath. unfold pool_phase. set (st := run _ _ _ (schedule w) _).
  pose proof (unit_inv_pool_phase w output_path jpeg_quality new_images fs)
    as (_ & _ & _ & _ & _ & Hfiles).
  destruct (Hfiles path) as [[Hsame _]|(j & info' & tj & f' & _ & _ & Hsj & _)]; [done|].
  apply saved_path_jpeg in Hsj as [p ->]. by destruct (Hpath p).
Qed.

Lemma download_phase_frame (args : Args) (new_images : list value) (fs : filesystem)
    (path : pystr) :
  (∀ p, path ≠ p ++ u ".jpeg") →
  path ≠ zip_filepath_of w args →
  is_direct_child (temp_download_dir_of args) path = false →
  (download_phase w args new_images fs).1 !! path = fs !! path.
Proof.
  intros Hjpeg Hzip Hchild. unfold download_phase.
  destruct (threads_arg args <=? 0); [done|].
  pose proof (pool_phase_frame (temp_download_dir_of args) (jpeg_quality args)
                new_images fs path Hjpeg) as Hpool.
  destruct (negb (all_done _)); [done|].
  destruct (collect _ _ []) as [names| |]; [|done..].
  rewrite remove_dir_lookup, Hchild.
  destruct names; [done|]. unfold create_zip_archive. by rewrite lookup_insert_ne.
Qed.

Lemma main_steps (fuel : nat) (args : Args) (fs : filesystem) :
  (∃ e, compare_catalogs w fuel args fs = Raise e ∧ main w fuel args fs = (fs, Raise e)) ∨
  (compare_catalogs w fuel args fs = Diverge ∧ main w fuel args fs = (fs, Diverge)) ∨
  ∃ m d, compare_catalogs w fuel args fs = Ret (m, d) ∧
    let fs1 := (report_step w args d fs).1 in
    let fs2 := (download_step w args d fs1).1 in
    ((report_step w args d fs).2 ≠ Ret tt ∧
     main w fuel args fs = report_step w args d fs) ∨
    ((report_step w args d fs).2 = Ret tt ∧
     (download_step w args d fs1).2 ≠ Ret tt ∧
     main w fuel args fs = download_step w args d fs1) ∨
    ((report_step w args d fs).2 = Ret tt ∧
     (download_step w args d fs1).2 = Ret tt ∧
     main w fuel args fs = (save_manifest (manifest_path_of args) (VDict m) fs2, Ret tt)).
Proof.
  unfold main. destruct (compare_catalogs w fuel args fs) as [[m d]| |]; [|eauto..].
  right. right. exists m, d. split; [done|]. cbv zeta.
  destruct (report_step w args d fs) as [fs1 [[]| |]]; cbn [fst snd]; [|by left..].
  right. destruct (download_step w args d fs1) as [fs2 [[]| |]]; cbn [fst snd];
    [by right | by left..].
Qed.

Lemma report_step_frame (args : Args) (d : DiffResult) (fs : filesystem) (path : pystr) :
  path ∉ [os_path_join (reports_dir_of args) summary_name;
          os_path_join (reports_dir_of args) new_ids_name;
          os_path_join (reports_dir_of args) deleted_ids_name] →
  (report_step w args d fs).1 !! path = fs !! path.
Proof.
  intros Hpath. unfold report_step. destruct (_ || _); [|done].
  by apply generate_reports_frame.
Qed.

Lemma download_step_frame (args : Args) (d : DiffResult) (fs : filesystem) (path : pystr) :
  (∀ p, path ≠ p ++ u ".jpeg") →
  path ≠ zip_filepath_of w args →
  is_direct_child (temp_download_dir_of args) path = false →
  (download_step w args d fs).1 !! path = fs !! path.
Proof.
  intros Hjpeg Hzip Hchild. unfold download_step. destruct (non_empty _); [|done].
  by apply download_phase_frame.
Qed.

(** X10: a run leaves every file alone that is not one of its outputs: the
    manifest, the three report files, the archive, what lies directly in the
    working area, and the JPEG files of the units.  Whatever the run does
    and however it ends, a path that is none of these holds at the end what
    it held at the start. *)
Theorem run_touches_only_its_outputs (fuel : nat) (args : Args) (fs : filesystem)
    (path : pystr) :
  path ≠ manifest_path_of args →
  path ∉ [os_path_join (reports_dir_of args) summary_name;
          os_path_join (reports_dir_of args) new_ids_name;
          os_path_join (reports_dir_of args) deleted_ids_name] →
  path ≠ zip_filepath_of w args →
  is_direct_child (temp_download_dir_of args) path = false →
  (∀ p, path ≠ p ++ u ".jpeg") →
  (main w fuel args fs).1 !! path = fs !! path.
Proof.
  intros Hmanifest Hreports Hzip Hchild Hjpeg.
  destruct (main_steps fuel args fs)
    as [(e & _ & ->)|[(_ & ->)|(m & d & _ & Hsteps)]]; [done..|].
  cbv zeta in Hsteps.
  pose proof (report_step_frame args d fs path Hreports) as Hreport.
  pose proof (download_step_frame args d (report_step w args d fs).1 path Hjpeg Hzip Hchild)
    as Hdownload.
  destruct Hsteps as [(_ & ->)|[(_ & _ & ->)|(_ & _ & ->)]].
  - done.
  - congruence.
  - cbn [fst]. rewrite save_manifest_eq, lookup_insert_ne by done. congruence.
Qed.

Lemma manifest_name_no_slash (args : Args) :
  47%N ∉ username args → 47%N ∉ nsfw args → 47%N ∉ sort args →
  47%N ∉ username args ++ u "_" ++ nsfw args ++ u "_" ++ sort args ++ u "_manifest.json".
Proof.
  intros Hu Hn Hs. rewrite !elem_of_app. intros [?|[Hc|[?|[Hc|[?|Hc]]]]]; try done;
    vm_compute in Hc; by repeat (apply elem_of_cons in Hc as [?|Hc]; [done|]);
    apply elem_of_nil in Hc.
Qed.

Lemma manifest_outside_working_area (args : Args) :
  47%N ∉ username args → 47%N ∉ nsfw args → 47%N ∉ sort args →
  child_name (temp_download_dir_of args) (manifest_path_of args) = None.
Proof.
  intros Hu Hn Hs. pose proof (manifest_name_no_slash args Hu Hn Hs) as Hname.
  unfold child_name, temp_download_dir_of, manifest_path_of.
  destruct (os_path_join_prefix (output_dir args)) as [pre Hpre].
  rewrite !Hpre; [|by destruct (username args) as [|c ?]; [|intros [= ->]; apply Hu; left]
                  |done].
  rewrite <- app_assoc, strip_prefix_app_same.
  destruct (strip_prefix _ _) as [name|] eqn:Hstrip; [|done].
  apply strip_prefix_Some in Hstrip. destruct Hname. rewrite Hstrip.
  rewrite <- app_assoc. apply elem_of_app. right. apply elem_of_app. left. by left.
Qed.

Lemma manifest_not_in_working_area (args : Args) :
  47%N ∉ username args → 47%N ∉ nsfw args → 47%N ∉ sort args →
  is_direct_child (temp_download_dir_of args) (manifest_path_of args) = false.
Proof.
  intros Hu Hn Hs. unfold is_direct_child.
  by rewrite manifest_outside_working_area.
Qed.

(** X11: a run that does not complete leaves the manifest as it was.  For a
    creator name, filter level and sort order without a slash, when the run
    ends with an exception the manifest path holds exactly what it held at
    the start, so the next run compares against the same baseline. *)
Theorem failed_run_keeps_manifest (fuel : nat) (args : Args) (fs : filesystem) :
  47%N ∉ username args → 47%N ∉ nsfw args → 47%N ∉ sort args →
  (main w fuel args fs).2 ≠ Ret tt →
  (main w fuel args fs).1 !! manifest_path_of args = fs !! manifest_path_of args.
Proof.
  intros Hu Hn Hs Hfailed.
  assert (Hreports : manifest_path_of args ∉
    [os_path_join (reports_dir_of args) summary_name;
     os_path_join (reports_dir_of args) new_ids_name;
     os_path_join (reports_dir_of args) deleted_ids_name]).
  { intros Hin. repeat (apply elem_of_cons in Hin as [Heq|Hin];
      [symmetry in Heq; by apply report_path_not_manifest in Heq; [|set_solver]|]).
    by apply elem_of_nil in Hin. }
  assert (Hjpeg : ∀ p, manifest_path_of args ≠ p ++ u ".jpeg").
  { intros p Heq. apply (f_equal last) in Heq.
    by rewrite manifest_path_last, last_app in Heq. }
  assert (Hzip : manifest_path_of args ≠ zip_filepath_of w args).
  { intros Heq. apply (f_equal last) in Heq. rewrite manifest_path_last in Heq.
    unfold zip_filepath_of in Heq. rewrite last_os_path_join in Heq by done.
    by rewrite !app_assoc, last_app in Heq. }
  pose proof (manifest_not_in_working_area args Hu Hn Hs) as Hchild.
  destruct (main_steps fuel args fs)
    as [(e & _ & Hmain)|[(_ & Hmain)|(m & d & _ & Hsteps)]];
    [by rewrite Hmain..|].
  cbv zeta in Hsteps.
  pose proof (report_step_frame args d fs _ Hreports) as Hreport.
  pose proof (download_step_frame args d (report_step w args d fs).1 _ Hjpeg Hzip Hchild)
    as Hdownload.
  destruct Hsteps as [(_ & Hmain)|[(_ & _ & Hmain)|(_ & _ & Hmain)]].
  - by rewrite Hmain.
  - rewrite Hmain. congruence.
  - by rewrite Hmain in Hfailed.
Qed.

End TouchedFiles.

Lemma run_touches_only_its_outputs_witness :
  (main (H := sample_runtime) two_images_world 3 sample_args
     {[ u "notes.txt" := FText (u "keep") ]}).1 !! u "notes.txt"
  = ({[ u "notes.txt" := FText (u "keep") ]} : filesystem) !! u "notes.txt".
Proof.
  apply (run_touches_only_its_outputs (H := sample_runtime) two_images_world 3 sample_args).
  - discriminate.
  - intros Hin. repeat (apply elem_of_cons in Hin as [Heq|Hin]; [discriminate Heq|]).
    by apply elem_of_nil in Hin.
  - discriminate.
  - reflexivity.
  - intros p Heq. apply (f_equal last) in Heq. by rewrite last_app in Heq.
Defined.

Lemma failed_run_keeps_manifest_witness :
  (main (H := sample_runtime) (constant_world (u "[]")) 3 sample_args one_entry_files).1
    !! manifest_path_of sample_args
  = one_entry_files !! manifest_path_of sample_args.
Proof.
  apply (failed_run_keeps_manifest (H := sample_runtime) (constant_world (u "[]")) 3
           sample_args one_entry_files).
  1-3: intros Hin; vm_compute in Hin;
       by repeat (apply elem_of_cons in Hin as [?|Hin]; [done|]); apply elem_of_nil in Hin.
  vm_compute. discriminate.
Defined.

(** ** From the pool phase to the archive *)

Lemma filter_all {A} (P : A → Prop) `{!∀ x, Decision (P x)} (l : list A) :
  Forall P l → filter P l = l.
Proof.
  induction 1 as [|x l Hx _ IH]; [done|]. by rewrite filter_cons, decide_True, IH.
Qed.

Section ArchiveFacts.
Context `{PyRuntime} (w : World).

Lemma archive_name_saved (output_path : pystr) (jpeg_quality : Z) (i : nat)
    (img_data : value) (name : pystr) :
  archive_name w output_path jpeg_quality i img_data = Some name →
  ∃ f, (download_and_convert_image w output_path jpeg_quality i img_data).2
       = Some (os_path_join output_path name, f).
Proof.
  unfold archive_name, download_and_convert_image.
  destruct img_data as [| | | | | |d]; try done.
  destruct (_ || _); [done|].
  destruct (fetch_convert_save _ _ _ _ _ _ _) as [[path f]|] eqn:Hsave; [|done].
  cbn [fst snd py_index].
  destruct (dict_get (u "username") d) as [n|]; [|done].
  destruct (dict_get (u "id") d) as [i'|]; [|done].
  intros [= <-]. exists f. f_equal. f_equal. cbn [default] in Hsave.
  unfold fetch_convert_save in Hsave.
  destruct (requests_get _ _ _ _) as [|status_code text content]; [done|].
  destruct (raises_for_status _); [done|]. destruct (image_open _ _); [|done].
  case_decide; [|done]. by injection Hsave as <- _.
Qed.

Lemma collect_names (output_path : pystr) (jpeg_quality : Z) (new_images : list value)
    (order : list nat) (downloaded_filenames : list pystr) :
  (∀ image_info, image_info ∈ new_images → ∃ i, py_index image_info (u "id") = Ret i) →
  collect
    (imap (λ i image_info,
             (image_info,
              TDone (download_and_convert_image w output_path jpeg_quality i image_info).1))
          new_images)
    order downloaded_filenames
  = Ret (downloaded_filenames ++
         omap (λ i, new_images !! i ≫= archive_name w output_path jpeg_quality i) order).
Proof.
  intros Hids. revert downloaded_filenames.
  induction order as [|i rest IH]; intros names; [by rewrite app_nil_r|].
  cbn [collect omap list_omap]. rewrite list_lookup_imap.
  destruct (new_images !! i) as [img_data|] eqn:Hi; cbn [fmap option_fmap option_map mbind option_bind].
  2: { apply IH. }
  destruct (Hids img_data) as [i' Hi']; [by eapply list_elem_of_lookup_2|].
  unfold archive_name.
  destruct (download_and_convert_image w output_path jpeg_quality i img_data).1;
    rewrite ?Hi'; cbn [obind]; try apply IH.
  destruct (py_index img_data (u "username")) as [name| |]; cbn [obind]; try apply IH.
  rewrite IH. by rewrite <- app_assoc.
Qed.

Lemma zip_not_in_working_area (args : Args) :
  child_name (temp_download_dir_of args) (zip_filepath_of w args) = None.
Proof.
  unfold child_name, temp_download_dir_of, zip_filepath_of.
  destruct (os_path_join_prefix (output_dir args)) as [pre Hpre].
  rewrite !Hpre by done. by rewrite <- app_assoc, strip_prefix_app_same.
Qed.

Lemma zip_path_last (args : Args) : last (zip_filepath_of w args) = Some 112%N.
Proof.
  unfold zip_filepath_of. rewrite last_os_path_join by done.
  by rewrite !app_assoc, last_app.
Qed.

(** X12: what goes into the archive.  With a positive number of workers
    and entries that all have an [id] (as the entries of the current catalog
    do), every future completes exactly once, the loop over the completed
    futures returns without raising, and it lists, in the order of
    completion, the name of every unit that handed back [None] and whose
    entry has a [username].  If the list is empty the archive path is left
    as it was; otherwise the archive holds exactly the listed names, in that
    order, each with the file the working area held under that name. *)
Theorem archive_holds_the_listed_units (args : Args) (new_images : list value)
    (fs : filesystem) :
  0 < threads_arg args →
  (∀ image_info, image_info ∈ new_images → ∃ i, py_index image_info (u "id") = Ret i) →
  let temp_download_dir := temp_download_dir_of args in
  let st := pool_phase w temp_download_dir (jpeg_quality args) new_images fs in
  let names :=
    omap (λ i, new_images !! i ≫= archive_name w temp_download_dir (jpeg_quality args) i)
         (completed st) in
  completed st ≡ₚ seq 0 (length new_images) ∧
  collect (threads st) (completed st) [] = Ret names ∧
  (∀ name, name ∈ names ↔
     ∃ i img_data, new_images !! i = Some img_data ∧
       archive_name w temp_download_dir (jpeg_quality args) i img_data = Some name) ∧
  (names = [] →
     (download_phase w args new_images fs).1 !! zip_filepath_of w args
     = fs !! zip_filepath_of w args) ∧
  (names ≠ [] →
     ∃ members,
       (download_phase w args new_images fs).1 !! zip_filepath_of w args
         = Some (FZip members) ∧
       members.*1 = names ∧
       ∀ name f, (name, f) ∈ members →
         files st !! os_path_join temp_download_dir name = Some f).
Proof.
  intros Hthreads Hids. cbv zeta.
  set (temp := temp_download_dir_of args).
  set (st := pool_phase w temp (jpeg_quality args) new_images fs).
  set (names := omap _ (completed st)).
  assert (Hcollect : collect (threads st) (completed st) [] = Ret names).
  { unfold st at 1. rewrite pool_phase_threads. by rewrite collect_names. }
  assert (Hphase : download_phase w args new_images fs =
    remove_dir temp
      match names with
      | [] => files st
      | _ => create_zip_archive temp (zip_filepath_of w args) names (files st)
      end).
  { unfold download_phase. rewrite (proj2 (Z.leb_gt _ _) Hthreads).
    fold temp st. unfold st at 1.
    rewrite (proj2 (pool_phase_done w temp (jpeg_quality args) new_images fs)).
    cbn [negb]. fold st. by rewrite Hcollect. }
  assert (Hzip : is_direct_child temp (zip_filepath_of w args) = false).
  { unfold is_direct_child, temp. by rewrite zip_not_in_working_area. }
  assert (Hall : Forall (λ name, is_Some (files st !! os_path_join temp name)) names).
  { apply Forall_forall. intros name Hname.
    apply list_elem_of_omap in Hname as (i & _ & Hname).
    destruct (new_images !! i) as [img_data|] eqn:Hi; [|done]. cbn in Hname.
    apply archive_name_saved in Hname as [f Hsaved].
    destruct (pool_phase_saved w temp (jpeg_quality args) new_images fs i img_data _ f
                Hi Hsaved) as (j & info' & f' & _ & _ & Hfile).
    fold st in Hfile. by rewrite Hfile. }
  assert (Hmem : ∀ name, name ∈ names ↔
    ∃ i img_data, new_images !! i = Some img_data ∧
      archive_name w temp (jpeg_quality args) i img_data = Some name).
  { intros name. unfold names. rewrite list_elem_of_omap. split.
    - intros (i & _ & Hname). destruct (new_images !! i) as [img_data|] eqn:Hi; [|done].
      by exists i, img_data.
    - intros (i & img_data & Hi & Hname). exists i. rewrite Hi. split; [|done].
      unfold st. rewrite pool_phase_completed. apply elem_of_seq.
      apply lookup_lt_Some in Hi. lia. }
  clearbody names.
  split; [apply pool_phase_completed|]. split; [done|]. split; [done|]. split.
  - intros Hnames. rewrite Hphase, Hnames, remove_dir_lookup, Hzip.
    apply pool_phase_frame. intros p Heq. apply (f_equal last) in Heq.
    rewrite zip_path_last in Heq. by rewrite last_app in Heq.
  - intros Hnames. exists (zip_members (files st) temp names).
    rewrite Hphase, remove_dir_lookup, Hzip.
    destruct (create_zip_archive_spec temp (zip_filepath_of w args) names (files st))
      as (Hlookup & Hmembers & _).
    split; [by destruct names|]. split.
    + rewrite Hmembers. by apply filter_all.
    + intros name f Hin. by apply zip_members_spec in Hin as [_ ?].
Qed.

Lemma download_phase_emptied (args : Args) (new_images : list value) (fs fs' : filesystem)
    (path name : pystr) :
  download_phase w args new_images fs = (fs', Ret tt) →
  child_name (temp_download_dir_of args) path = Some name →
  fs' !! path = None.
Proof.
  unfold download_phase. destruct (_ <=? _); [done|]. destruct (negb _); [done|].
  destruct (collect _ _ []) as [names| |]; [|done..].
  unfold remove_dir. case_bool_decide as Hempty; [|done].
  intros [= <-] Hchild.
  destruct (filter _ _ !! path) as [f|] eqn:Hpath; [|done].
  apply Hempty in Hpath. congruence.
Qed.

(** X13: a run that downloads and completes leaves nothing in the working
    area.  For a creator name, filter level and sort order without a slash,
    when there are new images and the run completes, no path below the
    working area holds a file at the end -- neither a JPEG of this run nor
    anything that was there before it. *)
Theorem completed_run_empties_working_area (fuel : nat) (args : Args) (fs : filesystem)
    (m : dict) (d : DiffResult) :
  47%N ∉ username args → 47%N ∉ nsfw args → 47%N ∉ sort args →
  compare_catalogs w fuel args fs = Ret (m, d) →
  new_images d ≠ [] →
  (main w fuel args fs).2 = Ret tt →
  ∀ path name, child_name (temp_download_dir_of args) path = Some name →
    (main w fuel args fs).1 !! path = None.
Proof.
  intros Hu Hn Hs Hcompare Hnew Hret path name Hchild.
  destruct (main_steps w fuel args fs)
    as [(e & He & _)|[(Hd & _)|(m' & d' & Hcompare' & Hsteps)]]; [congruence..|].
  rewrite Hcompare in Hcompare'. injection Hcompare' as <- <-. cbv zeta in Hsteps.
  destruct Hsteps as [(Hr & Hmain)|[(_ & Hr & Hmain)|(_ & Hdone & Hmain)]].
  - by rewrite Hmain in Hret.
  - by rewrite Hmain in Hret.
  - rewrite Hmain. cbn [fst]. rewrite save_manifest_eq, lookup_insert_ne.
    + unfold download_step in *. destruct (new_images d) as [|x l] eqn:Hl; [done|].
      cbn [non_empty] in *.
      destruct (download_phase w args (x :: l) (report_step w args d fs).1)
        as [fs2 r] eqn:Hphase.
      cbn [fst snd] in *. subst r. by eapply download_phase_emptied.
    + intros <-. by rewrite manifest_outside_working_area in Hchild.
Qed.

End ArchiveFacts.

Lemma archive_holds_the_listed_units_witness :
  collect (H := sample_runtime)
    (threads (pool_phase (H := sample_runtime) two_images_world
                (temp_download_dir_of sample_args) (jpeg_quality sample_args)
                [image_a; image_c] ∅))
    (completed (pool_phase (H := sample_runtime) two_images_world
                  (temp_download_dir_of sample_args) (jpeg_quality sample_args)
                  [image_a; image_c] ∅)) []
  = Ret [u "alice_2.jpeg"].
Proof.
  assert (Hids : ∀ image_info, image_info ∈ [image_a; image_c] →
    ∃ i, py_index image_info (u "id") = Ret i).
  { intros image_info Hin.
    repeat (apply elem_of_cons in Hin as [->|Hin]; [by eexists|]).
    by apply elem_of_nil in Hin. }
  pose proof (archive_holds_the_listed_units (H := sample_runtime) two_images_world
                sample_args [image_a; image_c] ∅ eq_refl Hids) as (_ & Hcollect & _).
  etrans; [exact Hcollect|]. vm_compute. reflexivity.
Defined.

Lemma completed_run_empties_working_area_witness :
  (main (H := sample_runtime) two_images_world 3 sample_args ∅).1
    !! os_path_join (temp_download_dir_of sample_args) (u "unknown_2.jpeg") = None.
Proof.
  assert (Hcompare : ∃ m d,
    compare_catalogs (H := sample_runtime) two_images_world 3 sample_args ∅ = Ret (m, d) ∧
    new_images d ≠ []).
  { eexists _, _. split; [vm_compute; reflexivity | discriminate]. }
  destruct Hcompare as (m & d & Hcompare & Hnew).
  apply (completed_run_empties_working_area (H := sample_runtime) two_images_world 3
           sample_args ∅ m d) with (u "unknown_2.jpeg"); try done.
  1-3: intros Hin; vm_compute in Hin;
       by repeat (apply elem_of_cons in Hin as [?|Hin]; [done|]); apply elem_of_nil in Hin.
Defined.

(** ** One run after another *)

Lemma diff_same (m : dict) :
  diff m m = Ret {| new_image_ids := ∅; deleted_image_ids := ∅;
                    new_images := []; deleted_images_data := [] |}.
Proof.
  unfold diff. replace (key_set m ∖ key_set m) with (∅ : gset pystr) by set_solver.
  by rewrite elements_empty.
Qed.

Lemma unit_saved_path `{PyRuntime} (w : World) (output_path : pystr) (jpeg_quality : Z)
    (i : nat) (image_info : value) (path : pystr) (f : file) (image_id : value) :
  (download_and_convert_image w output_path jpeg_quality i image_info).2 = Some (path, f) →
  py_index image_info (u "id") = Ret image_id →
  ∃ name, py_get image_info (u "username") (VStr (u "unknown")) = Ret name ∧
          path = os_path_join output_path (jpeg_name name image_id).
Proof.
  unfold download_and_convert_image. destruct image_info as [| | | | | |d]; try done.
  destruct (_ || _); [done|].
  destruct (fetch_convert_save _ _ _ _ _ _ _) as [[path' f']|] eqn:Hsave; [|done].
  cbn [snd py_index py_get]. intros [= -> ->].
  destruct (dict_get (u "id") d) as [i'|]; [|done]. intros [= ->].
  eexists. split; [done|]. cbn [default] in Hsave. unfold fetch_convert_save in Hsave.
  destruct (requests_get _ _ _ _) as [|status_code text content]; [done|].
  destruct (raises_for_status _); [done|]. destruct (image_open _ _); [|done].
  case_decide; [|done]. by injection Hsave as <- _.
Qed.

Section Runs.
Context `{PyRuntime} (w : World).

(** X14: a second run with nothing changed upstream changes nothing.  When
    a run completes with a current catalog that the JSON format restores
    (distinct keys, floats that are non-finite or the [repr] of a number,
    strings without a high surrogate followed by a low one), the manifest it
    leaves loads back as that catalog, and running again against the same
    server finds nothing added and nothing removed, writes no report,
    downloads nothing and leaves every file as it is. *)
Theorem second_run_changes_nothing (fuel : nat) (args : Args) (fs : filesystem)
    (m : dict) (d : DiffResult) :
  compare_catalogs w fuel args fs = Ret (m, d) →
  (main w fuel args fs).2 = Ret tt →
  value_ok (VDict m) = true →
  let fs1 := (main w fuel args fs).1 in
  load_manifest (manifest_path_of args) fs1 = Ret (VDict m) ∧
  compare_catalogs w fuel args fs1
    = Ret (m, {| new_image_ids := ∅; deleted_image_ids := ∅;
                 new_images := []; deleted_images_data := [] |}) ∧
  main w fuel args fs1 = (fs1, Ret tt).
Proof.
  intros Hcompare Hret Hok. cbv zeta.
  destruct (main_steps w fuel args fs)
    as [(e & He & _)|[(Hd & _)|(m' & d' & Hcompare' & Hsteps)]]; [congruence..|].
  rewrite Hcompare in Hcompare'. injection Hcompare' as <- <-. cbv zeta in Hsteps.
  destruct Hsteps as [(Hr & Hmain)|[(_ & Hr & Hmain)|(_ & _ & Hmain)]];
    [by rewrite Hmain in Hret..|].
  rewrite Hmain. cbn [fst].
  set (fs2 := (download_step w args d (report_step w args d fs).1).1).
  assert (Hload : load_manifest (manifest_path_of args)
                    (save_manifest (manifest_path_of args) (VDict m) fs2) = Ret (VDict m))
    by by apply load_saved.
  destruct (compare_catalogs_inv w fuel args fs m d Hcompare)
    as (old & l & _ & Hfetch & Hmap & _).
  assert (Hagain : compare_catalogs w fuel args
                     (save_manifest (manifest_path_of args) (VDict m) fs2)
    = Ret (m, {| new_image_ids := ∅; deleted_image_ids := ∅;
                 new_images := []; deleted_images_data := [] |})).
  { unfold compare_catalogs. rewrite Hload. cbn [obind]. rewrite Hfetch. cbn [obind].
    rewrite Hmap. cbn [obind]. by rewrite diff_same. }
  split; [done|]. split; [done|].
  unfold main. rewrite Hagain. unfold report_step, download_step. cbn.
  f_equal. rewrite !save_manifest_eq. apply insert_insert_eq.
Qed.

Lemma write_each_id_lines (ks : list pystr) (vs : list value) (text : pystr) :
  Forall2 (λ k v, ∃ i, py_index v (u "id") = Ret i ∧ py_str i = k) ks vs →
  write_each id_line vs text = (text ++ concat (map (λ k, k ++ [10%N]) ks), Ret tt).
Proof.
  intros Hall. revert text.
  induction Hall as [|k v ks vs (i & Hi & Hk) _ IH]; intros text; [by rewrite app_nil_r|].
  simpl. unfold id_line at 1. rewrite Hi. cbn [obind]. rewrite IH, Hk.
  by rewrite <- !app_assoc.
Qed.

(** X15: the two identifier lists are the diff, one identifier per line.
    When the report step runs and completes, [new_images_ids.txt] holds the
    keys of the current catalog that the manifest lacks, each followed by a
    line break; and when every entry of the manifest is filed under its own
    identifier, [deleted_images_ids.txt] holds in the same way the keys of
    the manifest that the current catalog lacks. *)
Theorem id_lists_are_the_diff (fuel : nat) (args : Args) (fs : filesystem)
    (m : dict) (d : DiffResult) :
  compare_catalogs w fuel args fs = Ret (m, d) →
  new_images d ≠ [] ∨ deleted_images_data d ≠ [] →
  (report_step w args d fs).2 = Ret tt →
  (report_step w args d fs).1 !! os_path_join (reports_dir_of args) new_ids_name
    = Some (FText (concat (map (λ k, k ++ [10%N]) (elements (new_image_ids d))))) ∧
  (∀ old, load_manifest (manifest_path_of args) fs = Ret (VDict old) → catalog_ok old →
     (report_step w args d fs).1 !! os_path_join (reports_dir_of args) deleted_ids_name
     = Some (FText (concat (map (λ k, k ++ [10%N]) (elements (deleted_image_ids d)))))).
Proof.
  intros Hcompare Hdiff Hret.
  destruct (compare_catalogs_new w fuel args fs m d Hcompare) as (_ & Hok & Hadded & _).
  assert (Hstep : report_step w args d fs =
    generate_reports w (reports_dir_of args) (new_images d) (deleted_images_data d) fs).
  { unfold report_step.
    destruct Hdiff as [Hd|Hd]; [destruct (new_images d) | destruct (deleted_images_data d)];
      try done. by rewrite orb_true_r. }
  rewrite Hstep in *.
  destruct (generate_reports w _ _ _ fs) as [fs' r] eqn:Hgen. cbn [fst snd] in *. subst r.
  apply generate_reports_complete in Hgen as (_ & Hnew & Hdel). split.
  - rewrite Hnew. do 2 f_equal.
    rewrite (write_each_id_lines (elements (new_image_ids d))); [done|].
    eapply Forall2_impl; [exact Hadded|]. intros k v Hk. by apply Hok.
  - intros old Hload Hold. rewrite Hdel. do 2 f_equal.
    destruct (compare_catalogs_inv w fuel args fs m d Hcompare)
      as (old' & l & Hload' & _ & _ & Hd).
    rewrite Hload in Hload'. injection Hload' as <-.
    destruct (diff_returns old m) as (d' & Hd' & _ & _ & _ & Hremoved).
    rewrite Hd in Hd'. injection Hd' as <-.
    rewrite (write_each_id_lines (elements (deleted_image_ids d))); [done|].
    eapply Forall2_impl; [exact Hremoved|]. intros k v Hk. by apply Hold.
Qed.

(** X16: the units of one run do not overwrite one another.  Two added
    entries with the same owner handle are saved under different paths; so
    when all added entries have the same owner handle, as the entries of one
    creator do, every unit that saves a file finds exactly its own file at
    its path when the pool phase ends, whatever the schedule. *)
Theorem units_save_to_distinct_paths (fuel : nat) (args : Args) (fs : filesystem)
    (m : dict) (d : DiffResult) (output_path : pystr) (jpeg_quality : Z)
    (files_before : filesystem) :
  compare_catalogs w fuel args fs = Ret (m, d) →
  (∀ i j a b pa fa pb fb,
     new_images d !! i = Some a → new_images d !! j = Some b →
     py_get a (u "username") (VStr (u "unknown"))
       = py_get b (u "username") (VStr (u "unknown")) →
     (download_and_convert_image w output_path jpeg_quality i a).2 = Some (pa, fa) →
     (download_and_convert_image w output_path jpeg_quality j b).2 = Some (pb, fb) →
     pa = pb → i = j) ∧
  ((∀ a b, a ∈ new_images d → b ∈ new_images d →
      py_get a (u "username") (VStr (u "unknown"))
        = py_get b (u "username") (VStr (u "unknown"))) →
   ∀ i a path f,
     new_images d !! i = Some a →
     (download_and_convert_image w output_path jpeg_quality i a).2 = Some (path, f) →
     files (pool_phase w output_path jpeg_quality (new_images d) files_before) !! path
     = Some f).
Proof.
  intros Hcompare.
  destruct (compare_catalogs_new w fuel args fs m d Hcompare) as (_ & Hok & Hadded & _).
  assert (Hdistinct : ∀ i j a b pa fa pb fb,
     new_images d !! i = Some a → new_images d !! j = Some b →
     py_get a (u "username") (VStr (u "unknown"))
       = py_get b (u "username") (VStr (u "unknown")) →
     (download_and_convert_image w output_path jpeg_quality i a).2 = Some (pa, fa) →
     (download_and_convert_image w output_path jpeg_quality j b).2 = Some (pb, fb) →
     pa = pb → i = j).
  { intros i j a b pa fa pb fb Hi Hj Hname Ha Hb Hpath.
    destruct (Forall2_lookup_r _ _ _ _ _ Hadded Hi) as (ka & Hka & Hma).
    destruct (Forall2_lookup_r _ _ _ _ _ Hadded Hj) as (kb & Hkb & Hmb).
    destruct (Hok _ _ Hma) as (ia & Hia & Hka_eq).
    destruct (Hok _ _ Hmb) as (ib & Hib & Hkb_eq).
    apply (NoDup_lookup (elements (new_image_ids d)) i j ka (NoDup_elements _) Hka).
    rewrite Hkb. f_equal. rewrite <- Hka_eq, <- Hkb_eq.
    destruct (unit_saved_path w output_path jpeg_quality i a pa fa ia Ha Hia)
      as (ua & Hua & ->).
    destruct (unit_saved_path w output_path jpeg_quality j b pb fb ib Hb Hib)
      as (ub & Hub & Hpb).
    rewrite Hua, Hub in Hname. injection Hname as <-.
    rewrite Hpb in Hpath. apply os_path_join_same_head in Hpath.
    - unfold jpeg_name in Hpath. apply app_inv_head in Hpath.
      change (u "_" ++ ?x) with (95%N :: x) in Hpath. injection Hpath as Hpath.
      by apply app_inv_tail in Hpath.
    - unfold jpeg_name. destruct (py_str ua); reflexivity. }
  split; [done|]. intros Hsame i a path f Hi Hsaved.
  destruct (pool_phase_saved w output_path jpeg_quality (new_images d) files_before
              i a path f Hi Hsaved) as (j & b & f' & Hj & Hsaved' & Hfile).
  assert (j = i) as ->.
  { eapply (Hdistinct j i b a); eauto.
    apply Hsame; by eapply list_elem_of_lookup_2. }
  congruence.
Qed.

End Runs.

Lemma second_run_changes_nothing_witness :
  main (H := sample_runtime) two_images_world 3 sample_args
    (main (H := sample_runtime) two_images_world 3 sample_args ∅).1
  = ((main (H := sample_runtime) two_images_world 3 sample_args ∅).1, Ret tt).
Proof.
  assert (Hcompare : ∃ m d,
    compare_catalogs (H := sample_runtime) two_images_world 3 sample_args ∅ = Ret (m, d) ∧
    value_ok (H := sample_runtime) (VDict m) = true).
  { eexists _, _. split; [vm_compute; reflexivity|]. vm_compute; reflexivity. }
  destruct Hcompare as (m & d & Hcompare & Hok).
  apply (second_run_changes_nothing (H := sample_runtime) two_images_world 3 sample_args ∅
           m d Hcompare); [vm_compute; reflexivity | done].
Defined.

Lemma id_lists_are_the_diff_witness :
  ∃ m d,
    compare_catalogs (H := sample_runtime) two_images_world 3 sample_args ∅ = Ret (m, d) ∧
    (report_step (H := sample_runtime) two_images_world sample_args d ∅).1
      !! os_path_join (reports_dir_of sample_args) new_ids_name
    = Some (FText (concat (map (λ k, k ++ [10%N]) (elements (new_image_ids d))))).
Proof.
  assert (Hcompare : ∃ m d,
    compare_catalogs (H := sample_runtime) two_images_world 3 sample_args ∅ = Ret (m, d) ∧
    new_images d ≠ [] ∧
    (report_step (H := sample_runtime) two_images_world sample_args d ∅).2 = Ret tt).
  { eexists _, _. split; [vm_compute; reflexivity|]. split; [discriminate|].
    vm_compute; reflexivity. }
  destruct Hcompare as (m & d & Hcompare & Hnew & Hret).
  exists m, d. split; [done|].
  apply (id_lists_are_the_diff (H := sample_runtime) two_images_world 3 sample_args ∅ m d
           Hcompare (or_introl Hnew) Hret).
Defined.

Lemma units_save_to_distinct_paths_witness :
  ∃ m d,
    compare_catalogs (H := sample_runtime) alice_world 3 sample_args ∅ = Ret (m, d) ∧
    new_images d = [image_c; image_a] ∧
    files (pool_phase (H := sample_runtime) alice_world (temp_download_dir_of sample_args) 85
             (new_images d) ∅)
      !! os_path_join (temp_download_dir_of sample_args) (u "alice_2.jpeg")
    = Some (FJpeg (Decoded (u "RGB") [66%N]) 85).
Proof.
  assert (Hcompare : ∃ m d,
    compare_catalogs (H := sample_runtime) alice_world 3 sample_args ∅ = Ret (m, d) ∧
    new_images d = [image_c; image_a]).
  { eexists _, _. split; [vm_compute; reflexivity|]. vm_compute; reflexivity. }
  destruct Hcompare as (m & d & Hcompare & Hnew).
  exists m, d. split; [done|]. split; [done|].
  destruct (units_save_to_distinct_paths (H := sample_runtime) alice_world 3 sample_args ∅
              m d (temp_download_dir_of sample_args) 85 ∅ Hcompare) as [_ Hfiles].
  apply (Hfiles) with 0%nat image_c.
  - rewrite Hnew. intros a b Ha Hb.
    repeat (apply elem_of_cons in Ha as [->|Ha]); [| |by apply elem_of_nil in Ha];
      repeat (apply elem_of_cons in Hb as [->|Hb]); try done; by apply elem_of_nil in Hb.
  - by rewrite Hnew.
  - vm_compute; reflexivity.
Defined.

(** ** The JSON text format: a value read from a text is read from every
    longer text *)

Section DecoderExtends.
Open Scope N_scope.

Lemma skip_ws_app_cons (s : pystr) (c : N) (r t : pystr) :
  skip_ws s = c :: r → skip_ws (s ++ t) = c :: r ++ t.
Proof.
  induction s as [|x s IH]; [done|]. simpl. destruct (is_ws x); [done|].
  by intros [= -> ->].
Qed.

Lemma skip_ws_app_ne (s t : pystr) : skip_ws s ≠ [] → skip_ws (s ++ t) = skip_ws s ++ t.
Proof.
  intros Hne. destruct (skip_ws s) as [|c r] eqn:Hs; [done|].
  by apply skip_ws_app_cons.
Qed.

Lemma skip_ws_nil_app (s t : pystr) : skip_ws s = [] → skip_ws (s ++ t) = skip_ws t.
Proof. induction s as [|x s IH]; [done|]. simpl. by destruct (is_ws x). Qed.

Lemma skip_ws_nil_last (s : pystr) (c : N) :
  skip_ws s = [] → last s = Some c → is_ws c = true.
Proof.
  induction s as [|x s IH]; [done|]. simpl. destruct (is_ws x) eqn:Hx; [|done].
  intros Hs. destruct s as [|y s]; [by intros [= <-]|]. by apply IH.
Qed.

Lemma skip_ws_head_delim (s : pystr) (c : N) (r : pystr) :
  skip_ws s = c :: r → ∃ x s', s = x :: s' ∧ (is_ws x = true ∨ x = c).
Proof.
  destruct s as [|x s]; [done|]. simpl. destruct (is_ws x) eqn:Hx; [eauto|].
  intros [= -> ->]. eauto.
Qed.

Lemma strip_prefix_app (p s r t : pystr) :
  strip_prefix p s = Some r → strip_prefix p (s ++ t) = Some (r ++ t).
Proof.
  revert s. induction p as [|a p IH]; intros [|b s]; simpl; try done.
  - by intros [= <-].
  - by intros [= <-].
  - destruct (a =? b); [apply IH | done].
Qed.

Lemma cons_char_app (c : N) (s : pystr) (str rest t : pystr) :
  (∀ str' rest', scanstring s = Some (str', rest') →
     scanstring (s ++ t) = Some (str', rest' ++ t)) →
  cons_char c (scanstring s) = Some (str, rest) →
  cons_char c (scanstring (s ++ t)) = Some (str, rest ++ t).
Proof.
  intros IH (str' & Hs & ->)%cons_char_Some. by rewrite (IH _ _ Hs).
Qed.

Lemma scanstring_app (s str rest t : pystr) :
  scanstring s = Some (str, rest) → scanstring (s ++ t) = Some (str, rest ++ t).
Proof.
  remember (length s) as n eqn:Hn. revert s str rest Hn.
  induction n as [n IH] using lt_wf_ind. intros s str rest -> Hscan.
  assert (Hrec : ∀ c s' str rest, (length s' < length s)%nat →
    cons_char c (scanstring s') = Some (str, rest) →
    cons_char c (scanstring (s' ++ t)) = Some (str, rest ++ t)).
  { intros c s' str0 rest0 Hlt. apply cons_char_app. intros str' rest'.
    by apply (IH _ Hlt). }
  destruct s as [|c s1]; [done|]. cbn [scanstring app] in *.
  destruct (c =? 34). { by simplify_eq. }
  destruct (c =? 92).
  - destruct s1 as [|e s2]; [done|]. cbn [app]. destruct (e =? 117).
    + destruct s2 as [|h1 [|h2 [|h3 [|h4 s3]]]]; try done. cbn [app].
      destruct (hex4_value h1 h2 h3 h4) as [uni|]; [|done].
      destruct (is_high_surrogate uni).
      * destruct s3 as [|b [|e2 [|g1 [|g2 [|g3 [|g4 s4]]]]]]; cbn [app].
        -- done.
        -- assert (b = 34) as ->.
           { simpl in Hscan. destruct (N.eqb_spec b 34); [done|].
             by destruct (b =? 92), (b <=? 31). }
           by destruct t as [|? [|? [|? [|? [|? ?]]]]]; simpl in *; simplify_eq.
        -- destruct (N.eqb_spec b 92) as [->|Hb].
           { simpl in Hscan. by destruct (e2 =? 117), (unescape e2). }
           destruct t as [|? [|? [|? [|? ?]]]];
             by (eapply (Hrec uni [b; e2]); [simpl; lia | done]).
        -- destruct (N.eqb_spec b 92) as [->|Hb].
           { destruct (N.eqb_spec e2 117) as [->|He2].
             - by simpl in Hscan.
             - destruct t as [|? [|? [|? ?]]]; cbn [andb];
                 by (eapply (Hrec uni [92; e2; g1]); [simpl; lia | done]). }
           destruct t as [|? [|? [|? ?]]];
             by (eapply (Hrec uni [b; e2; g1]); [simpl; lia | done]).
        -- destruct (N.eqb_spec b 92) as [->|Hb].
           { destruct (N.eqb_spec e2 117) as [->|He2].
             - by simpl in Hscan.
             - destruct t as [|? [|? ?]]; cbn [andb];
                 by (eapply (Hrec uni [92; e2; g1; g2]); [simpl; lia | done]). }
           destruct t as [|? [|? ?]];
             by (eapply (Hrec uni [b; e2; g1; g2]); [simpl; lia | done]).
        -- destruct (N.eqb_spec b 92) as [->|Hb].
           { destruct (N.eqb_spec e2 117) as [->|He2].
             - by simpl in Hscan.
             - destruct t as [|? ?]; cbn [andb];
                 by (eapply (Hrec uni [92; e2; g1; g2; g3]); [simpl; lia | done]). }
           destruct t as [|? ?];
             by (eapply (Hrec uni [b; e2; g1; g2; g3]); [simpl; lia | done]).
        -- destruct ((b =? 92) && (e2 =? 117)).
           ++ destruct (hex4_value g1 g2 g3 g4) as [uni2|]; [|done].
              destruct (is_low_surrogate uni2).
              ** eapply Hrec; [simpl; lia | done].
              ** eapply (Hrec uni (b :: e2 :: g1 :: g2 :: g3 :: g4 :: s4));
                   [simpl; lia | done].
           ++ eapply (Hrec uni (b :: e2 :: g1 :: g2 :: g3 :: g4 :: s4));
                [simpl; lia | done].
      * eapply Hrec; [simpl; lia | done].
    + destruct (unescape e); [|done]. eapply Hrec; [simpl; lia | done].
  - destruct (c <=? 31); [done|]. eapply Hrec; [simpl; lia | done].
Qed.

Lemma span_digits_app_cons (s ds : pystr) (c : N) (r t : pystr) :
  span_digits s = (ds, c :: r) → span_digits (s ++ t) = (ds, c :: r ++ t).
Proof.
  revert ds. induction s as [|x s IH]; intros ds; simpl; [done|].
  destruct (is_digit x); [|by intros [= <- <- <-]].
  destruct (span_digits s) as [ds' r'] eqn:Hs. intros [= <- ->].
  by rewrite (IH ds' eq_refl).
Qed.

Lemma number_sign_app_ne (s sg s0 t : pystr) :
  number_sign s = (sg, s0) → s0 ≠ [] → number_sign (s ++ t) = (sg, s0 ++ t).
Proof.
  destruct s as [|c s]; simpl; [by intros [= <- <-]|].
  destruct (c =? 45); by intros [= <- <-].
Qed.

Lemma number_int_app_ne (s ds s2 t : pystr) :
  number_int s = Some (ds, s2) → s2 ≠ [] → number_int (s ++ t) = Some (ds, s2 ++ t).
Proof.
  destruct s as [|c s]; [done|]. simpl.
  destruct (c =? 48); [by intros [= <- <-]|].
  destruct ((49 <=? c) && (c <=? 57)); [|done].
  destruct (span_digits s) as [ds' r] eqn:Hs. intros [= <- <-] Hne.
  destruct r as [|x r]; [done|]. by rewrite (span_digits_app_cons _ _ _ _ _ Hs).
Qed.

Lemma number_frac_app_ne (s f : pystr) (x : N) (r t : pystr) :
  number_frac s = (f, x :: r) → (f = [] → x ≠ 46) →
  number_frac (s ++ t) = (f, x :: r ++ t).
Proof.
  destruct s as [|c [|d s]]; simpl.
  - done.
  - intros [= <- <- <-] Hx. destruct t as [|d t]; [done|]. simpl.
    by rewrite (proj2 (N.eqb_neq c 46)) by auto.
  - destruct ((c =? 46) && is_digit d); [|by intros [= <- <- <-]].
    destruct (span_digits s) as [fs r'] eqn:Hfs. intros [= <- ->] _.
    by rewrite (span_digits_app_cons _ _ _ _ _ Hfs).
Qed.

Lemma number_exp_app_ne (s e : pystr) (d : N) (r t : pystr) :
  number_exp s = (e, d :: r) → ends_token d = true →
  number_exp (s ++ t) = (e, d :: r ++ t) ∧ ∃ x s', s = x :: s' ∧ x ≠ 46.
Proof.
  intros Hs Hd.
  assert (Hne : d ≠ 101 ∧ d ≠ 69 ∧ d ≠ 46) by (repeat split; by intros ->).
  destruct s as [|c s]; cbn -[span_digits] in *; [done|].
  destruct ((c =? 101) || (c =? 69)) eqn:He.
  2: { injection Hs as <- <- <-. destruct Hne as (_ & _ & ?). split; [done|]. by eexists _, _. }
  assert (c ≠ 46) by (intros ->; done).
  split; [|by eauto].
  destruct s as [|sg s']; cbn -[span_digits] in *.
  - simpl in Hs. injection Hs as <- <- <-. destruct Hne as (? & ? & _).
    apply orb_true_iff in He as [?%N.eqb_eq|?%N.eqb_eq]; done.
  - destruct ((sg =? 45) || (sg =? 43)).
    + destruct (span_digits s') as [es r'] eqn:Hes. destruct es as [|e0 es].
      * injection Hs as <- <- <-. destruct Hne as (? & ? & _).
        apply orb_true_iff in He as [?%N.eqb_eq|?%N.eqb_eq]; done.
      * injection Hs as <- ->. by rewrite (span_digits_app_cons _ _ _ _ _ Hes).
    + destruct (span_digits (sg :: s')) as [es r'] eqn:Hes. destruct es as [|e0 es].
      * injection Hs as <- <- <-. destruct Hne as (? & ? & _).
        apply orb_true_iff in He as [?%N.eqb_eq|?%N.eqb_eq]; done.
      * injection Hs as <- ->.
        change (sg :: s' ++ t) with ((sg :: s') ++ t).
        by rewrite (span_digits_app_cons _ _ _ _ _ Hes).
Qed.

Lemma match_number_app_token (s i f e : pystr) (d : N) (r t : pystr) :
  match_number s = Some (i, f, e, d :: r) → ends_token d = true →
  match_number (s ++ t) = Some (i, f, e, d :: r ++ t).
Proof.
  unfold match_number. intros Hs Hd.
  destruct (number_sign s) as [sg s0] eqn:Hsg.
  destruct (number_int s0) as [[ds s2]|] eqn:Hint; [|done].
  destruct (number_frac s2) as [f' s3] eqn:Hf.
  destruct (number_exp s3) as [e' s4] eqn:He.
  injection Hs as <- <- <- ->.
  destruct (number_exp_app_ne _ _ _ _ t He Hd) as (He' & x & r3 & -> & Hx).
  assert (s2 ≠ []) as Hs2.
  { intros ->. by simpl in Hf. }
  assert (s0 ≠ []) as Hs0.
  { intros ->. by simpl in Hint. }
  rewrite (number_sign_app_ne _ _ _ t Hsg Hs0). cbv iota beta.
  rewrite (number_int_app_ne _ _ _ t Hint Hs2). cbv iota beta.
  rewrite (number_frac_app_ne _ _ _ _ t Hf) by auto. cbv iota beta.
  change (x :: r3 ++ t) with ((x :: r3) ++ t). by rewrite He'.
Qed.

End DecoderExtends.

Section DecoderExtendsRuntime.
Context `{PyRuntime}.
Open Scope N_scope.

Lemma ends_token_after (rest : pystr) (c : N) (rest' : pystr) :
  skip_ws rest = c :: rest' → c = 93 ∨ c = 44 ∨ c = 125 →
  ∃ x r, rest = x :: r ∧ ends_token x = true.
Proof.
  intros (x & r & -> & Hx)%skip_ws_head_delim Hc. exists x, r. split; [done|].
  unfold ends_token. destruct Hx as [->| ->]; [done|].
  destruct Hc as [->|[->| ->]]; done.
Qed.

Lemma scan_once_literal_app (fuel : nat) (c : N) (s1 : pystr) (v : value) (rest t : pystr) :
  c ≠ 34 → c ≠ 123 → c ≠ 91 →
  match_number (c :: s1) = None →
  scan_once (S fuel) (c :: s1) = Some (v, rest) →
  scan_once (S fuel) (c :: s1 ++ t) = Some (v, rest ++ t).
Proof.
  intros H34 H123 H91 Hnum Hscan.
  assert (Hlit : ∀ lit, strip_prefix lit (c :: s1) = None ∨
                        ∃ r, c :: s1 = lit ++ r ∧ strip_prefix lit (c :: s1) = Some r).
  { intros lit. destruct (strip_prefix lit (c :: s1)) as [r|] eqn:Hr; [|by left].
    right. exists r. split; [by apply strip_prefix_Some|done]. }
  cbn [scan_once] in Hscan.
  rewrite (proj2 (N.eqb_neq c 34)), (proj2 (N.eqb_neq c 123)), (proj2 (N.eqb_neq c 91))
    in Hscan by done.
  rewrite Hnum in Hscan. change (c :: s1 ++ t) with ((c :: s1) ++ t).
  destruct (Hlit (u "null")) as [Hnull|(r & Heq & Hr)].
  2: { rewrite Hr in Hscan. injection Hscan as <- <-. by rewrite Heq, <- app_assoc. }
  rewrite Hnull in Hscan.
  destruct (Hlit (u "true")) as [Htrue|(r & Heq & Hr)].
  2: { rewrite Hr in Hscan. injection Hscan as <- <-. by rewrite Heq, <- app_assoc. }
  rewrite Htrue in Hscan.
  destruct (Hlit (u "false")) as [Hfalse|(r & Heq & Hr)].
  2: { rewrite Hr in Hscan. injection Hscan as <- <-. by rewrite Heq, <- app_assoc. }
  rewrite Hfalse in Hscan.
  destruct (Hlit (u "-Infinity")) as [Hminus|(r & Heq & Hr)].
  2: { rewrite Hr in Hscan. injection Hscan as <- <-. by rewrite Heq, <- app_assoc. }
  rewrite Hminus in Hscan.
  destruct (Hlit (u "NaN")) as [Hnan|(r & Heq & Hr)].
  2: { rewrite Hr in Hscan. injection Hscan as <- <-. by rewrite Heq, <- app_assoc. }
  rewrite Hnan in Hscan.
  destruct (Hlit (u "Infinity")) as [Hinf|(r & Heq & Hr)].
  2: { rewrite Hr in Hscan. injection Hscan as <- <-. by rewrite Heq, <- app_assoc. }
  by rewrite Hinf in Hscan.
Qed.

Lemma scan_once_nil (fuel : nat) : scan_once fuel [] = None.
Proof. by destruct fuel. Qed.

Lemma array_items_nil (fuel : nat) : array_items fuel [] = None.
Proof. destruct fuel as [|fuel]; [done|]. cbn [array_items]. by rewrite scan_once_nil. Qed.

Lemma object_items_nil (fuel : nat) : object_items fuel [] = None.
Proof. by destruct fuel. Qed.

Lemma scan_extends (fuel : nat) :
  (∀ s v rest t, scan_once fuel s = Some (v, rest) → closed v rest →
     scan_once fuel (s ++ t) = Some (v, rest ++ t)) ∧
  (∀ s vs rest t, array_items fuel s = Some (vs, rest) →
     array_items fuel (s ++ t) = Some (vs, rest ++ t)) ∧
  (∀ s kvs rest t, object_items fuel s = Some (kvs, rest) →
     object_items fuel (s ++ t) = Some (kvs, rest ++ t)).
Proof.
  induction fuel as [|fuel (IHs & IHa & IHo)]; [done|]. split; [|split].
  - intros s v rest t Hscan Hclosed. destruct s as [|c s1]; [done|]. cbn [app].
    destruct (N.eqb_spec c 34) as [->|H34].
    { cbn [scan_once] in *. change (34 =? 34) with true in *. cbv iota in *.
      destruct (scanstring s1) as [[str r]|] eqn:Hstr; [|done].
      injection Hscan as <- <-. by rewrite (scanstring_app _ _ _ t Hstr). }
    destruct (N.eqb_spec c 123) as [->|H123].
    { cbn [scan_once] in *. change (123 =? 34) with false in *.
      change (123 =? 123) with true in *. cbv iota in *.
      destruct (skip_ws s1) as [|c2 s3] eqn:Hskip; [done|].
      rewrite (skip_ws_app_cons _ _ _ t Hskip).
      destruct (c2 =? 125); [by injection Hscan as <- <-|].
      destruct (object_items fuel (c2 :: s3)) as [[pairs r]|] eqn:Hobj; [|done].
      injection Hscan as <- <-.
      change (c2 :: s3 ++ t) with ((c2 :: s3) ++ t). by rewrite (IHo _ _ _ t Hobj). }
    destruct (N.eqb_spec c 91) as [->|H91].
    { cbn [scan_once] in *. change (91 =? 34) with false in *.
      change (91 =? 123) with false in *. change (91 =? 91) with true in *. cbv iota in *.
      destruct (skip_ws s1) as [|c2 s3] eqn:Hskip; [done|].
      rewrite (skip_ws_app_cons _ _ _ t Hskip).
      destruct (c2 =? 93); [by injection Hscan as <- <-|].
      destruct (array_items fuel (c2 :: s3)) as [[vs r]|] eqn:Harr; [|done].
      injection Hscan as <- <-.
      change (c2 :: s3 ++ t) with ((c2 :: s3) ++ t). by rewrite (IHa _ _ _ t Harr). }
    destruct (match_number (c :: s1)) as [[[[i f] e] r]|] eqn:Hnum.
    + rewrite (scan_once_number fuel _ _ _ _ _ Hnum) in Hscan. injection Hscan as <- <-.
      assert (∃ d r', r = d :: r' ∧ ends_token d = true) as (d & r' & -> & Hd).
      { destruct f, e, r as [|d r']; try done; by exists d, r'. }
      change (c :: s1 ++ t) with ((c :: s1) ++ t).
      by rewrite (scan_once_number fuel _ _ _ _ _
                    (match_number_app_token _ _ _ _ _ _ t Hnum Hd)).
    + by apply scan_once_literal_app.
  - intros s vs rest t Harr. cbn [array_items] in *.
    destruct (scan_once fuel s) as [[v r]|] eqn:Hv; [|done].
    destruct (skip_ws r) as [|c r'] eqn:Hskip; [done|].
    assert (Hc : c = 93 ∨ c = 44 ∨ c = 125).
    { destruct (N.eqb_spec c 93); [auto|]. destruct (N.eqb_spec c 44); [auto|done]. }
    destruct (ends_token_after _ _ _ Hskip Hc) as (x & r0 & -> & Hx).
    rewrite (IHs _ _ _ t Hv) by (by destruct v).
    rewrite (skip_ws_app_cons _ _ _ t Hskip).
    destruct (c =? 93); [by injection Harr as <- <-|].
    destruct (c =? 44); [|done].
    destruct (array_items fuel (skip_ws r')) as [[vs' r'']|] eqn:Hrest; [|done].
    injection Harr as <- <-.
    rewrite skip_ws_app_ne.
    + by rewrite (IHa _ _ _ t Hrest).
    + intros Hnil. by rewrite Hnil, array_items_nil in Hrest.
  - intros s kvs rest t Hobj. cbn [object_items] in *.
    destruct s as [|q s1]; [done|]. cbn [app]. destruct (q =? 34); [|done].
    destruct (scanstring s1) as [[key s2]|] eqn:Hkey; [|done].
    rewrite (scanstring_app _ _ _ t Hkey).
    destruct (skip_ws s2) as [|colon s3] eqn:Hskip2; [done|].
    rewrite (skip_ws_app_cons _ _ _ t Hskip2).
    destruct (colon =? 58); [|done].
    destruct (scan_once fuel (skip_ws s3)) as [[v r]|] eqn:Hv; [|done].
    destruct (skip_ws r) as [|c r'] eqn:Hskip; [done|].
    assert (Hc : c = 93 ∨ c = 44 ∨ c = 125).
    { destruct (N.eqb_spec c 125); [auto|]. destruct (N.eqb_spec c 44); [auto|done]. }
    destruct (ends_token_after _ _ _ Hskip Hc) as (x & r0 & -> & Hx).
    rewrite skip_ws_app_ne.
    2: { intros Hnil. by rewrite Hnil, scan_once_nil in Hv. }
    rewrite (IHs _ _ _ t Hv) by (by destruct v).
    rewrite (skip_ws_app_cons _ _ _ t Hskip).
    destruct (c =? 125); [by injection Hobj as <- <-|].
    destruct (c =? 44); [|done].
    destruct (object_items fuel (skip_ws r')) as [[kvs' r'']|] eqn:Hrest; [|done].
    injection Hobj as <- <-.
    rewrite skip_ws_app_ne.
    + by rewrite (IHo _ _ _ t Hrest).
    + intros Hnil. by rewrite Hnil, object_items_nil in Hrest.
Qed.

Lemma json_dumps_dict_shape (d : dict) :
  (∃ body, json_dumps (VDict d) = 123 :: body) ∧ last (json_dumps (VDict d)) = Some 125.
Proof.
  unfold json_dumps. destruct d as [|kv d]; [by split; [eexists|]|].
  cbn [encode]. split; [by eexists|]. by rewrite !app_assoc, last_app.
Qed.

Lemma scan_once_object (fuel : nat) (s1 : pystr) (v : value) (rest : pystr) :
  scan_once fuel (123 :: s1) = Some (v, rest) → ∃ d, v = VDict d.
Proof.
  destruct fuel as [|fuel]; [done|]. cbn [scan_once].
  change (123 =? 34) with false. change (123 =? 123) with true. cbv iota.
  destruct (skip_ws s1) as [|c2 s3]; [done|].
  destruct (c2 =? 125); [intros [= <- _]; by eexists|].
  destruct (object_items fuel (c2 :: s3)) as [[pairs r]|]; [|done].
  intros [= <- _]. by eexists.
Qed.

Lemma json_loads_truncated (d : dict) (k : nat) :
  value_ok (VDict d) = true →
  (k < length (json_dumps (VDict d)))%nat →
  json_loads (take k (json_dumps (VDict d))) = None.
Proof.
  intros Hok Hk. pose proof (json_loads_dumps _ Hok) as Hfull.
  destruct (json_dumps_dict_shape d) as [[body Hbody] Hlast].
  set (T := json_dumps (VDict d)) in *.
  destruct (json_loads (take k T)) as [v'|] eqn:Hp; [exfalso|done].
  pose proof (take_drop k T) as Hsplit.
  set (p := take k T) in *. set (t := drop k T) in *.
  assert (Ht : t ≠ []).
  { intros Hnil. apply (f_equal length) in Hnil. unfold t in Hnil.
    rewrite length_drop in Hnil. simpl in Hnil. lia. }
  assert (Hlen : (length p ≤ length T)%nat).
  { rewrite <- Hsplit, length_app. lia. }
  unfold json_loads in Hp, Hfull.
  destruct (bool_decide (head p = Some 65279)); [done|].
  destruct (bool_decide (head T = Some 65279)); [done|].
  destruct (scan_once (2 * length p + 2) (skip_ws p)) as [[v1 rest]|] eqn:Hscan; [|done].
  destruct (skip_ws rest) as [|? ?] eqn:Hrest; [|done]. injection Hp as ->.
  destruct (scan_once (2 * length T + 2) (skip_ws T)) as [[v2 r]|] eqn:Hscan_full; [|done].
  destruct (skip_ws r) as [|? ?] eqn:Hr; [|done]. injection Hfull as ->.
  assert (Hp : ∃ p', p = 123 :: p').
  { destruct p as [|c p'] eqn:Hpeq; [by rewrite scan_once_nil in Hscan|].
    rewrite Hbody in Hsplit. injection Hsplit as -> _. by eexists. }
  destruct Hp as [p' Hp].
  assert (Hskip_p : skip_ws p = p) by by rewrite Hp.
  assert (Hskip_T : skip_ws T = T) by by rewrite Hbody.
  rewrite Hskip_p in Hscan. rewrite Hskip_T in Hscan_full.
  assert (Hdict : closed v' rest).
  { pose proof Hscan as Hcopy. rewrite Hp in Hcopy at 2.
    by apply scan_once_object in Hcopy as [d' ->]. }
  rewrite (proj1 (scan_fuel_enough (2 * length p + 2) (2 * length T + 2)) p) in Hscan
    by lia.
  apply (proj1 (scan_extends _) _ _ _ t) in Hscan; [|done].
  rewrite Hsplit, Hscan_full in Hscan. injection Hscan as _ Hr_eq.
  rewrite Hr_eq, (skip_ws_nil_app _ _ Hrest) in Hr.
  assert (last t = Some 125) as Hlast_t.
  { rewrite <- Hsplit, last_app in Hlast. destruct (last t) eqn:Hl; [done|].
    by apply last_None in Hl. }
  by pose proof (skip_ws_nil_last _ _ Hr Hlast_t).
Qed.

(** X17: a manifest cut short is never mistaken for a catalog.  While
    [save_manifest] writes a catalog that the JSON format restores, every
    state of the manifest file before the last one -- the file emptied by
    [open], and each proper beginning of the text -- makes [load_manifest]
    raise, and a run started on such a state stops there with every file as
    it was: it does not take the cut file for an empty or a smaller
    catalog. *)
Theorem truncated_manifest_is_rejected (w : World) (fuel : nat) (args : Args)
    (catalog : dict) (fs : filesystem) (k : nat) :
  value_ok (VDict catalog) = true →
  (k < length (json_dumps (VDict catalog)))%nat →
  ∃ cut,
    save_manifest_states (manifest_path_of args) (VDict catalog) fs !! k = Some cut ∧
    cut !! manifest_path_of args = Some (FText (take k (json_dumps (VDict catalog)))) ∧
    load_manifest (manifest_path_of args) cut = Raise JSONDecodeError ∧
    main w fuel args cut = (cut, Raise JSONDecodeError).
Proof.
  intros Hok Hk.
  exists (<[manifest_path_of args := FText (take k (json_dumps (VDict catalog)))]> fs).
  assert (Hload : load_manifest (manifest_path_of args)
    (<[manifest_path_of args := FText (take k (json_dumps (VDict catalog)))]> fs)
    = Raise JSONDecodeError).
  { unfold load_manifest. by rewrite lookup_insert_eq, json_loads_truncated. }
  split; [|split; [apply lookup_insert_eq|split; [done|]]].
  - unfold save_manifest_states. rewrite list_lookup_fmap.
    rewrite (lookup_seq_lt _ _ _) by (simpl; lia). done.
  - unfold main, compare_catalogs. by rewrite Hload.
Qed.

End DecoderExtendsRuntime.

Lemma truncated_manifest_is_rejected_witness :
  ∃ cut,
    save_manifest_states (manifest_path_of sample_args) (VDict one_entry_catalog) ∅
      !! 40%nat = Some cut ∧
    cut !! manifest_path_of sample_args
      = Some (FText (take 40 (json_dumps (VDict one_entry_catalog)))) ∧
    load_manifest (H := sample_runtime) (manifest_path_of sample_args) cut
      = Raise JSONDecodeError ∧
    main (H := sample_runtime) endless_world 3 sample_args cut = (cut, Raise JSONDecodeError).
Proof.
  apply (truncated_manifest_is_rejected (H := sample_runtime) endless_world 3 sample_args
           one_entry_catalog ∅ 40).
  - vm_compute; reflexivity.
  - vm_compute. lia.
Defined.

(** ** The archiver and the pool on their own *)

(** X18: [create_zip_archive] writes one archive and nothing else.  Its
    members are the listed names that have a file in the source directory,
    in the order of the list and as often as they are listed, each with the
    content of that file; a listed name without a file is passed over; and
    every other path is left as it was. *)
Theorem archive_skips_missing_files (source_dir zip_filepath : pystr)
    (files_to_zip : list pystr) (fs : filesystem) :
  ∃ members,
    create_zip_archive source_dir zip_filepath files_to_zip fs !! zip_filepath
      = Some (FZip members) ∧
    members.*1 = filter (λ name, is_Some (fs !! os_path_join source_dir name)) files_to_zip ∧
    (∀ name f, (name, f) ∈ members ↔
       name ∈ files_to_zip ∧ fs !! os_path_join source_dir name = Some f) ∧
    (∀ path, path ≠ zip_filepath →
       create_zip_archive source_dir zip_filepath files_to_zip fs !! path = fs !! path).
Proof.
  destruct (create_zip_archive_spec source_dir zip_filepath files_to_zip fs)
    as (Hzip & Hnames & Hframe).
  exists (zip_members fs source_dir files_to_zip).
  split; [done|]. split; [done|]. split; [|done].
  intros name f. apply zip_members_spec.
Qed.

Section PoolSize.
Context `{PyRuntime} (w : World).

(** X19: a number of workers that is not positive stops the run when the
    pool is created.  With new images to download, the run raises
    [ValueError] after the report step: the reports are written, nothing is
    downloaded or archived, and the manifest is not saved. *)
Theorem no_workers_stops_before_download (fuel : nat) (args : Args) (fs : filesystem)
    (m : dict) (d : DiffResult) :
  compare_catalogs w fuel args fs = Ret (m, d) →
  new_images d ≠ [] →
  (report_step w args d fs).2 = Ret tt →
  threads_arg args ≤ 0 →
  main w fuel args fs = ((report_step w args d fs).1, Raise ValueError) ∧
  (report_step w args d fs).1 !! manifest_path_of args = fs !! manifest_path_of args.
Proof.
  intros Hcompare Hnew Hret Hthreads. split.
  - unfold main. rewrite Hcompare.
    destruct (report_step w args d fs) as [fs1 r]. cbn [fst snd] in *. subst r.
    unfold download_step, download_phase.
    destruct (new_images d); [done|]. cbn [non_empty].
    by rewrite (proj2 (Z.leb_le _ _) Hthreads).
  - apply report_step_frame. intros Hin.
    repeat (apply elem_of_cons in Hin as [Heq|Hin];
      [symmetry in Heq; by apply report_path_not_manifest in Heq; [|set_solver]|]).
    by apply elem_of_nil in Hin.
Qed.

End PoolSize.

Lemma no_workers_stops_before_download_witness :
  ∃ d,
    main (H := sample_runtime) two_images_world 3
      {| output_dir := u "output"; username := u "alice"; nsfw := u "X"; sort := u "Newest";
         threads_arg := 0; jpeg_quality := 85 |} ∅
    = ((report_step (H := sample_runtime) two_images_world
          {| output_dir := u "output"; username := u "alice"; nsfw := u "X";
             sort := u "Newest"; threads_arg := 0; jpeg_quality := 85 |} d ∅).1,
       Raise ValueError).
Proof.
  assert (Hcompare : ∃ m d,
    compare_catalogs (H := sample_runtime) two_images_world 3
      {| output_dir := u "output"; username := u "alice"; nsfw := u "X"; sort := u "Newest";
         threads_arg := 0; jpeg_quality := 85 |} ∅ = Ret (m, d) ∧
    new_images d ≠ [] ∧
    (report_step (H := sample_runtime) two_images_world
       {| output_dir := u "output"; username := u "alice"; nsfw := u "X"; sort := u "Newest";
          threads_arg := 0; jpeg_quality := 85 |} d ∅).2 = Ret tt).
  { eexists _, _. split; [vm_compute; reflexivity|]. split; [discriminate|].
    vm_compute; reflexivity. }
  destruct Hcompare as (m & d & Hcompare & Hnew & Hret). exists d.
  apply (no_workers_stops_before_download (H := sample_runtime) two_images_world 3 _ ∅ m d
           Hcompare Hnew Hret).
  simpl. lia.
Defined.
